(** * A shallow embedding of the CHIP-8 interpreter of [src/app.c]

    The machine state is the [struct emulator] of the source (without its
    three SDL handles); every C array is a list read and written by index,
    and an access outside the array, which is undefined behaviour in C, makes
    the operation fail ([None]).  Fixed-width unsigned integers are integers
    of [Z] with the wrap-around written out. *)

From Stdlib Require Import ZArith List Bool Lia.
From stdpp Require Import base option list.
Import ListNotations.

#[local] Open Scope Z_scope.

(** ** Fixed-width unsigned integers *)

Definition u8 (z : Z) : Z := z mod 256.
Definition u16 (z : Z) : Z := z mod 65536.
Definition u32 (z : Z) : Z := z mod 4294967296.

(** ** C arrays: an access out of bounds fails *)

Definition load (a : list Z) (i : Z) : option Z :=
  if i <? 0 then None else a !! Z.to_nat i.

Definition store (a : list Z) (i v : Z) : option (list Z) :=
  if (0 <=? i) && (i <? Z.of_nat (length a))
  then Some (<[Z.to_nat i := v]> a)
  else None.

(** [for (u32 i = start; i < start + n; i++) body] *)
Fixpoint for_range {S : Type} (n : nat) (i : Z) (body : Z -> S -> option S) (s : S)
  : option S :=
  match n with
  | O => Some s
  | S n' => s' ← body i s; for_range n' (i + 1) body s'
  end.

Arguments for_range : simpl never.

(** ** The machine state *)

Record emulator := mk_emulator {
  memory : list Z;          (* u8 memory[4096] *)
  rom_size : Z;             (* u32 *)
  registers : list Z;       (* u8 registers[16] *)
  index_register : Z;       (* u16 *)
  program_counter : Z;      (* u16 *)
  gfx : list Z;             (* u32 gfx[64 * 32] *)
  draw_flag : bool;
  delay_timer : Z;          (* u8 *)
  sound_timer : Z;          (* u8 *)
  stack : list Z;           (* u16 stack[16] *)
  stack_ptr : Z;            (* u16 *)
  keys : list Z             (* u8 keys[16] *)
}.

Definition set_memory (m : list Z) (e : emulator) : emulator :=
  mk_emulator m (rom_size e) (registers e) (index_register e) (program_counter e)
    (gfx e) (draw_flag e) (delay_timer e) (sound_timer e) (stack e) (stack_ptr e) (keys e).

Definition set_rom_size (n : Z) (e : emulator) : emulator :=
  mk_emulator (memory e) n (registers e) (index_register e) (program_counter e)
    (gfx e) (draw_flag e) (delay_timer e) (sound_timer e) (stack e) (stack_ptr e) (keys e).

Definition set_registers (r : list Z) (e : emulator) : emulator :=
  mk_emulator (memory e) (rom_size e) r (index_register e) (program_counter e)
    (gfx e) (draw_flag e) (delay_timer e) (sound_timer e) (stack e) (stack_ptr e) (keys e).

Definition set_index_register (i : Z) (e : emulator) : emulator :=
  mk_emulator (memory e) (rom_size e) (registers e) i (program_counter e)
    (gfx e) (draw_flag e) (delay_timer e) (sound_timer e) (stack e) (stack_ptr e) (keys e).

Definition set_program_counter (p : Z) (e : emulator) : emulator :=
  mk_emulator (memory e) (rom_size e) (registers e) (index_register e) p
    (gfx e) (draw_flag e) (delay_timer e) (sound_timer e) (stack e) (stack_ptr e) (keys e).

Definition set_gfx (g : list Z) (e : emulator) : emulator :=
  mk_emulator (memory e) (rom_size e) (registers e) (index_register e) (program_counter e)
    g (draw_flag e) (delay_timer e) (sound_timer e) (stack e) (stack_ptr e) (keys e).

Definition set_draw_flag (b : bool) (e : emulator) : emulator :=
  mk_emulator (memory e) (rom_size e) (registers e) (index_register e) (program_counter e)
    (gfx e) b (delay_timer e) (sound_timer e) (stack e) (stack_ptr e) (keys e).

Definition set_delay_timer (t : Z) (e : emulator) : emulator :=
  mk_emulator (memory e) (rom_size e) (registers e) (index_register e) (program_counter e)
    (gfx e) (draw_flag e) t (sound_timer e) (stack e) (stack_ptr e) (keys e).

Definition set_sound_timer (t : Z) (e : emulator) : emulator :=
  mk_emulator (memory e) (rom_size e) (registers e) (index_register e) (program_counter e)
    (gfx e) (draw_flag e) (delay_timer e) t (stack e) (stack_ptr e) (keys e).

Definition set_stack (s : list Z) (e : emulator) : emulator :=
  mk_emulator (memory e) (rom_size e) (registers e) (index_register e) (program_counter e)
    (gfx e) (draw_flag e) (delay_timer e) (sound_timer e) s (stack_ptr e) (keys e).

Definition set_stack_ptr (p : Z) (e : emulator) : emulator :=
  mk_emulator (memory e) (rom_size e) (registers e) (index_register e) (program_counter e)
    (gfx e) (draw_flag e) (delay_timer e) (sound_timer e) (stack e) p (keys e).

Definition set_keys (k : list Z) (e : emulator) : emulator :=
  mk_emulator (memory e) (rom_size e) (registers e) (index_register e) (program_counter e)
    (gfx e) (draw_flag e) (delay_timer e) (sound_timer e) (stack e) (stack_ptr e) k.

(** [emu->program_counter += n] *)
Definition advance (n : Z) (e : emulator) : emulator :=
  set_program_counter (u16 (program_counter e + n)) e.

(** Every array has the length of its declaration and every cell and scalar
    holds a value of its C type. *)
Definition in_range (bound : Z) (z : Z) : bool := (0 <=? z) && (z <? bound).

Definition wf (e : emulator) : Prop :=
  length (memory e) = 4096%nat /\ forallb (in_range 256) (memory e) = true /\
  length (registers e) = 16%nat /\ forallb (in_range 256) (registers e) = true /\
  length (gfx e) = 2048%nat /\ forallb (in_range 4294967296) (gfx e) = true /\
  length (stack e) = 16%nat /\ forallb (in_range 65536) (stack e) = true /\
  length (keys e) = 16%nat /\ forallb (in_range 256) (keys e) = true /\
  in_range 4294967296 (rom_size e) = true /\
  in_range 65536 (index_register e) = true /\
  in_range 65536 (program_counter e) = true /\
  in_range 256 (delay_timer e) = true /\
  in_range 256 (sound_timer e) = true /\
  in_range 65536 (stack_ptr e) = true.

(** What the program writes to standard output. *)
Inductive event :=
| Print_rom_binary (len : Z) (bytes : list Z)
| Print_rom_too_large (len : Z)
| Print_loading_rom (ok : bool)
| Print_unknown_opcode (class opcode : Z)
| Print_beep.

(** ** Start-up: [struct emulator emu = {0}] and [init] *)

Definition font_set : list Z :=
  [ 0xF0; 0x90; 0x90; 0x90; 0xF0;
    0x20; 0x60; 0x20; 0x20; 0x70;
    0xF0; 0x10; 0xF0; 0x80; 0xF0;
    0xF0; 0x10; 0xF0; 0x10; 0xF0;
    0x90; 0x90; 0xF0; 0x10; 0x10;
    0xF0; 0x80; 0xF0; 0x10; 0xF0;
    0xF0; 0x80; 0xF0; 0x90; 0xF0;
    0xF0; 0x10; 0x20; 0x40; 0x40;
    0xF0; 0x90; 0xF0; 0x90; 0xF0;
    0xF0; 0x90; 0xF0; 0x10; 0xF0;
    0xF0; 0x90; 0xF0; 0x90; 0x90;
    0xE0; 0x90; 0xE0; 0x90; 0xE0;
    0xF0; 0x80; 0x80; 0x80; 0xF0;
    0xE0; 0x90; 0x90; 0x90; 0xE0;
    0xF0; 0x80; 0xF0; 0x80; 0xF0;
    0xF0; 0x80; 0xF0; 0x80; 0x80 ].

Definition zero_emulator : emulator :=
  mk_emulator (replicate 4096 0) 0 (replicate 16 0) 0 0 (replicate 2048 0) false 0 0
    (replicate 16 0) 0 (replicate 16 0).

(** The SDL set-up of [init] does not touch the machine; the font is
    copied to 0x50..0x9F and the program counter set to 0x200. *)
Definition init (emu : emulator) : emulator :=
  let emu := set_program_counter 0x200 emu in
  set_memory (list_inserts (Z.to_nat 0x50) font_set (memory emu)) emu.

(** ** The loader *)

(** The file named on the command line: absent, or present with its
    contents; [delivered] is the number of bytes the stream gives to a read
    before it fails ([fread] returns fewer items than asked for when it is
    smaller than the request). *)
Inductive rom_file :=
| Absent
| Present (contents : list Z) (delivered : nat).

(** [fread (mem, 1, len, fp)] on a fresh stream: the items read are
    stored from the start of the buffer, and their number is returned. *)
Definition fread (contents : list Z) (delivered : nat) (len : nat) : list Z :=
  take (Nat.min delivered len) contents.

Definition load_rom (emu : emulator) (file : rom_file) : bool * emulator * list event :=
  match file with
  | Present contents delivered =>
      let len := length contents in
      let available_memory := 0xFFF - 0x200 in
      if Z.of_nat len <=? available_memory then
        let got := fread contents delivered len in
        let emu := set_memory (list_inserts (Z.to_nat 0x200) got (memory emu)) emu in
        if (length got =? len)%nat then
          let mem := drop (Z.to_nat 0x200) (memory emu) in
          (true, set_rom_size (u32 (Z.of_nat len)) emu,
           [Print_rom_binary (Z.of_nat len) (take len mem); Print_loading_rom true])
        else (false, emu, [Print_loading_rom false])
      else (false, emu, [Print_rom_too_large (Z.of_nat len); Print_loading_rom false])
  | Absent => (false, emu, [Print_loading_rom false])
  end.

(** ** The input adapter: [handle_input] *)

Inductive keycode :=
| SDLK_ESCAPE
| SDLK_1 | SDLK_2 | SDLK_3 | SDLK_4
| SDLK_q | SDLK_w | SDLK_e | SDLK_r
| SDLK_a | SDLK_s | SDLK_d | SDLK_f
| SDLK_z | SDLK_x | SDLK_c | SDLK_v
| SDLK_other.

Inductive sdl_event :=
| SDL_QUIT
| SDL_KEYDOWN (code : keycode)
| SDL_KEYUP (code : keycode)
| SDL_other.

(** The key legend shared by the two inner switches of [handle_input]. *)
Definition keypad (code : keycode) : option nat :=
  match code with
  | SDLK_1 => Some 0x1%nat | SDLK_2 => Some 0x2%nat
  | SDLK_3 => Some 0x3%nat | SDLK_4 => Some 0xC%nat
  | SDLK_q => Some 0x4%nat | SDLK_w => Some 0x5%nat
  | SDLK_e => Some 0x6%nat | SDLK_r => Some 0xD%nat
  | SDLK_a => Some 0x7%nat | SDLK_s => Some 0x8%nat
  | SDLK_d => Some 0x9%nat | SDLK_f => Some 0xE%nat
  | SDLK_z => Some 0xA%nat | SDLK_x => Some 0x0%nat
  | SDLK_c => Some 0xB%nat | SDLK_v => Some 0xF%nat
  | SDLK_ESCAPE | SDLK_other => None
  end.

(** One turn of the polling loop; the first component is [g__running]. *)
Definition handle_event (st : bool * emulator) (ev : sdl_event) : bool * emulator :=
  let '(running, emu) := st in
  match ev with
  | SDL_QUIT => (false, emu)
  | SDL_KEYDOWN SDLK_ESCAPE => (false, emu)
  | SDL_KEYDOWN code =>
      match keypad code with
      | Some k => (running, set_keys (<[k := 1]> (keys emu)) emu)
      | None => (running, emu)
      end
  | SDL_KEYUP code =>
      match keypad code with
      | Some k => (running, set_keys (<[k := 0]> (keys emu)) emu)
      | None => (running, emu)
      end
  | SDL_other => (running, emu)
  end.

Definition handle_input (running : bool) (emu : emulator) (pending : list sdl_event)
  : bool * emulator :=
  fold_left handle_event pending (running, emu).

(** ** One cycle: [emulation_cycle] *)

Definition VX (opcode : Z) : Z := Z.shiftr (Z.land opcode 0x0F00) 8.
Definition VY (opcode : Z) : Z := Z.shiftr (Z.land opcode 0x00F0) 4.

Definition fetch (emu : emulator) : option Z :=
  hi ← load (memory emu) (program_counter emu);
  lo ← load (memory emu) (program_counter emu + 1);
  Some (u16 (Z.lor (Z.shiftl hi 8) lo)).

(** How the switch is left: by [break], with what was printed, or, for the
    key wait, by [return], which skips the timers. *)
Inductive flow :=
| Break (emu : emulator) (out : list event)
| Return (emu : emulator).

Definition next (emu : emulator) : option flow := Some (Break (advance 2 emu) []).

(** [if (c) pc += 4; else pc += 2;] *)
Definition skip_if (c : bool) (emu : emulator) : option flow :=
  Some (Break (advance (if c then 4 else 2) emu) []).

Definition unknown (class opcode : Z) (emu : emulator) : option flow :=
  Some (Break emu [Print_unknown_opcode class opcode]).

(** 00E0 *)
Definition op_clear_screen (emu : emulator) : option flow :=
  g ← for_range (Z.to_nat (64 * 32)) 0 (fun i g => store g i 0) (gfx emu);
  next (set_draw_flag true (set_gfx g emu)).

(** 00EE *)
Definition op_return (emu : emulator) : option flow :=
  let sp := u16 (stack_ptr emu - 1) in
  address ← load (stack emu) sp;
  Some (Break (advance 2 (set_program_counter address (set_stack_ptr sp emu))) []).

(** 1NNN *)
Definition op_jump (opcode : Z) (emu : emulator) : option flow :=
  Some (Break (set_program_counter (Z.land opcode 0x0FFF) emu) []).

(** 2NNN *)
Definition op_call (opcode : Z) (emu : emulator) : option flow :=
  s ← store (stack emu) (stack_ptr emu) (program_counter emu);
  let emu := set_stack_ptr (u16 (stack_ptr emu + 1)) (set_stack s emu) in
  Some (Break (set_program_counter (Z.land opcode 0x0FFF) emu) []).

(** 3XNN *)
Definition op_skip_eq_imm (opcode : Z) (emu : emulator) : option flow :=
  let index := u8 (Z.shiftr (Z.land opcode 0x0F00) 8) in
  vx ← load (registers emu) index;
  let nn := u8 (Z.land opcode 0x00FF) in
  skip_if (vx =? nn) emu.

(** 4XNN *)
Definition op_skip_ne_imm (opcode : Z) (emu : emulator) : option flow :=
  let index := u8 (Z.shiftr (Z.land opcode 0x0F00) 8) in
  vx ← load (registers emu) index;
  let nn := u8 (Z.land opcode 0x00FF) in
  skip_if (negb (vx =? nn)) emu.

(** 5XY0 *)
Definition op_skip_eq (opcode : Z) (emu : emulator) : option flow :=
  vx ← load (registers emu) (Z.shiftr (Z.land opcode 0x0F00) 8);
  vy ← load (registers emu) (Z.shiftr (Z.land opcode 0x00F0) 4);
  skip_if (vx =? vy) emu.

(** 6XNN *)
Definition op_load_imm (opcode : Z) (emu : emulator) : option flow :=
  r ← store (registers emu) (Z.shiftr (Z.land opcode 0x0F00) 8) (u8 (Z.land opcode 0x00FF));
  next (set_registers r emu).

(** 7XNN *)
Definition op_add_imm (opcode : Z) (emu : emulator) : option flow :=
  let index := u8 (Z.shiftr (Z.land opcode 0x0F00) 8) in
  let nn := u8 (Z.land opcode 0x00FF) in
  cur ← load (registers emu) index;
  r ← store (registers emu) index (u8 (cur + nn));
  next (set_registers r emu).

(** 8XY0 *)
Definition op_assign (opcode : Z) (emu : emulator) : option flow :=
  vy ← load (registers emu) (Z.shiftr (Z.land opcode 0x00F0) 4);
  r ← store (registers emu) (Z.shiftr (Z.land opcode 0x0F00) 8) vy;
  next (set_registers r emu).

(** 8XY1, 8XY2, 8XY3: [registers[X] op= vy] *)
Definition op_bitwise (op : Z -> Z -> Z) (opcode : Z) (emu : emulator) : option flow :=
  vy ← load (registers emu) (Z.shiftr (Z.land opcode 0x00F0) 4);
  cur ← load (registers emu) (Z.shiftr (Z.land opcode 0x0F00) 8);
  r ← store (registers emu) (Z.shiftr (Z.land opcode 0x0F00) 8) (u8 (op cur vy));
  next (set_registers r emu).

(** 8XY4 *)
Definition op_add (opcode : Z) (emu : emulator) : option flow :=
  vx ← load (registers emu) (Z.shiftr (Z.land opcode 0x0F00) 8);
  vy ← load (registers emu) (Z.shiftr (Z.land opcode 0x00F0) 4);
  r ← store (registers emu) 0xF (if vy >? vx then 1 else 0);
  cur ← load r (Z.shiftr (Z.land opcode 0x0F00) 8);
  r ← store r (Z.shiftr (Z.land opcode 0x0F00) 8) (u8 (cur + vy));
  next (set_registers r emu).

(** 8XY5 *)
Definition op_sub (opcode : Z) (emu : emulator) : option flow :=
  vx ← load (registers emu) (Z.shiftr (Z.land opcode 0x0F00) 8);
  vy ← load (registers emu) (Z.shiftr (Z.land opcode 0x00F0) 4);
  r ← store (registers emu) 0xF (if vy >? vx then 0 else 1);
  cur ← load r (Z.shiftr (Z.land opcode 0x0F00) 8);
  r ← store r (Z.shiftr (Z.land opcode 0x0F00) 8) (u8 (cur - vy));
  next (set_registers r emu).

(** 8XY6 *)
Definition op_shift_right (opcode : Z) (emu : emulator) : option flow :=
  vx ← load (registers emu) (Z.shiftr (Z.land opcode 0x0F00) 8);
  r ← store (registers emu) 0xF (u8 (Z.land vx 0x01));
  cur ← load r (Z.shiftr (Z.land opcode 0x0F00) 8);
  r ← store r (Z.shiftr (Z.land opcode 0x0F00) 8) (u8 (Z.shiftr cur 1));
  next (set_registers r emu).

(** 8XY7 *)
Definition op_sub_reverse (opcode : Z) (emu : emulator) : option flow :=
  vx ← load (registers emu) (Z.shiftr (Z.land opcode 0x0F00) 8);
  vy ← load (registers emu) (Z.shiftr (Z.land opcode 0x00F0) 4);
  r ← store (registers emu) 0xF (if vx >? vy then 0 else 1);
  r ← store r (Z.shiftr (Z.land opcode 0x0F00) 8) (u8 (vy - vx));
  next (set_registers r emu).

(** 8XYE *)
Definition op_shift_left (opcode : Z) (emu : emulator) : option flow :=
  vx ← load (registers emu) (Z.shiftr (Z.land opcode 0x0F00) 8);
  r ← store (registers emu) 0xF (u8 (Z.shiftr vx 7));
  cur ← load r (Z.shiftr (Z.land opcode 0x0F00) 8);
  r ← store r (Z.shiftr (Z.land opcode 0x0F00) 8) (u8 (Z.shiftl cur 1));
  next (set_registers r emu).

(** 9XY0 *)
Definition op_skip_ne (opcode : Z) (emu : emulator) : option flow :=
  vx ← load (registers emu) (VX opcode);
  vy ← load (registers emu) (Z.shiftr (Z.land opcode 0x00F0) 4);
  skip_if (negb (vx =? vy)) emu.

(** ANNN *)
Definition op_set_index (opcode : Z) (emu : emulator) : option flow :=
  next (set_index_register (Z.land opcode 0x0FFF) emu).

(** BNNN *)
Definition op_jump_offset (opcode : Z) (emu : emulator) : option flow :=
  v0 ← load (registers emu) 0;
  Some (Break (set_program_counter (u16 (Z.land opcode 0x0FFF + v0)) emu) []).

(** CXNN; [rnd] is what [rand ()] returns. *)
Definition op_random (rnd : Z) (opcode : Z) (emu : emulator) : option flow :=
  r ← store (registers emu) (Z.shiftr (Z.land opcode 0x0F00) 8)
        (u8 (Z.land (Z.rem rnd 0xFF) (Z.land opcode 0x00FF)));
  next (set_registers r emu).

(** DXYN: the cell a set sprite bit lands on. *)
Definition dest_pixel (vx vy x y : Z) : Z :=
  let dest_x := if vx + x >? 64 then 64 else vx + x in
  let dest_y := if vy + y >? 32 then 32 else vy + y in
  dest_y * 64 + dest_x.

(** The body of the inner loop of DXYN. *)
Definition draw_bit (vx vy row y x : Z) (emu : emulator) : option emulator :=
  let col := u8 (Z.land row (Z.shiftr 0x80 x)) in
  if col =? 0 then Some emu
  else
    g ← load (gfx emu) (dest_pixel vx vy x y);
    r ← (if g =? 0xFFFFFFFF then store (registers emu) 0xF 1 else Some (registers emu));
    g' ← store (gfx emu) (dest_pixel vx vy x y) (u32 (Z.lxor g 0xFFFFFFFF));
    Some (set_gfx g' (set_registers r emu)).

(** The body of the outer loop of DXYN. *)
Definition draw_row (vx vy y : Z) (emu : emulator) : option emulator :=
  row ← load (memory emu) (index_register emu + y);
  let width := 8 in
  for_range (Z.to_nat width) 0 (draw_bit vx vy row y) emu.

(** DXYN.  The wrapped start coordinates [x] and [y] are computed and then
    hidden by the loop counters of the same names: the loops use [vx], [vy]. *)
Definition op_draw (opcode : Z) (emu : emulator) : option flow :=
  vx ← load (registers emu) (Z.shiftr (Z.land opcode 0x0F00) 8);
  vy ← load (registers emu) (Z.shiftr (Z.land opcode 0x00F0) 4);
  let height := Z.land opcode 0x000F in
  let x := u8 (Z.rem vx 64) in
  let y := u8 (Z.rem vy 32) in
  r ← store (registers emu) 0xF 0;
  emu ← for_range (Z.to_nat height) 0 (draw_row vx vy) (set_registers r emu);
  next (set_draw_flag true emu).

(** EX9E *)
Definition op_skip_key (opcode : Z) (emu : emulator) : option flow :=
  vx ← load (registers emu) (VX opcode);
  k ← load (keys emu) vx;
  skip_if (negb (k =? 0)) emu.

(** EXA1 *)
Definition op_skip_not_key (opcode : Z) (emu : emulator) : option flow :=
  vx ← load (registers emu) (VX opcode);
  k ← load (keys emu) vx;
  skip_if (k =? 0) emu.

(** FX07 *)
Definition op_get_delay (opcode : Z) (emu : emulator) : option flow :=
  r ← store (registers emu) (VX opcode) (delay_timer emu);
  next (set_registers r emu).

(** The body of the loop of FX0A; the second component is [key_pressed]. *)
Definition scan_key (opcode : Z) (i : Z) (s : emulator * bool) : option (emulator * bool) :=
  k ← load (keys s.1) i;
  if k =? 0 then Some s
  else
    r ← store (registers s.1) (VX opcode) (u8 i);
    Some (set_registers r s.1, true).

(** FX0A *)
Definition op_wait_key (opcode : Z) (emu : emulator) : option flow :=
  s ← for_range 16 0 (scan_key opcode) (emu, false);
  if (s.2 : bool) then Some (Break (advance 2 s.1) []) else Some (Return s.1).

(** FX15 *)
Definition op_set_delay (opcode : Z) (emu : emulator) : option flow :=
  vx ← load (registers emu) (VX opcode);
  next (set_delay_timer vx emu).

(** FX18 *)
Definition op_set_sound (opcode : Z) (emu : emulator) : option flow :=
  vx ← load (registers emu) (VX opcode);
  next (set_sound_timer vx emu).

(** FX1E *)
Definition op_add_index (opcode : Z) (emu : emulator) : option flow :=
  vx ← load (registers emu) (VX opcode);
  r ← store (registers emu) 0xF (if index_register emu + vx >? 0xFFF then 1 else 0);
  next (set_index_register (u16 (index_register emu + vx)) (set_registers r emu)).

(** FX29 *)
Definition op_font (opcode : Z) (emu : emulator) : option flow :=
  vx ← load (registers emu) (VX opcode);
  next (set_index_register (u16 (0x50 + vx * 5)) emu).

(** FX33 *)
Definition op_bcd (opcode : Z) (emu : emulator) : option flow :=
  let I := index_register emu in
  vx ← load (registers emu) (VX opcode);
  m ← store (memory emu) I (u8 (Z.quot vx 100));
  m ← store m (I + 1) (u8 (Z.rem (Z.quot vx 10) 10));
  m ← store m (I + 2) (u8 (Z.rem (Z.rem vx 100) 10));
  next (set_memory m emu).

(** FX55 *)
Definition op_dump (opcode : Z) (emu : emulator) : option flow :=
  let vx := u8 (VX opcode) in
  m ← for_range (Z.to_nat (vx + 1)) 0
        (fun i m => v ← load (registers emu) i; store m (index_register emu + i) v)
        (memory emu);
  next (set_memory m emu).

(** FX65 *)
Definition op_fill (opcode : Z) (emu : emulator) : option flow :=
  let vx := u8 (VX opcode) in
  r ← for_range (Z.to_nat (vx + 1)) 0
        (fun i r => v ← load (memory emu) (index_register emu + i); store r i v)
        (registers emu);
  next (set_registers r emu).

(** The switch on the instruction word. *)
Definition execute (rnd : Z) (opcode : Z) (emu : emulator) : option flow :=
  match Z.land opcode 0xF000 with
  | 0x0000 =>
      match Z.land opcode 0x00FF with
      | 0x00E0 => op_clear_screen emu
      | 0x00EE => op_return emu
      | _ => unknown 0x0000 opcode emu
      end
  | 0x1000 => op_jump opcode emu
  | 0x2000 => op_call opcode emu
  | 0x3000 => op_skip_eq_imm opcode emu
  | 0x4000 => op_skip_ne_imm opcode emu
  | 0x5000 => op_skip_eq opcode emu
  | 0x6000 => op_load_imm opcode emu
  | 0x7000 => op_add_imm opcode emu
  | 0x8000 =>
      match Z.land opcode 0x000F with
      | 0x0000 => op_assign opcode emu
      | 0x0001 => op_bitwise Z.lor opcode emu
      | 0x0002 => op_bitwise Z.land opcode emu
      | 0x0003 => op_bitwise Z.lxor opcode emu
      | 0x0004 => op_add opcode emu
      | 0x0005 => op_sub opcode emu
      | 0x0006 => op_shift_right opcode emu
      | 0x0007 => op_sub_reverse opcode emu
      | 0x000E => op_shift_left opcode emu
      | _ => unknown 0x8000 opcode emu
      end
  | 0x9000 => op_skip_ne opcode emu
  | 0xA000 => op_set_index opcode emu
  | 0xB000 => op_jump_offset opcode emu
  | 0xC000 => op_random rnd opcode emu
  | 0xD000 => op_draw opcode emu
  | 0xE000 =>
      match Z.land opcode 0x00FF with
      | 0x009E => op_skip_key opcode emu
      | 0x00A1 => op_skip_not_key opcode emu
      | _ => unknown 0xE000 opcode emu
      end
  | 0xF000 =>
      match Z.land opcode 0x00FF with
      | 0x0007 => op_get_delay opcode emu
      | 0x000A => op_wait_key opcode emu
      | 0x0015 => op_set_delay opcode emu
      | 0x0018 => op_set_sound opcode emu
      | 0x001E => op_add_index opcode emu
      | 0x0029 => op_font opcode emu
      | 0x0033 => op_bcd opcode emu
      | 0x0055 => op_dump opcode emu
      | 0x0065 => op_fill opcode emu
      | _ => unknown 0xF000 opcode emu
      end
  | _ => unknown 0 opcode emu
  end.

(** The timers, after the switch. *)
Definition tick_timers (emu : emulator) : emulator * list event :=
  let emu :=
    if delay_timer emu >? 0 then set_delay_timer (u8 (delay_timer emu - 1)) emu else emu in
  if sound_timer emu >? 0
  then (set_sound_timer (u8 (sound_timer emu - 1)) emu,
        if sound_timer emu =? 1 then [Print_beep] else [])
  else (emu, []).

Definition emulation_cycle (rnd : Z) (emu : emulator) : option (emulator * list event) :=
  opcode ← fetch emu;
  f ← execute rnd opcode emu;
  match f with
  | Break emu out => let '(emu, beep) := tick_timers emu in Some (emu, out ++ beep)
  | Return emu => Some (emu, [])
  end.

(** ** The host loop of [main]

    After a successful load the loop alternates [handle_input] and
    [emulation_cycle]; [rand ()] may return anything.  Only cycles that
    stay within the arrays of the machine are followed: an access outside
    an array is undefined behaviour in C, and the states after it are not
    described. *)

Inductive reachable : emulator -> Prop :=
| reachable_loaded file emu out :
    load_rom (init zero_emulator) file = (true, emu, out) -> reachable emu
| reachable_input running emu pending :
    reachable emu -> reachable (handle_input running emu pending).2
| reachable_cycle rnd emu emu' out :
    reachable emu -> emulation_cycle rnd emu = Some (emu', out) -> reachable emu'.

(** The instruction word sends the program counter to an odd address:
    1NNN or 2NNN with NNN odd, BNNN with NNN + V0 odd. *)
Definition odd_target (opcode : Z) (emu : emulator) : bool :=
  match Z.land opcode 0xF000 with
  | 0x1000 | 0x2000 => Z.odd (Z.land opcode 0x0FFF)
  | 0xB000 =>
      match load (registers emu) 0 with
      | Some v0 => Z.odd (Z.land opcode 0x0FFF + v0)
      | None => false
      end
  | _ => false
  end.

(** The states of the host loop when every cycle stays within the arrays
    of the machine and no cycle executes such a word. *)
Inductive reachable_aligned : emulator -> Prop :=
| aligned_loaded file emu out :
    load_rom (init zero_emulator) file = (true, emu, out) -> reachable_aligned emu
| aligned_input running emu pending :
    reachable_aligned emu -> reachable_aligned (handle_input running emu pending).2
| aligned_cycle rnd emu opcode emu' out :
    reachable_aligned emu ->
    fetch emu = Some opcode -> odd_target opcode emu = false ->
    emulation_cycle rnd emu = Some (emu', out) -> reachable_aligned emu'.

(** ** The polymorphic classes and their secondary codes

    The case labels of the four inner switches of [emulation_cycle]. *)

Definition secondary_code (opcode : Z) : Z :=
  if Z.land opcode 0xF000 =? 0x8000 then Z.land opcode 0x000F else Z.land opcode 0x00FF.

Definition known_codes (class : Z) : list Z :=
  if class =? 0x0000 then [0xE0; 0xEE]
  else if class =? 0x8000 then [0x0; 0x1; 0x2; 0x3; 0x4; 0x5; 0x6; 0x7; 0xE]
  else if class =? 0xE000 then [0x9E; 0xA1]
  else if class =? 0xF000 then [0x07; 0x0A; 0x15; 0x18; 0x1E; 0x29; 0x33; 0x55; 0x65]
  else [].

Definition polymorphic (class : Z) : bool :=
  existsb (Z.eqb class) [0x0000; 0x8000; 0xE000; 0xF000].

(** The high nibble selects a polymorphic class and no case label of its
    inner switch matches. *)
Definition unknown_instruction (opcode : Z) : bool :=
  polymorphic (Z.land opcode 0xF000) &&
  negb (existsb (Z.eqb (secondary_code opcode)) (known_codes (Z.land opcode 0xF000))).

Definition flow_emu (f : flow) : emulator :=
  match f with
  | Break emu _ => emu
  | Return emu => emu
  end.

(** ** Alignment

    The program counter and every cell of the call stack are even. *)
Definition aligned (emu : emulator) : Prop :=
  Z.even (program_counter emu) = true /\
  Forall (fun a => Z.even a = true) (stack emu).

(** The instruction kept the call stack and the parity of the program
    counter. *)
Definition keeps_parity (emu : emulator) (f : flow) : Prop :=
  stack (flow_emu f) = stack emu /\
  Z.even (program_counter (flow_emu f)) = Z.even (program_counter emu).

(** ** The two shifts

    8XY6 and 8XYE have one shape: the flag is computed from VX and stored
    in register 0xF, then register X is read again and its shifted value
    stored. *)
Definition shift_like (flag shifted : Z -> Z) (opcode : Z) (emu : emulator) : option flow :=
  vx ← load (registers emu) (VX opcode);
  r ← store (registers emu) 0xF (flag vx);
  cur ← load r (VX opcode);
  r ← store r (VX opcode) (shifted cur);
  next (set_registers r emu).

(** What a shift of a machine whose register X holds [vx] produces, in
    terms of the flag and of the shifted value: the two writes in their
    order; their effect when X is not the flag register; the program
    counter; and the same cycle run on any machine that differs from
    [emu] only in register Y and holds the same register X. *)
Definition shift_outcome (flag shifted : Z -> Z) (rnd : Z) (emu : emulator)
    (opcode vx : Z) (emu' : emulator) (out : list event) : Prop :=
  registers emu' =
    <[Z.to_nat (VX opcode) := shifted (if VX opcode =? 0xF then flag vx else vx)]>
      (<[15%nat := flag vx]> (registers emu)) /\
  (VX opcode <> 0xF ->
   registers emu' !! 15%nat = Some (flag vx) /\
   registers emu' !! Z.to_nat (VX opcode) = Some (shifted vx)) /\
  program_counter emu' = program_counter emu + 2 /\
  forall (v : Z) (emu2 : emulator),
    emu2 = set_registers (<[Z.to_nat (VY opcode) := v]> (registers emu)) emu ->
    registers emu2 !! Z.to_nat (VX opcode) = Some vx ->
    exists emu2',
      emulation_cycle rnd emu2 = Some (emu2', out) /\
      set_registers (registers emu') emu2' = emu' /\
      forall i : nat,
        i <> Z.to_nat (VY opcode) \/ i = Z.to_nat (VX opcode) \/ i = 15%nat ->
        registers emu2' !! i = registers emu' !! i.

(** ** Machines used in the examples *)

(** The machine after [init] and a complete load of [program]. *)
Definition boot (program : list Z) : emulator :=
  (load_rom (init zero_emulator) (Present program (length program))).1.2.

(** Registers V0 and V1 preset. *)
Definition with_v0_v1 (v0 v1 : Z) (emu : emulator) : emulator :=
  set_registers (<[1%nat := v1]> (<[0%nat := v0]> (registers emu))) emu.

(** 8014: V0 += V1, with V0 = 0xFF and V1 = 0x01. *)
Definition add_carry_machine : emulator := with_v0_v1 0xFF 0x01 (boot [0x80; 0x14]).

(** 0000: class 0x0 with a low byte that is neither E0 nor EE. *)
Definition unknown_machine : emulator := boot [0x00; 0x00].

(** D012 with V0 = 0, V1 = 31 and a two-row sprite whose rows are 0x80. *)
Definition clamp_machine : emulator :=
  with_v0_v1 0 31 (set_index_register 0x202 (boot [0xD0; 0x12; 0x80; 0x80])).

(** D011 with V0 = 70, V1 = 0 and a one-row sprite 0x80. *)
Definition wrap_machine : emulator :=
  with_v0_v1 70 0 (set_index_register 0x202 (boot [0xD0; 0x11; 0x80])).

(** 1201: jump to 0x201. *)
Definition odd_jump_machine : emulator := boot [0x12; 0x01].

(** F30A with keys 2 and 9 held. *)
Definition wait_key_machine : emulator :=
  let emu := boot [0xF3; 0x0A] in
  set_keys (<[9%nat := 1]> (<[2%nat := 1]> (keys emu))) emu.

(** 2204 at 0x200 and 00EE at 0x204. *)
Definition call_machine : emulator := boot [0x22; 0x04; 0x00; 0x00; 0x00; 0xEE].

(** 8016 (shift right) and 801E (shift left) with V0 = 0x85, V1 = 0x33. *)
Definition shift_right_machine : emulator := with_v0_v1 0x85 0x33 (boot [0x80; 0x16]).
Definition shift_left_machine : emulator := with_v0_v1 0x85 0x33 (boot [0x80; 0x1E]).

(** A two-byte image whose stream fails after the first byte. *)
Definition short_read : rom_file := Present [0x12; 0x34] 1.

(** ** Definitions for the properties of the whole interpreter *)

(** A C array of [n] cells whose values are below [bound]. *)
Definition array_ok (n : nat) (bound : Z) (a : list Z) : Prop :=
  length a = n /\ forallb (in_range bound) a = true.

(** A file whose contents, when it is present, are bytes. *)
Definition rom_file_ok (file : rom_file) : Prop :=
  match file with
  | Absent => True
  | Present contents _ => forallb (in_range 256) contents = true
  end.

(** ** What an instruction word may write

    Read off the handlers that the switch of [emulation_cycle] selects:
    FX33 and FX55 write the memory; 2NNN and 00EE the call stack and its
    pointer; 00E0 and DXYN the framebuffer; FX15 and FX18 the timers;
    ANNN, FX1E and FX29 the index register. *)

Definition writes_memory (opcode : Z) : bool :=
  (Z.land opcode 0xF000 =? 0xF000) &&
  ((Z.land opcode 0x00FF =? 0x33) || (Z.land opcode 0x00FF =? 0x55)).

Definition writes_stack (opcode : Z) : bool :=
  (Z.land opcode 0xF000 =? 0x2000) ||
  ((Z.land opcode 0xF000 =? 0x0000) && (Z.land opcode 0x00FF =? 0xEE)).

Definition writes_gfx (opcode : Z) : bool :=
  (Z.land opcode 0xF000 =? 0xD000) ||
  ((Z.land opcode 0xF000 =? 0x0000) && (Z.land opcode 0x00FF =? 0xE0)).

Definition writes_timers (opcode : Z) : bool :=
  (Z.land opcode 0xF000 =? 0xF000) &&
  ((Z.land opcode 0x00FF =? 0x15) || (Z.land opcode 0x00FF =? 0x18)).

Definition writes_index (opcode : Z) : bool :=
  (Z.land opcode 0xF000 =? 0xA000) ||
  ((Z.land opcode 0xF000 =? 0xF000) &&
   ((Z.land opcode 0x00FF =? 0x1E) || (Z.land opcode 0x00FF =? 0x29))).

(** What the switch leaves alone when it stays within the arrays: the keys and the recorded image length
    always, a set draw flag always, and the memory, the call stack, the
    framebuffer, the timers and the index register unless the flag for
    them is set; it never prints the beep; and when it is left by
    [return] the machine is untouched. *)
Definition frame (m s g t i : bool) (emu : emulator) (f : flow) : Prop :=
  keys (flow_emu f) = keys emu /\
  rom_size (flow_emu f) = rom_size emu /\
  (draw_flag emu = true -> draw_flag (flow_emu f) = true) /\
  (m = false -> memory (flow_emu f) = memory emu) /\
  (s = false ->
   stack (flow_emu f) = stack emu /\ stack_ptr (flow_emu f) = stack_ptr emu) /\
  (g = false ->
   gfx (flow_emu f) = gfx emu /\ draw_flag (flow_emu f) = draw_flag emu) /\
  (t = false ->
   delay_timer (flow_emu f) = delay_timer emu /\
   sound_timer (flow_emu f) = sound_timer emu) /\
  (i = false -> index_register (flow_emu f) = index_register emu) /\
  match f with
  | Break _ out => ~ In Print_beep out
  | Return e => e = emu
  end.

(** The two machines agree on every field other than the registers and
    the framebuffer. *)
Definition agree_outside_display (emu e : emulator) : Prop :=
  memory e = memory emu /\ rom_size e = rom_size emu /\
  index_register e = index_register emu /\
  program_counter e = program_counter emu /\
  draw_flag e = draw_flag emu /\
  delay_timer e = delay_timer emu /\ sound_timer e = sound_timer emu /\
  stack e = stack emu /\ stack_ptr e = stack_ptr emu /\ keys e = keys emu.

(** 1200 (jump to 0x200) with the sound timer at 1 and the delay timer
    at 0. *)
Definition beep_machine : emulator := set_sound_timer 1 (boot [0x12; 0x00]).

(** The instruction words whose handler indexes an array with a value
    taken from the machine: 00EE and 2NNN (the stack pointer), DXYN (the
    index register and the sprite position), EX9E and EXA1 (register X
    as a key number), FX33, FX55 and FX65 (the index register). *)
Definition may_fault (opcode : Z) : bool :=
  (Z.land opcode 0xF000 =? 0x2000) || (Z.land opcode 0xF000 =? 0xD000) ||
  ((Z.land opcode 0xF000 =? 0x0000) && (Z.land opcode 0x00FF =? 0xEE)) ||
  ((Z.land opcode 0xF000 =? 0xE000) &&
   ((Z.land opcode 0x00FF =? 0x9E) || (Z.land opcode 0x00FF =? 0xA1))) ||
  ((Z.land opcode 0xF000 =? 0xF000) &&
   ((Z.land opcode 0x00FF =? 0x33) || (Z.land opcode 0x00FF =? 0x55) ||
    (Z.land opcode 0x00FF =? 0x65))).

(** 00EE at 0x200 with an empty call stack. *)
Definition underflow_machine : emulator := boot [0x00; 0xEE].

(** E09E at 0x200 with V0 = 16, one past the last key. *)
Definition key_index_machine : emulator := with_v0_v1 16 0 (boot [0xE0; 0x9E]).

(** F033 at 0x200 with V0 = 254 and the index register at 0x300. *)
Definition bcd_machine : emulator :=
  with_v0_v1 254 0 (set_index_register 0x300 (boot [0xF0; 0x33])).

(** F155 at 0x200 and F165 at 0x202, with V0 = 7, V1 = 9 and the index
    register at 0x300. *)
Definition dump_machine : emulator :=
  with_v0_v1 7 9 (set_index_register 0x300 (boot [0xF1; 0x55; 0xF1; 0x65])).

(** 8015 (V0 -= V1) with V0 = 1, V1 = 2. *)
Definition borrow_machine : emulator := with_v0_v1 0x01 0x02 (boot [0x80; 0x15]).

(** 8017 (V0 = V1 - V0) with V0 = 1, V1 = 2. *)
Definition reverse_machine : emulator := with_v0_v1 0x01 0x02 (boot [0x80; 0x17]).

(** 7001 (V0 += 1) with V0 = 0xFF and VF = 1. *)
Definition add_imm_machine : emulator :=
  let emu := with_v0_v1 0xFF 0 (boot [0x70; 0x01]) in
  set_registers (<[15%nat := 1]> (registers emu)) emu.

(** C0FF (V0 = random byte and 0xFF). *)
Definition random_machine : emulator := boot [0xC0; 0xFF].

(** 00E0 with two pixels lit. *)
Definition clear_machine : emulator :=
  let emu := boot [0x00; 0xE0] in
  set_gfx (<[100%nat := 0xFFFFFFFF]> (<[3%nat := 0xFFFFFFFF]> (gfx emu))) emu.

(** F029 at 0x200 with V0 = 0xA. *)
Definition font_machine : emulator := with_v0_v1 0xA 0 (boot [0xF0; 0x29]).

(** E09E at 0x200 with V0 = 4, the key that [q] is mapped to. *)
Definition key_skip_machine : emulator := with_v0_v1 4 0 (boot [0xE0; 0x9E]).

(** ** The cells a sprite toggles *)

(** [gfx[p] ^= 0xFFFFFFFF], for a cell [p] of the framebuffer. *)
Definition toggle (g : list Z) (p : Z) : list Z :=
  match load g p with
  | Some v => <[Z.to_nat p := u32 (Z.lxor v 0xFFFFFFFF)]> g
  | None => g
  end.

(** The cells that iterations [i], [i + 1], ..., [i + n - 1] of a loop
    toggle, in order, when iteration [j] toggles [cells j]. *)
Fixpoint range_cells (n : nat) (i : Z) (cells : Z -> list Z) : list Z :=
  match n with
  | O => []
  | S n' => cells i ++ range_cells n' (i + 1) cells
  end.

(** The cell of column [x] of sprite row [y], if its bit is set. *)
Definition bit_cells (vx vy row y x : Z) : list Z :=
  if u8 (Z.land row (Z.shiftr 0x80 x)) =? 0 then [] else [dest_pixel vx vy x y].

Definition row_cells (mem : list Z) (I vx vy y : Z) : list Z :=
  match load mem (I + y) with
  | Some row => range_cells 8 0 (bit_cells vx vy row y)
  | None => []
  end.

Definition sprite_cells (mem : list Z) (I vx vy height : Z) : list Z :=
  range_cells (Z.to_nat height) 0 (row_cells mem I vx vy).

(** The cells are cells of a framebuffer of [n] cells. *)
Definition cells_within (n : nat) (cells : list Z) : Prop :=
  Forall (fun p => 0 <= p < Z.of_nat n) cells.

(** D015 at 0x200 and again at 0x202, drawing the glyph of 0 at (2, 3). *)
Definition draw_twice_machine : emulator :=
  with_v0_v1 2 3 (set_index_register 0x50 (boot [0xD0; 0x15; 0xD0; 0x15])).

(** ** The host: [main]

    What [main] does that can be seen from outside: it prints the name of
    the image, the loader and the cycles print, and each turn of the loop
    hands the framebuffer to the renderer.  The choice of the image and of
    the delay between two turns, which change neither the machine nor
    what is shown, and the SDL handles are left out. *)
Inductive host_event :=
| Print_rom_name
| Emulator_output (e : event)
| Render (pixels : list Z).

(** What happens around the machine during a run: for every turn of the
    loop, the events [SDL_PollEvent] has pending and the value [rand ()]
    would return. *)
Definition script : Type := list (list sdl_event * Z).

(** The loop of [main].  [g__running] is tested at the head of a turn
    only.  The result is [None] when a cycle leaves an array; its first
    component is [true] when the script ends before the loop does. *)
Fixpoint main_loop (frames : script) (running : bool) (emu : emulator)
  : option (bool * emulator * list host_event) :=
  match frames with
  | [] => Some (running, emu, [])
  | (pending, rnd) :: rest =>
      if running then
        let st := handle_input running emu pending in
        '(e, out) ← emulation_cycle rnd st.2;
        '(running, emu, trace) ← main_loop rest st.1 e;
        Some (running, emu, map Emulator_output out ++ Render (gfx e) :: trace)
      else Some (false, emu, [])
  end.

(** [main]: the exit status (none when the script ends before the loop
    does), the machine at the end and what was printed and shown. *)
Definition main (file : rom_file) (frames : script)
  : option (option Z * emulator * list host_event) :=
  let loaded := load_rom (init zero_emulator) file in
  let start := Print_rom_name :: map Emulator_output loaded.2 in
  if loaded.1.1 then
    '(running, emu, trace) ← main_loop frames true loaded.1.2;
    Some (if (running : bool) then None else Some 0, emu, start ++ trace)
  else Some (Some 1, loaded.1.2, start).

(** Every pixel is black or white. *)
Definition monochrome (g : list Z) : bool :=
  forallb (fun v => (v =? 0) || (v =? 0xFFFFFFFF)) g.

(** An event that ends the loop: closing the window or pressing Escape. *)
Definition quits (ev : sdl_event) : bool :=
  match ev with
  | SDL_QUIT | SDL_KEYDOWN SDLK_ESCAPE => true
  | _ => false
  end.

(** A050 D015 1204: draw the glyph of 0 at (0, 0), then loop. *)
Definition glyph_rom : rom_file := Present [0xA0; 0x50; 0xD0; 0x15; 0x12; 0x04] 6.

(** A turn with a key press, a quiet turn, a turn in which the window is
    closed, and a turn
    that is never reached. *)
Definition glyph_script : script :=
  [([SDL_KEYDOWN SDLK_q], 0); ([], 0); ([SDL_QUIT; SDL_KEYDOWN SDLK_w], 0); ([], 0)].

(** F018 with V0 = 1. *)
Definition sound_machine : emulator := with_v0_v1 1 0 (boot [0xF0; 0x18]).

(** F01E with V0 = 0x10 and the index register at 0xFF8. *)
Definition add_index_machine : emulator :=
  with_v0_v1 0x10 0 (set_index_register 0xFF8 (boot [0xF0; 0x1E])).

(** 1FFF: a jump to the last byte of the memory. *)
Definition jump_out_machine : emulator := boot [0x1F; 0xFF].

(** * Properties *)

(** ** Arrays *)

Lemma load_lookup (a : list Z) (i : Z) : 0 <= i -> load a i = a !! Z.to_nat i.
Proof. intros Hi. unfold load. destruct (Z.ltb_spec i 0); [lia | reflexivity]. Qed.

Lemma load_Some (a : list Z) (i v : Z) :
  load a i = Some v -> 0 <= i < Z.of_nat (length a) /\ a !! Z.to_nat i = Some v.
Proof.
  unfold load. destruct (Z.ltb_spec i 0); [discriminate |].
  intros Hl. split; [| exact Hl].
  apply lookup_lt_Some in Hl. lia.
Qed.

Lemma store_in (a : list Z) (i v : Z) :
  0 <= i < Z.of_nat (length a) -> store a i v = Some (<[Z.to_nat i := v]> a).
Proof.
  intros Hi. unfold store.
  destruct (Z.leb_spec 0 i); [| lia].
  destruct (Z.ltb_spec i (Z.of_nat (length a))); [reflexivity | lia].
Qed.

Lemma store_Some (a : list Z) (i v : Z) (a' : list Z) :
  store a i v = Some a' ->
  0 <= i < Z.of_nat (length a) /\ a' = <[Z.to_nat i := v]> a.
Proof.
  unfold store.
  destruct (Z.leb_spec 0 i); [| discriminate].
  destruct (Z.ltb_spec i (Z.of_nat (length a))); [| discriminate].
  simpl. intros [= <-]. split; [lia | reflexivity].
Qed.

Lemma forallb_lookup (f : Z -> bool) (l : list Z) (i : nat) (x : Z) :
  forallb f l = true -> l !! i = Some x -> f x = true.
Proof.
  intros Hall Hl. rewrite forallb_forall in Hall. apply Hall.
  apply list_elem_of_In. eapply list_elem_of_lookup_2. exact Hl.
Qed.

Lemma in_range_spec (b z : Z) : in_range b z = true <-> 0 <= z < b.
Proof. unfold in_range. rewrite andb_true_iff, Z.leb_le, Z.ltb_lt. reflexivity. Qed.

(** ** Instruction fields *)

Lemma VX_range (opcode : Z) : 0 <= VX opcode < 16.
Proof.
  unfold VX. rewrite Z.shiftr_land.
  change (Z.shiftr 0x0F00 8) with (Z.ones 4).
  rewrite Z.land_ones by lia. apply Z.mod_pos_bound. lia.
Qed.

Lemma VY_range (opcode : Z) : 0 <= VY opcode < 16.
Proof.
  unfold VY. rewrite Z.shiftr_land.
  change (Z.shiftr 0x00F0 4) with (Z.ones 4).
  rewrite Z.land_ones by lia. apply Z.mod_pos_bound. lia.
Qed.

Lemma u8_small (z : Z) : 0 <= z < 256 -> u8 z = z.
Proof. intros H. unfold u8. apply Z.mod_small. exact H. Qed.

Lemma u16_small (z : Z) : 0 <= z < 65536 -> u16 z = z.
Proof. intros H. unfold u16. apply Z.mod_small. exact H. Qed.

(** ** Well-formed machines *)

Section WellFormed.
Variable emu : emulator.
Hypothesis Hwf : wf emu.

Lemma wf_registers_length : length (registers emu) = 16%nat.
Proof. unfold wf in Hwf. tauto. Qed.

Lemma wf_memory_length : length (memory emu) = 4096%nat.
Proof. unfold wf in Hwf. tauto. Qed.

Lemma wf_stack_length : length (stack emu) = 16%nat.
Proof. unfold wf in Hwf. tauto. Qed.

Lemma wf_keys_length : length (keys emu) = 16%nat.
Proof. unfold wf in Hwf. tauto. Qed.

Lemma wf_register (i : nat) (v : Z) : registers emu !! i = Some v -> 0 <= v < 256.
Proof.
  intros Hl. apply in_range_spec. eapply forallb_lookup; [| exact Hl].
  unfold wf in Hwf. tauto.
Qed.

Lemma wf_stack_ptr : 0 <= stack_ptr emu < 65536.
Proof. apply in_range_spec. unfold wf in Hwf. tauto. Qed.

Lemma wf_register_some (i : Z) : 0 <= i < 16 -> exists v, registers emu !! Z.to_nat i = Some v.
Proof.
  intros Hi. apply lookup_lt_is_Some_2. rewrite wf_registers_length. lia.
Qed.

(** A fetch that succeeds was within the memory. *)
Lemma fetch_bounds (opcode : Z) :
  fetch emu = Some opcode ->
  0 <= program_counter emu /\ program_counter emu + 1 < 4096.
Proof.
  unfold fetch. intros Hf.
  destruct (load (memory emu) (program_counter emu)) as [hi |] eqn:Hhi; [| discriminate].
  destruct (load (memory emu) (program_counter emu + 1)) as [lo |] eqn:Hlo; [| discriminate].
  apply load_Some in Hhi, Hlo. rewrite wf_memory_length in *. lia.
Qed.

Lemma fetch_advance (opcode : Z) :
  fetch emu = Some opcode -> u16 (program_counter emu + 2) = program_counter emu + 2.
Proof. intros Hf. apply fetch_bounds in Hf. apply u16_small. lia. Qed.
End WellFormed.

(** ** The timers *)

Lemma tick_timers_frame (emu : emulator) :
  let emu' := (tick_timers emu).1 in
  memory emu' = memory emu /\ rom_size emu' = rom_size emu /\
  registers emu' = registers emu /\ index_register emu' = index_register emu /\
  program_counter emu' = program_counter emu /\ gfx emu' = gfx emu /\
  draw_flag emu' = draw_flag emu /\ stack emu' = stack emu /\
  stack_ptr emu' = stack_ptr emu /\ keys emu' = keys emu.
Proof.
  unfold tick_timers.
  destruct (delay_timer emu >? 0); simpl;
    destruct (sound_timer emu >? 0); simpl; repeat split; reflexivity.
Qed.

(** A cycle whose instruction leaves the switch by [break]. *)
Lemma cycle_break (rnd : Z) (emu : emulator) (opcode : Z) (e : emulator) (out : list event) :
  fetch emu = Some opcode ->
  execute rnd opcode emu = Some (Break e out) ->
  emulation_cycle rnd emu = Some ((tick_timers e).1, out ++ (tick_timers e).2).
Proof.
  intros Hf He. unfold emulation_cycle. rewrite Hf. simpl. rewrite He. simpl.
  destruct (tick_timers e). reflexivity.
Qed.

Lemma cycle_return (rnd : Z) (emu : emulator) (opcode : Z) (e : emulator) :
  fetch emu = Some opcode ->
  execute rnd opcode emu = Some (Return e) ->
  emulation_cycle rnd emu = Some (e, []).
Proof.
  intros Hf He. unfold emulation_cycle. rewrite Hf. simpl. rewrite He. reflexivity.
Qed.

(** Discharges [wf] on a concrete machine by evaluation. *)
Ltac wf_by_evaluation := unfold wf; repeat apply conj; vm_compute; reflexivity.

(** ** Register-to-register add (8XY4) *)

(** What 8XY4 leaves in the register file, for X other than 0xF. *)
Lemma op_add_registers (opcode : Z) (emu : emulator) (vx vy : Z) :
  length (registers emu) = 16%nat ->
  VX opcode <> 0xF ->
  registers emu !! Z.to_nat (VX opcode) = Some vx ->
  registers emu !! Z.to_nat (VY opcode) = Some vy ->
  op_add opcode emu =
    Some (Break (advance 2 (set_registers
      (<[Z.to_nat (VX opcode) := u8 (vx + vy)]>
         (<[15%nat := if vy >? vx then 1 else 0]> (registers emu))) emu)) []).
Proof.
  intros Hlen HX Hvx Hvy. pose proof (VX_range opcode) as HXr.
  pose proof (VY_range opcode) as HYr.
  unfold op_add. fold (VX opcode). fold (VY opcode).
  rewrite !load_lookup by lia. rewrite Hvx, Hvy. simpl.
  rewrite store_in by (rewrite Hlen; lia). simpl.
  rewrite load_lookup by lia.
  rewrite list_lookup_insert_ne by lia. rewrite Hvx. simpl.
  rewrite store_in by (rewrite length_insert, Hlen; lia). reflexivity.
Qed.

(** C1.  Register-to-register add 8XY4 (X other than 0xF) stores
    (VX + VY) mod 256 in register X and sets register 0xF to 1 exactly when
    VY > VX, not when the sum carries: with VX = 0xFF and VY = 0x01 the
    result is VX = 0x00 and flag 0, although the sum carries; with
    VX = 0x01 and VY = 0x01 the result is 0x02 and flag 0. *)
Theorem add_flag_compares_operands (rnd : Z) (emu : emulator) (opcode vx vy : Z) :
  wf emu ->
  fetch emu = Some opcode ->
  Z.land opcode 0xF000 = 0x8000 -> Z.land opcode 0x000F = 0x4 ->
  VX opcode <> 0xF ->
  registers emu !! Z.to_nat (VX opcode) = Some vx ->
  registers emu !! Z.to_nat (VY opcode) = Some vy ->
  exists emu' out,
    emulation_cycle rnd emu = Some (emu', out) /\
    registers emu' !! Z.to_nat (VX opcode) = Some ((vx + vy) mod 256) /\
    registers emu' !! 15%nat = Some (if vy >? vx then 1 else 0) /\
    (vx = 0xFF -> vy = 0x01 ->
     registers emu' !! Z.to_nat (VX opcode) = Some 0x00 /\
     registers emu' !! 15%nat = Some 0) /\
    (vx = 0x01 -> vy = 0x01 ->
     registers emu' !! Z.to_nat (VX opcode) = Some 0x02 /\
     registers emu' !! 15%nat = Some 0).
Proof.
  intros Hwf Hf Hc Hs HX Hvx Hvy.
  pose proof (VX_range opcode) as HXr.
  pose proof (wf_registers_length emu Hwf) as Hlen.
  assert (He : execute rnd opcode emu = op_add opcode emu).
  { unfold execute. rewrite Hc, Hs. reflexivity. }
  rewrite (op_add_registers opcode emu vx vy Hlen HX Hvx Hvy) in He.
  eexists _, _. split; [exact (cycle_break _ _ _ _ _ Hf He) |].
  destruct (tick_timers_frame
    (advance 2 (set_registers
      (<[Z.to_nat (VX opcode) := u8 (vx + vy)]>
         (<[15%nat := if vy >? vx then 1 else 0]> (registers emu))) emu)))
    as (_ & _ & Hr & _).
  rewrite Hr. simpl.
  assert (HrX : <[Z.to_nat (VX opcode) := u8 (vx + vy)]>
                  (<[15%nat := if vy >? vx then 1 else 0]> (registers emu))
                  !! Z.to_nat (VX opcode) = Some ((vx + vy) mod 256)).
  { apply list_lookup_insert_eq. rewrite length_insert, Hlen. lia. }
  assert (HrF : <[Z.to_nat (VX opcode) := u8 (vx + vy)]>
                  (<[15%nat := if vy >? vx then 1 else 0]> (registers emu))
                  !! 15%nat = Some (if vy >? vx then 1 else 0)).
  { rewrite list_lookup_insert_ne by lia.
    apply list_lookup_insert_eq. rewrite Hlen. lia. }
  repeat split.
  - exact HrX.
  - exact HrF.
  - rewrite HrX. subst vx vy. reflexivity.
  - rewrite HrF. subst vx vy. reflexivity.
  - rewrite HrX. subst vx vy. reflexivity.
  - rewrite HrF. subst vx vy. reflexivity.
Qed.

Lemma add_flag_compares_operands_witness :
  exists emu' out,
    emulation_cycle 0 add_carry_machine = Some (emu', out) /\
    registers emu' !! 0%nat = Some 0x00 /\
    registers emu' !! 15%nat = Some 0.
Proof.
  destruct (add_flag_compares_operands 0 add_carry_machine 0x8014 0xFF 0x01)
    as (emu' & out & Hc & _ & _ & Hcarry & _).
  - wf_by_evaluation.
  - vm_compute; reflexivity.
  - reflexivity.
  - reflexivity.
  - vm_compute; discriminate.
  - vm_compute; reflexivity.
  - vm_compute; reflexivity.
  - exists emu', out. split; [exact Hc |].
    exact (Hcarry eq_refl eq_refl).
Defined.

(** ** Unknown secondary codes *)

(** Case analysis on the scrutinee of a switch over integer literals. *)
Ltac switch_cases :=
  repeat match goal with
         | |- context [match ?z with Z0 => _ | Zpos _ => _ | Zneg _ => _ end] =>
             is_var z; destruct z
         | |- context [match ?p with xI _ => _ | xO _ => _ | xH => _ end] =>
             is_var p; destruct p
         end.

Lemma switch_unknown (c s s8 : Z) (A : Type) (k : Z -> A)
    (a0 a1 b0 b1 b2 b3 b4 b5 b6 b7 b8 e0 e1 f0 f1 f2 f3 f4 f5 f6 f7 f8 : A)
    (o1 o2 o3 o4 o5 o6 o7 o9 oa ob oc od : A) :
  polymorphic c &&
    negb (existsb (Z.eqb (if c =? 0x8000 then s8 else s)) (known_codes c)) = true ->
  match c with
  | 0x0000 => match s with 0x00E0 => a0 | 0x00EE => a1 | _ => k 0x0000 end
  | 0x1000 => o1 | 0x2000 => o2 | 0x3000 => o3 | 0x4000 => o4
  | 0x5000 => o5 | 0x6000 => o6 | 0x7000 => o7
  | 0x8000 =>
      match s8 with
      | 0x0000 => b0 | 0x0001 => b1 | 0x0002 => b2 | 0x0003 => b3 | 0x0004 => b4
      | 0x0005 => b5 | 0x0006 => b6 | 0x0007 => b7 | 0x000E => b8
      | _ => k 0x8000
      end
  | 0x9000 => o9 | 0xA000 => oa | 0xB000 => ob | 0xC000 => oc | 0xD000 => od
  | 0xE000 => match s with 0x009E => e0 | 0x00A1 => e1 | _ => k 0xE000 end
  | 0xF000 =>
      match s with
      | 0x0007 => f0 | 0x000A => f1 | 0x0015 => f2 | 0x0018 => f3 | 0x001E => f4
      | 0x0029 => f5 | 0x0033 => f6 | 0x0055 => f7 | 0x0065 => f8
      | _ => k 0xF000
      end
  | _ => k 0
  end = k c.
Proof.
  intros H. apply andb_true_iff in H as [Hp Hk].
  unfold polymorphic in Hp. simpl in Hp.
  rewrite !orb_true_iff in Hp.
  destruct Hp as [Hp | [Hp | [Hp | [Hp | Hp]]]]; try discriminate Hp;
    apply Z.eqb_eq in Hp; subst c; cbn [Z.eqb Pos.eqb known_codes] in Hk;
    cbv iota beta; switch_cases; try reflexivity; simpl in Hk; discriminate Hk.
Qed.

Lemma execute_unknown (rnd : Z) (opcode : Z) (emu : emulator) :
  unknown_instruction opcode = true ->
  execute rnd opcode emu = unknown (Z.land opcode 0xF000) opcode emu.
Proof.
  intros H. unfold execute.
  apply (switch_unknown (Z.land opcode 0xF000) (Z.land opcode 0x00FF)
           (Z.land opcode 0x000F) _ (fun c => unknown c opcode emu)).
  exact H.
Qed.

(** C2, as the code has it.  For an instruction word of a polymorphic class
    (0x0, 0x8, 0xE, 0xF) whose secondary code matches no case, the cycle
    reports the unknown opcode and leaves the program counter where it
    was: the machine after the cycle is the machine before it with the
    timers ticked, and every field other than the two timers is unchanged. *)
Theorem unknown_instruction_keeps_pc (rnd : Z) (emu : emulator) (opcode : Z) :
  fetch emu = Some opcode ->
  unknown_instruction opcode = true ->
  exists emu' out,
    emulation_cycle rnd emu = Some (emu', out) /\
    emu' = (tick_timers emu).1 /\
    out = Print_unknown_opcode (Z.land opcode 0xF000) opcode :: (tick_timers emu).2 /\
    program_counter emu' = program_counter emu /\
    memory emu' = memory emu /\ rom_size emu' = rom_size emu /\
    registers emu' = registers emu /\ index_register emu' = index_register emu /\
    gfx emu' = gfx emu /\ draw_flag emu' = draw_flag emu /\
    stack emu' = stack emu /\ stack_ptr emu' = stack_ptr emu /\
    keys emu' = keys emu.
Proof.
  intros Hf Hu.
  pose proof (execute_unknown rnd opcode emu Hu) as He. unfold unknown in He.
  exists (tick_timers emu).1, (Print_unknown_opcode (Z.land opcode 0xF000) opcode
                               :: (tick_timers emu).2).
  split; [exact (cycle_break _ _ _ _ _ Hf He) |].
  pose proof (tick_timers_frame emu) as Hfr. simpl in Hfr. tauto.
Qed.

Lemma unknown_instruction_keeps_pc_witness :
  exists emu' out,
    emulation_cycle 0 unknown_machine = Some (emu', out) /\
    program_counter emu' = 0x200 /\
    out = [Print_unknown_opcode 0 0].
Proof.
  destruct (unknown_instruction_keeps_pc 0 unknown_machine 0)
    as (emu' & out & Hc & _ & Hout & Hpc & _).
  - vm_compute; reflexivity.
  - vm_compute; reflexivity.
  - exists emu', out. split; [exact Hc |]. split; [exact Hpc | exact Hout].
Defined.

(** C2, counterexample.  The word 0x0000 is of class 0x0 with an unknown
    secondary code; the cycle that executes it at 0x200 does not end with
    the program counter advanced by 2. *)
Lemma unknown_instruction_no_advance :
  fetch unknown_machine = Some 0 /\
  unknown_instruction 0 = true /\
  ~ (exists emu' out,
       emulation_cycle 0 unknown_machine = Some (emu', out) /\
       program_counter emu' = program_counter unknown_machine + 2).
Proof.
  split; [vm_compute; reflexivity |].
  split; [vm_compute; reflexivity |].
  intros (emu' & out & Hc & Hpc).
  vm_compute in Hc. injection Hc as <- _. vm_compute in Hpc. discriminate Hpc.
Qed.

(** ** Draw-sprite (DXYN) *)

(** The clamp of DXYN stops at column 64 and row 32, one past the grid. *)
Lemma dest_pixel_clamp (vx vy x y : Z) :
  dest_pixel vx vy x y = Z.min (vy + y) 32 * 64 + Z.min (vx + x) 64.
Proof.
  unfold dest_pixel.
  destruct (Z.gtb_spec (vx + x) 64); destruct (Z.gtb_spec (vy + y) 32); lia.
Qed.

(** C3.  The clamp of DXYN is [> 64 ? 64] and [> 32 ? 32], so a set sprite
    bit can land on column 64 or row 32, one past the last column 63 and
    the last row 31.  With VX = 0, VY = 31 and a two-row sprite whose rows
    are 0x80, the second row lands on cell 32 * 64 + 0 = 2048, outside the
    2048 cells of the framebuffer, and the cycle is an out-of-bounds
    access.  With VX = 60, VY = 0 the fifth column lands on column 64. *)
Theorem draw_clamp_leaves_grid :
  (forall vx vy x y : Z,
     dest_pixel vx vy x y = Z.min (vy + y) 32 * 64 + Z.min (vx + x) 64) /\
  fetch clamp_machine = Some 0xD012 /\
  registers clamp_machine !! 0%nat = Some 0 /\
  registers clamp_machine !! 1%nat = Some 31 /\
  load (memory clamp_machine) (index_register clamp_machine + 1) = Some 0x80 /\
  dest_pixel 0 31 0 1 = 2048 /\
  length (gfx clamp_machine) = 2048%nat /\
  load (gfx clamp_machine) (dest_pixel 0 31 0 1) = None /\
  emulation_cycle 0 clamp_machine = None /\
  dest_pixel 60 0 4 0 = 0 * 64 + 64.
Proof.
  split; [exact dest_pixel_clamp |].
  repeat apply conj; vm_compute; reflexivity.
Qed.

(** C4.  DXYN computes VX mod 64 and VY mod 32 and never uses them: the
    loops add their counters to the raw register values.  With VX = 70,
    VY = 0 and the one-row sprite 0x80, the only cell toggled is cell 64
    (70 clamped to column 64 of row 0); cell 6, where the start
    (70 mod 64, 0 mod 32) would put the bit, is untouched. *)
Theorem draw_start_not_wrapped :
  fetch wrap_machine = Some 0xD011 /\
  registers wrap_machine !! 0%nat = Some 70 /\
  registers wrap_machine !! 1%nat = Some 0 /\
  gfx wrap_machine = replicate 2048 0 /\
  dest_pixel (70 mod 64) (0 mod 32) 0 0 = 6 /\
  exists emu',
    emulation_cycle 0 wrap_machine = Some (emu', []) /\
    gfx emu' = <[64%nat := 0xFFFFFFFF]> (replicate 2048 0) /\
    gfx emu' !! 6%nat = Some 0.
Proof.
  repeat apply conj; try (vm_compute; reflexivity).
  eexists. repeat apply conj; vm_compute; reflexivity.
Qed.

(** ** Parity of the program counter *)

Lemma even_u16 (z : Z) : Z.even (u16 z) = Z.even z.
Proof.
  unfold u16. rewrite !Zeven_mod.
  rewrite (Z.mod_mod_divide z 65536 2); [reflexivity |].
  exists 32768. reflexivity.
Qed.

Lemma even_advance (n : Z) (emu : emulator) :
  Z.even n = true ->
  Z.even (program_counter (advance n emu)) = Z.even (program_counter emu).
Proof.
  intros Hn. unfold advance. simpl. rewrite even_u16, Z.even_add, Hn.
  destruct (Z.even (program_counter emu)); reflexivity.
Qed.

Lemma next_parity (emu0 emu : emulator) (f : flow) :
  stack emu = stack emu0 -> program_counter emu = program_counter emu0 ->
  next emu = Some f -> keeps_parity emu0 f.
Proof.
  intros Hs Hp [= <-]. split; simpl; [exact Hs |].
  rewrite even_u16, Z.even_add, Hp. simpl.
  destruct (Z.even (program_counter emu0)); reflexivity.
Qed.

Lemma skip_if_parity (c : bool) (emu : emulator) (f : flow) :
  skip_if c emu = Some f -> keeps_parity emu f.
Proof.
  intros [= <-]. split; [reflexivity |].
  apply even_advance. destruct c; reflexivity.
Qed.

Lemma unknown_parity (class opcode : Z) (emu : emulator) (f : flow) :
  unknown class opcode emu = Some f -> keeps_parity emu f.
Proof. intros [= <-]. split; reflexivity. Qed.

Lemma for_range_O {S : Type} (i : Z) (body : Z -> S -> option S) (s : S) :
  for_range 0 i body s = Some s.
Proof. reflexivity. Qed.

Lemma for_range_S {S : Type} (n : nat) (i : Z) (body : Z -> S -> option S) (s : S) :
  for_range (Datatypes.S n) i body s = (s' ← body i s; for_range n (i + 1) body s').
Proof. reflexivity. Qed.

Lemma for_range_preserves {S : Type} (P : S -> Prop) (body : Z -> S -> option S) :
  (forall i s s', P s -> body i s = Some s' -> P s') ->
  forall n i s s', P s -> for_range n i body s = Some s' -> P s'.
Proof.
  intros Hbody n. induction n as [| n IH]; intros i s s' HP Hr.
  - rewrite for_range_O in Hr. injection Hr as <-. exact HP.
  - rewrite for_range_S in Hr.
    destruct (body i s) as [s1 |] eqn:Hb; [| discriminate]. simpl in Hr.
    eapply IH; [| exact Hr]. eapply Hbody; eassumption.
Qed.

(** Takes apart a handler that ends in [next] or [skip_if] after a
    sequence of loads and stores. *)
Ltac handler_parity :=
  let H := fresh "H" in
  intros H; simplify_option_eq;
  first [ eapply skip_if_parity; eassumption
        | eapply next_parity; [| | eassumption]; reflexivity ].

Lemma op_clear_screen_parity emu f : op_clear_screen emu = Some f -> keeps_parity emu f.
Proof. unfold op_clear_screen. handler_parity. Qed.

Lemma op_skip_eq_imm_parity opcode emu f :
  op_skip_eq_imm opcode emu = Some f -> keeps_parity emu f.
Proof. unfold op_skip_eq_imm. handler_parity. Qed.

Lemma op_skip_ne_imm_parity opcode emu f :
  op_skip_ne_imm opcode emu = Some f -> keeps_parity emu f.
Proof. unfold op_skip_ne_imm. handler_parity. Qed.

Lemma op_skip_eq_parity opcode emu f : op_skip_eq opcode emu = Some f -> keeps_parity emu f.
Proof. unfold op_skip_eq. handler_parity. Qed.

Lemma op_load_imm_parity opcode emu f : op_load_imm opcode emu = Some f -> keeps_parity emu f.
Proof. unfold op_load_imm. handler_parity. Qed.

Lemma op_add_imm_parity opcode emu f : op_add_imm opcode emu = Some f -> keeps_parity emu f.
Proof. unfold op_add_imm. handler_parity. Qed.

Lemma op_assign_parity opcode emu f : op_assign opcode emu = Some f -> keeps_parity emu f.
Proof. unfold op_assign. handler_parity. Qed.

Lemma op_bitwise_parity op opcode emu f :
  op_bitwise op opcode emu = Some f -> keeps_parity emu f.
Proof. unfold op_bitwise. handler_parity. Qed.

Lemma op_add_parity opcode emu f : op_add opcode emu = Some f -> keeps_parity emu f.
Proof. unfold op_add. handler_parity. Qed.

Lemma op_sub_parity opcode emu f : op_sub opcode emu = Some f -> keeps_parity emu f.
Proof. unfold op_sub. handler_parity. Qed.

Lemma op_shift_right_parity opcode emu f :
  op_shift_right opcode emu = Some f -> keeps_parity emu f.
Proof. unfold op_shift_right. handler_parity. Qed.

Lemma op_sub_reverse_parity opcode emu f :
  op_sub_reverse opcode emu = Some f -> keeps_parity emu f.
Proof. unfold op_sub_reverse. handler_parity. Qed.

Lemma op_shift_left_parity opcode emu f :
  op_shift_left opcode emu = Some f -> keeps_parity emu f.
Proof. unfold op_shift_left. handler_parity. Qed.

Lemma op_skip_ne_parity opcode emu f : op_skip_ne opcode emu = Some f -> keeps_parity emu f.
Proof. unfold op_skip_ne. handler_parity. Qed.

Lemma op_set_index_parity opcode emu f : op_set_index opcode emu = Some f -> keeps_parity emu f.
Proof. unfold op_set_index. handler_parity. Qed.

Lemma op_random_parity rnd opcode emu f :
  op_random rnd opcode emu = Some f -> keeps_parity emu f.
Proof. unfold op_random. handler_parity. Qed.

Lemma op_skip_key_parity opcode emu f : op_skip_key opcode emu = Some f -> keeps_parity emu f.
Proof. unfold op_skip_key. handler_parity. Qed.

Lemma op_skip_not_key_parity opcode emu f :
  op_skip_not_key opcode emu = Some f -> keeps_parity emu f.
Proof. unfold op_skip_not_key. handler_parity. Qed.

Lemma op_get_delay_parity opcode emu f : op_get_delay opcode emu = Some f -> keeps_parity emu f.
Proof. unfold op_get_delay. handler_parity. Qed.

Lemma op_set_delay_parity opcode emu f : op_set_delay opcode emu = Some f -> keeps_parity emu f.
Proof. unfold op_set_delay. handler_parity. Qed.

Lemma op_set_sound_parity opcode emu f : op_set_sound opcode emu = Some f -> keeps_parity emu f.
Proof. unfold op_set_sound. handler_parity. Qed.

Lemma op_add_index_parity opcode emu f : op_add_index opcode emu = Some f -> keeps_parity emu f.
Proof. unfold op_add_index. handler_parity. Qed.

Lemma op_font_parity opcode emu f : op_font opcode emu = Some f -> keeps_parity emu f.
Proof. unfold op_font. handler_parity. Qed.

Lemma op_bcd_parity opcode emu f : op_bcd opcode emu = Some f -> keeps_parity emu f.
Proof. unfold op_bcd. handler_parity. Qed.

Lemma op_dump_parity opcode emu f : op_dump opcode emu = Some f -> keeps_parity emu f.
Proof. unfold op_dump. handler_parity. Qed.

Lemma op_fill_parity opcode emu f : op_fill opcode emu = Some f -> keeps_parity emu f.
Proof. unfold op_fill. handler_parity. Qed.

Lemma draw_bit_control vx vy row y x emu emu' :
  draw_bit vx vy row y x emu = Some emu' ->
  stack emu' = stack emu /\ program_counter emu' = program_counter emu.
Proof.
  unfold draw_bit.
  destruct (u8 (Z.land row (Z.shiftr 0x80 x)) =? 0).
  - intros [= <-]. split; reflexivity.
  - intros H. simplify_option_eq. split; reflexivity.
Qed.

Lemma draw_row_control vx vy y emu emu' :
  draw_row vx vy y emu = Some emu' ->
  stack emu' = stack emu /\ program_counter emu' = program_counter emu.
Proof.
  unfold draw_row. intros H.
  destruct (load (memory emu) (index_register emu + y)) as [row |]; [| discriminate].
  simpl in H. revert H.
  apply (for_range_preserves
           (fun e => stack e = stack emu /\ program_counter e = program_counter emu)).
  - intros i s s' [Hs Hp] Hb. apply draw_bit_control in Hb as [Hs' Hp']. split; congruence.
  - split; reflexivity.
Qed.

Lemma op_draw_parity opcode emu f : op_draw opcode emu = Some f -> keeps_parity emu f.
Proof.
  unfold op_draw. intros H. simplify_option_eq.
  match goal with
  | Hl : for_range _ _ _ ?e0 = Some ?e1 |- _ =>
      assert (Hc : stack e1 = stack emu /\ program_counter e1 = program_counter emu)
  end.
  { revert Heqo2.
    apply (for_range_preserves
             (fun e => stack e = stack emu /\ program_counter e = program_counter emu)).
    - intros i s s' [Hs Hp] Hb. apply draw_row_control in Hb as [Hs' Hp']. split; congruence.
    - split; reflexivity. }
  destruct Hc as [Hs Hp].
  eapply next_parity; [| | eassumption]; simpl; assumption.
Qed.

Lemma scan_key_control opcode i s s' :
  scan_key opcode i s = Some s' ->
  stack s'.1 = stack s.1 /\ program_counter s'.1 = program_counter s.1.
Proof.
  unfold scan_key. intros H.
  destruct (load (keys s.1) i) as [k |]; [| discriminate]. simpl in H.
  destruct (k =? 0).
  - injection H as <-. split; reflexivity.
  - simplify_option_eq. split; reflexivity.
Qed.

Lemma op_wait_key_parity opcode emu f : op_wait_key opcode emu = Some f -> keeps_parity emu f.
Proof.
  unfold op_wait_key. intros H.
  destruct (for_range 16 0 (scan_key opcode) (emu, false)) as [s |] eqn:Hl; [| discriminate].
  simpl in H.
  assert (Hc : stack s.1 = stack emu /\ program_counter s.1 = program_counter emu).
  { revert Hl.
    apply (for_range_preserves
             (fun s => stack s.1 = stack emu /\ program_counter s.1 = program_counter emu)).
    - intros i s0 s' [Hs Hp] Hb. apply scan_key_control in Hb as [Hs' Hp']. split; congruence.
    - split; reflexivity. }
  destruct Hc as [Hs Hp].
  destruct s.2; injection H as <-; split; simpl; try assumption.
  - rewrite even_u16, Z.even_add, Hp. simpl.
    destruct (Z.even (program_counter emu)); reflexivity.
  - rewrite Hp. reflexivity.
Qed.

Lemma keeps_parity_aligned emu f : keeps_parity emu f -> aligned emu -> aligned (flow_emu f).
Proof. intros [Hs Hp] [Hpc Hst]. split; [rewrite Hp; exact Hpc | rewrite Hs; exact Hst]. Qed.

Lemma op_return_aligned emu f : aligned emu -> op_return emu = Some f -> aligned (flow_emu f).
Proof.
  intros [Hpc Hst] H. unfold op_return in H.
  destruct (load (stack emu) (u16 (stack_ptr emu - 1))) as [address |] eqn:Hl; [| discriminate].
  injection H as <-. apply load_Some in Hl as [_ Hl].
  split; simpl; [| exact Hst].
  rewrite even_u16, Z.even_add.
  rewrite Forall_lookup in Hst. rewrite (Hst _ _ Hl). reflexivity.
Qed.

Lemma op_jump_aligned opcode emu f :
  Z.odd (Z.land opcode 0x0FFF) = false ->
  aligned emu -> op_jump opcode emu = Some f -> aligned (flow_emu f).
Proof.
  intros Hodd [Hpc Hst] [= <-]. split; simpl; [| exact Hst].
  rewrite <- Z.negb_odd, Hodd. reflexivity.
Qed.

Lemma op_call_aligned opcode emu f :
  Z.odd (Z.land opcode 0x0FFF) = false ->
  aligned emu -> op_call opcode emu = Some f -> aligned (flow_emu f).
Proof.
  intros Hodd [Hpc Hst] H. unfold op_call in H.
  destruct (store (stack emu) (stack_ptr emu) (program_counter emu)) as [s |] eqn:Hs;
    [| discriminate].
  injection H as <-. apply store_Some in Hs as [_ ->].
  split; simpl.
  - rewrite <- Z.negb_odd, Hodd. reflexivity.
  - apply Forall_insert; assumption.
Qed.

Lemma op_jump_offset_aligned opcode emu f :
  match load (registers emu) 0 with
  | Some v0 => Z.odd (Z.land opcode 0x0FFF + v0)
  | None => false
  end = false ->
  aligned emu -> op_jump_offset opcode emu = Some f -> aligned (flow_emu f).
Proof.
  intros Hodd [Hpc Hst] H. unfold op_jump_offset in H.
  destruct (load (registers emu) 0) as [v0 |]; [| discriminate].
  injection H as <-. split; simpl; [| exact Hst].
  rewrite even_u16, <- Z.negb_odd, Hodd. reflexivity.
Qed.

Create HintDb chip8_parity.

#[local] Hint Resolve
  op_clear_screen_parity op_skip_eq_imm_parity op_skip_ne_imm_parity op_skip_eq_parity
  op_load_imm_parity op_add_imm_parity op_assign_parity op_bitwise_parity op_add_parity
  op_sub_parity op_shift_right_parity op_sub_reverse_parity op_shift_left_parity
  op_skip_ne_parity op_set_index_parity op_random_parity op_draw_parity op_skip_key_parity
  op_skip_not_key_parity op_get_delay_parity op_wait_key_parity op_set_delay_parity
  op_set_sound_parity op_add_index_parity op_font_parity op_bcd_parity op_dump_parity
  op_fill_parity unknown_parity : chip8_parity.

(** The switch keeps the machine aligned unless the word has an odd target. *)
Lemma execute_aligned rnd opcode emu f :
  aligned emu -> odd_target opcode emu = false ->
  execute rnd opcode emu = Some f -> aligned (flow_emu f).
Proof.
  intros Ha. unfold odd_target, execute.
  generalize (Z.land opcode 0xF000) (Z.land opcode 0x00FF) (Z.land opcode 0x000F).
  intros c s s8. switch_cases; intros Hodd He;
    first [ eapply keeps_parity_aligned; [eapply unknown_parity; exact He | exact Ha]
          | eapply keeps_parity_aligned; [solve [eauto with chip8_parity] | exact Ha]
          | eapply op_return_aligned; eassumption
          | eapply op_jump_aligned; eassumption
          | eapply op_call_aligned; eassumption
          | eapply op_jump_offset_aligned; eassumption ].
Qed.

Lemma tick_timers_aligned emu : aligned emu -> aligned (tick_timers emu).1.
Proof.
  intros [Hpc Hst]. destruct (tick_timers_frame emu) as (_ & _ & _ & _ & Hp & _ & _ & Hs & _).
  split; [rewrite Hp; exact Hpc | rewrite Hs; exact Hst].
Qed.

Lemma cycle_aligned rnd emu opcode emu' out :
  aligned emu -> fetch emu = Some opcode -> odd_target opcode emu = false ->
  emulation_cycle rnd emu = Some (emu', out) -> aligned emu'.
Proof.
  intros Ha Hf Hodd Hc. unfold emulation_cycle in Hc. rewrite Hf in Hc. simpl in Hc.
  destruct (execute rnd opcode emu) as [f |] eqn:He; [| discriminate]. simpl in Hc.
  pose proof (execute_aligned rnd opcode emu f Ha Hodd He) as Hf'.
  destruct f as [e o | e]; simpl in Hf'.
  - pose proof (tick_timers_aligned e Hf') as Ht.
    destruct (tick_timers e) as [e1 beep]. injection Hc as <- _. exact Ht.
  - injection Hc as <- _. exact Hf'.
Qed.

Lemma handle_event_control st ev :
  program_counter (handle_event st ev).2 = program_counter st.2 /\
  stack (handle_event st ev).2 = stack st.2.
Proof.
  destruct st as [running emu]. destruct ev as [| code | code |]; simpl;
    try (split; reflexivity).
  - destruct code; simpl; split; reflexivity.
  - destruct (keypad code); simpl; split; reflexivity.
Qed.

Lemma handle_input_control running emu pending :
  program_counter (handle_input running emu pending).2 = program_counter emu /\
  stack (handle_input running emu pending).2 = stack emu.
Proof.
  unfold handle_input.
  change emu with ((running, emu).2) at 2 4.
  generalize (running, emu). induction pending as [| ev pending IH]; intros st; simpl.
  - split; reflexivity.
  - destruct (IH (handle_event st ev)) as [Hp Hs].
    destruct (handle_event_control st ev) as [Hp' Hs'].
    split; congruence.
Qed.

Lemma load_rom_control emu file ok emu' out :
  load_rom emu file = (ok, emu', out) ->
  program_counter emu' = program_counter emu /\ stack emu' = stack emu.
Proof.
  unfold load_rom. destruct file as [| contents delivered].
  - intros [= _ <- _]. split; reflexivity.
  - destruct (Z.of_nat (length contents) <=? 0xFFF - 0x200).
    + destruct (length (fread contents delivered (length contents)) =? length contents)%nat;
        intros [= _ <- _]; split; reflexivity.
    + intros [= _ <- _]. split; reflexivity.
Qed.

Lemma loaded_aligned file emu out :
  load_rom (init zero_emulator) file = (true, emu, out) -> aligned emu.
Proof.
  intros H. apply load_rom_control in H as [Hp Hs]. split.
  - rewrite Hp. reflexivity.
  - rewrite Hs. simpl. repeat constructor.
Qed.

Lemma reachable_aligned_is_aligned emu : reachable_aligned emu -> aligned emu.
Proof.
  induction 1 as [file emu out Hl | running emu pending _ IH
                 | rnd emu opcode emu' out _ IH Hf Hodd Hc].
  - eapply loaded_aligned. exact Hl.
  - destruct IH as [Hpc Hst].
    destruct (handle_input_control running emu pending) as [Hp Hs].
    split; [rewrite Hp; exact Hpc | rewrite Hs; exact Hst].
  - eapply cycle_aligned; eassumption.
Qed.

(** C8, as the code has it.  The program counter is initialised to 0x200,
    and it is even in every state the host loop reaches from a loaded
    program by key events and by cycles each of which stays within the
    arrays of the machine (no read or write outside an array) and none of
    which executes a jump or call to an odd address (1NNN, 2NNN with NNN
    odd) or a jump with offset to an odd address (BNNN with NNN + V0
    odd). *)
Theorem pc_even_without_odd_targets :
  program_counter (init zero_emulator) = 0x200 /\
  forall emu, reachable_aligned emu -> Z.even (program_counter emu) = true.
Proof.
  split; [reflexivity |].
  intros emu Hr. apply reachable_aligned_is_aligned in Hr as [Hpc _]. exact Hpc.
Qed.

Lemma pc_even_without_odd_targets_witness :
  exists emu',
    emulation_cycle 0 call_machine = Some (emu', []) /\
    program_counter emu' = 0x204 /\
    Z.even (program_counter emu') = true.
Proof.
  exists (set_program_counter 0x204
            (set_stack_ptr 1 (set_stack (<[0%nat := 0x200]> (stack call_machine))
                                call_machine))).
  split; [vm_compute; reflexivity |]. split; [reflexivity |].
  apply (proj2 pc_even_without_odd_targets).
  eapply (aligned_cycle 0 call_machine 0x2204).
  - eapply (aligned_loaded (Present [0x22; 0x04; 0x00; 0x00; 0x00; 0xEE] 6)).
    vm_compute; reflexivity.
  - vm_compute; reflexivity.
  - vm_compute; reflexivity.
  - vm_compute; reflexivity.
Defined.

(** C8, counterexample.  The program 1201 (jump to 0x201), loaded and run
    for one cycle, leaves the program counter at the odd address 0x201. *)
Lemma pc_odd_after_jump :
  reachable (set_program_counter 0x201 odd_jump_machine) /\
  program_counter (set_program_counter 0x201 odd_jump_machine) = 0x201 /\
  Z.even (program_counter (set_program_counter 0x201 odd_jump_machine)) = false /\
  ~ (forall emu, reachable emu -> Z.even (program_counter emu) = true).
Proof.
  assert (Hr : reachable (set_program_counter 0x201 odd_jump_machine)).
  { eapply (reachable_cycle 0 odd_jump_machine).
    - eapply (reachable_loaded (Present [0x12; 0x01] 2)). vm_compute; reflexivity.
    - vm_compute; reflexivity. }
  split; [exact Hr |]. split; [reflexivity |]. split; [reflexivity |].
  intros H. specialize (H _ Hr). discriminate H.
Qed.

(** ** Wait-for-key (FX0A) *)

Lemma scan_key_unfold (opcode i : Z) (e : emulator) (kp : bool) :
  scan_key opcode i (e, kp) =
    (k ← load (keys e) i;
     if k =? 0 then Some (e, kp)
     else r ← store (registers e) (VX opcode) (u8 i); Some (set_registers r e, true)).
Proof. reflexivity. Qed.

(** The scan over a range with no key held changes nothing. *)
Lemma scan_key_none (opcode : Z) (n : nat) :
  forall (i : Z) (e : emulator) (kp : bool),
    (forall j, i <= j < i + Z.of_nat n -> load (keys e) j = Some 0) ->
    for_range n i (scan_key opcode) (e, kp) = Some (e, kp).
Proof.
  induction n as [| n IH]; intros i e kp Hnone.
  - reflexivity.
  - rewrite for_range_S, scan_key_unfold. simpl.
    rewrite (Hnone i) by lia. simpl.
    apply IH. intros j Hj. apply Hnone. lia.
Qed.

(** The scan over a range whose highest held key is [k] leaves [k] in
    register X, whatever lower keys are held. *)
Lemma scan_key_highest (opcode : Z) (e0 : emulator) (k v : Z) (n : nat) :
  length (keys e0) = 16%nat ->
  keys e0 !! Z.to_nat k = Some v -> v <> 0 ->
  forall (i : Z) (r : list Z) (kp : bool),
    length r = 16%nat ->
    0 <= i <= k -> k < i + Z.of_nat n -> i + Z.of_nat n <= 16 ->
    (forall j, k < j < i + Z.of_nat n -> load (keys e0) j = Some 0) ->
    for_range n i (scan_key opcode) (set_registers r e0, kp) =
      Some (set_registers (<[Z.to_nat (VX opcode) := u8 k]> r) e0, true).
Proof.
  intros Hlen Hk Hv. pose proof (VX_range opcode) as HX.
  induction n as [| n IH]; intros i r kp Hr Hi Hkn Hn Hnone; [lia |].
  rewrite for_range_S, scan_key_unfold. simpl.
  destruct (Z.eq_dec i k) as [-> | Hne].
  - rewrite load_lookup by lia. rewrite Hk. simpl.
    destruct (Z.eqb_spec v 0) as [| _]; [contradiction |].
    rewrite store_in by (rewrite Hr; lia). simpl.
    apply (scan_key_none opcode n (k + 1)
             (set_registers (<[Z.to_nat (VX opcode) := u8 k]> r) e0) true).
    intros j Hj. simpl. apply Hnone. lia.
  - destruct (lookup_lt_is_Some_2 (keys e0) (Z.to_nat i)) as [w Hw]; [rewrite Hlen; lia |].
    rewrite load_lookup by lia. rewrite Hw. simpl.
    destruct (w =? 0).
    + apply IH; [exact Hr | lia | lia | lia |].
      intros j Hj. apply Hnone. lia.
    + rewrite store_in by (rewrite Hr; lia). simpl.
      change (set_registers (<[Z.to_nat (VX opcode) := u8 i]> r) (set_registers r e0))
        with (set_registers (<[Z.to_nat (VX opcode) := u8 i]> r) e0).
      rewrite (IH (i + 1) (<[Z.to_nat (VX opcode) := u8 i]> r) true).
      * rewrite list_insert_insert_eq. reflexivity.
      * rewrite length_insert. exact Hr.
      * lia.
      * lia.
      * lia.
      * intros j Hj. apply Hnone. lia.
Qed.

Lemma set_registers_same (emu : emulator) : set_registers (registers emu) emu = emu.
Proof. destruct emu. reflexivity. Qed.

(** C7.  A cycle that executes FX0A: with no key flag set the machine is
    left exactly as it was (program counter and timers included) and
    nothing is printed; with key [k] set and no higher key set, register X
    receives [k], the program counter advances by exactly 2, and nothing
    else but the timers changes. *)
Theorem wait_for_key_highest (rnd : Z) (emu : emulator) (opcode : Z) :
  wf emu ->
  fetch emu = Some opcode ->
  Z.land opcode 0xF000 = 0xF000 -> Z.land opcode 0x00FF = 0x0A ->
  ((forall j : nat, (j < 16)%nat -> keys emu !! j = Some 0) ->
   emulation_cycle rnd emu = Some (emu, [])) /\
  (forall (k : nat) (v : Z),
     (k < 16)%nat -> keys emu !! k = Some v -> v <> 0 ->
     (forall j : nat, (k < j < 16)%nat -> keys emu !! j = Some 0) ->
     exists emu' out,
       emulation_cycle rnd emu = Some (emu', out) /\
       registers emu' = <[Z.to_nat (VX opcode) := Z.of_nat k]> (registers emu) /\
       registers emu' !! Z.to_nat (VX opcode) = Some (Z.of_nat k) /\
       program_counter emu' = program_counter emu + 2 /\
       memory emu' = memory emu /\ index_register emu' = index_register emu /\
       gfx emu' = gfx emu /\ draw_flag emu' = draw_flag emu /\
       stack emu' = stack emu /\ stack_ptr emu' = stack_ptr emu /\
       keys emu' = keys emu).
Proof.
  intros Hwf Hf Hc Hs.
  pose proof (VX_range opcode) as HX.
  pose proof (wf_registers_length emu Hwf) as Hrl.
  pose proof (wf_keys_length emu Hwf) as Hkl.
  assert (He : execute rnd opcode emu = op_wait_key opcode emu).
  { unfold execute. rewrite Hc, Hs. reflexivity. }
  split.
  - intros Hnone.
    assert (Hscan : for_range 16 0 (scan_key opcode) (emu, false) = Some (emu, false)).
    { apply scan_key_none. intros j Hj. rewrite load_lookup by lia.
      apply Hnone. lia. }
    unfold op_wait_key in He. rewrite Hscan in He. simpl in He.
    exact (cycle_return _ _ _ _ Hf He).
  - intros k v Hk Hkv Hv Hhigher.
    assert (Hscan : for_range 16 0 (scan_key opcode) (emu, false) =
                    Some (set_registers
                            (<[Z.to_nat (VX opcode) := u8 (Z.of_nat k)]> (registers emu)) emu,
                          true)).
    { rewrite <- (set_registers_same emu) at 1.
      apply (scan_key_highest opcode emu (Z.of_nat k) v); try lia; try assumption.
      - rewrite Nat2Z.id. exact Hkv.
      - intros j Hj. rewrite load_lookup by lia. apply Hhigher. lia. }
    rewrite u8_small in Hscan by lia.
    unfold op_wait_key in He. rewrite Hscan in He. simpl in He.
    eexists _, _. split; [exact (cycle_break _ _ _ _ _ Hf He) |].
    match goal with
    | |- context [tick_timers ?e] =>
        destruct (tick_timers_frame e) as (Hm & _ & Hr & Hi & Hp & Hg & Hd & Hst & Hsp & Hks)
    end.
    rewrite Hm, Hr, Hi, Hp, Hg, Hd, Hst, Hsp, Hks. simpl.
    rewrite (fetch_advance emu Hwf opcode Hf).
    repeat split.
    apply list_lookup_insert_eq. rewrite Hrl. lia.
Qed.

Lemma wait_for_key_highest_witness :
  exists emu' out,
    emulation_cycle 0 wait_key_machine = Some (emu', out) /\
    registers emu' !! 3%nat = Some 9 /\
    program_counter emu' = 0x202.
Proof.
  destruct (wait_for_key_highest 0 wait_key_machine 0xF30A) as [_ Hheld].
  - wf_by_evaluation.
  - vm_compute; reflexivity.
  - reflexivity.
  - reflexivity.
  - destruct (Hheld 9%nat 1) as (emu' & out & Hc & _ & Hr & Hp & _).
    + lia.
    + vm_compute; reflexivity.
    + discriminate.
    + intros j Hj.
      do 16 (destruct j as [| j]; [first [lia | vm_compute; reflexivity] |]). lia.
    + exists emu', out. split; [exact Hc |]. split; [exact Hr | exact Hp].
Defined.

(** ** Call and return (2NNN, 00EE) *)

(** C9.  A call executed with program counter [p] and stack pointer
    [s < 16] stores [p] in stack cell [s], moves the stack pointer to
    [s + 1] and the program counter to NNN; a return executed by any later
    machine with that stack and stack pointer moves the program counter
    to [p + 2] and the stack pointer back to [s]. *)
Theorem call_return_roundtrip (rnd : Z) (emu : emulator) (opcode : Z) :
  wf emu ->
  fetch emu = Some opcode ->
  Z.land opcode 0xF000 = 0x2000 ->
  stack_ptr emu < 16 ->
  exists emu1 out1,
    emulation_cycle rnd emu = Some (emu1, out1) /\
    program_counter emu1 = Z.land opcode 0x0FFF /\
    stack emu1 = <[Z.to_nat (stack_ptr emu) := program_counter emu]> (stack emu) /\
    stack emu1 !! Z.to_nat (stack_ptr emu) = Some (program_counter emu) /\
    stack_ptr emu1 = stack_ptr emu + 1 /\
    memory emu1 = memory emu /\
    forall (rnd' : Z) (emu2 : emulator) (opcode2 : Z),
      stack emu2 = stack emu1 -> stack_ptr emu2 = stack_ptr emu1 ->
      fetch emu2 = Some opcode2 ->
      Z.land opcode2 0xF000 = 0x0000 -> Z.land opcode2 0x00FF = 0xEE ->
      exists emu3 out3,
        emulation_cycle rnd' emu2 = Some (emu3, out3) /\
        program_counter emu3 = program_counter emu + 2 /\
        stack_ptr emu3 = stack_ptr emu.
Proof.
  intros Hwf Hf Hc Hsp.
  pose proof (wf_stack_ptr emu Hwf) as Hsp0.
  pose proof (wf_stack_length emu Hwf) as Hsl.
  assert (He : execute rnd opcode emu =
               Some (Break (set_program_counter (Z.land opcode 0x0FFF)
                       (set_stack_ptr (u16 (stack_ptr emu + 1))
                          (set_stack (<[Z.to_nat (stack_ptr emu) := program_counter emu]>
                                        (stack emu)) emu))) [])).
  { unfold execute. rewrite Hc. unfold op_call.
    rewrite store_in by (rewrite Hsl; lia). reflexivity. }
  eexists _, _. split; [exact (cycle_break _ _ _ _ _ Hf He) |].
  match goal with
  | |- context [tick_timers ?e] =>
      destruct (tick_timers_frame e) as (Hm & _ & _ & _ & Hp & _ & _ & Hst & Hspt & _)
  end.
  rewrite Hm, Hp, Hst, Hspt. simpl.
  rewrite (u16_small (stack_ptr emu + 1)) by lia.
  assert (Htop : <[Z.to_nat (stack_ptr emu) := program_counter emu]> (stack emu)
                   !! Z.to_nat (stack_ptr emu) = Some (program_counter emu)).
  { apply list_lookup_insert_eq. rewrite Hsl. lia. }
  repeat apply conj; try reflexivity; try exact Htop.
  intros rnd' emu2 opcode2 Hst2 Hsp2 Hf2 Hc2 Hs2.
  assert (He2 : execute rnd' opcode2 emu2 =
                Some (Break (advance 2 (set_program_counter (program_counter emu)
                        (set_stack_ptr (stack_ptr emu) emu2))) [])).
  { unfold execute. rewrite Hc2, Hs2. unfold op_return.
    rewrite Hsp2.
    replace (stack_ptr emu + 1 - 1) with (stack_ptr emu) by lia.
    rewrite (u16_small (stack_ptr emu)) by lia.
    rewrite load_lookup by lia. rewrite Hst2, Htop. reflexivity. }
  eexists _, _. split; [exact (cycle_break _ _ _ _ _ Hf2 He2) |].
  match goal with
  | |- context [tick_timers ?e] =>
      destruct (tick_timers_frame e) as (_ & _ & _ & _ & Hp2 & _ & _ & _ & Hspt2 & _)
  end.
  rewrite Hp2, Hspt2. simpl.
  split; [exact (fetch_advance emu Hwf opcode Hf) | reflexivity].
Qed.

Lemma call_return_roundtrip_witness :
  exists emu1 out1 emu3 out3,
    emulation_cycle 0 call_machine = Some (emu1, out1) /\
    program_counter emu1 = 0x204 /\
    emulation_cycle 0 emu1 = Some (emu3, out3) /\
    program_counter emu3 = 0x202 /\
    stack_ptr emu3 = 0.
Proof.
  destruct (call_return_roundtrip 0 call_machine 0x2204)
    as (emu1 & out1 & Hc1 & Hp1 & _ & _ & _ & Hm1 & Hret).
  - wf_by_evaluation.
  - vm_compute; reflexivity.
  - reflexivity.
  - vm_compute; reflexivity.
  - destruct (Hret 0 emu1 0x00EE) as (emu3 & out3 & Hc3 & Hp3 & Hs3).
    + reflexivity.
    + reflexivity.
    + unfold fetch. rewrite Hp1, Hm1. vm_compute; reflexivity.
    + reflexivity.
    + reflexivity.
    + exists emu1, out1, emu3, out3.
      repeat apply conj; [exact Hc1 | exact Hp1 | exact Hc3 | exact Hp3 | exact Hs3].
Defined.

(** ** The shifts (8XY6, 8XYE) *)

Lemma shift_like_break (flag shifted : Z -> Z) (opcode : Z) (emu : emulator) (vx : Z) :
  length (registers emu) = 16%nat ->
  registers emu !! Z.to_nat (VX opcode) = Some vx ->
  shift_like flag shifted opcode emu =
    Some (Break (advance 2 (set_registers
      (<[Z.to_nat (VX opcode) := shifted (if VX opcode =? 0xF then flag vx else vx)]>
         (<[15%nat := flag vx]> (registers emu))) emu)) []).
Proof.
  intros Hlen Hvx. pose proof (VX_range opcode) as HX.
  unfold shift_like. rewrite load_lookup by lia. rewrite Hvx. simpl.
  rewrite store_in by (rewrite Hlen; lia). simpl.
  rewrite load_lookup by lia.
  destruct (Z.eqb_spec (VX opcode) 0xF) as [HF | HF].
  - rewrite HF. simpl. rewrite list_lookup_insert_eq by (rewrite Hlen; lia). simpl.
    rewrite store_in by (rewrite length_insert, Hlen; lia). reflexivity.
  - rewrite list_lookup_insert_ne by lia. rewrite Hvx. simpl.
    rewrite store_in by (rewrite length_insert, Hlen; lia). reflexivity.
Qed.

Lemma tick_timers_set_registers (r : list Z) (emu : emulator) :
  tick_timers (set_registers r emu) =
    (set_registers r (tick_timers emu).1, (tick_timers emu).2).
Proof.
  unfold tick_timers. simpl.
  destruct (delay_timer emu >? 0); simpl; destruct (sound_timer emu >? 0); reflexivity.
Qed.

(** Registers X and 0xF, and every register other than Y, do not depend on
    what register Y held. *)
Lemma shift_registers_agree (regs : list Z) (x y : nat) (a b v : Z) (i : nat) :
  length regs = 16%nat -> (x < 16)%nat ->
  i <> y \/ i = x \/ i = 15%nat ->
  <[x := a]> (<[15%nat := b]> (<[y := v]> regs)) !! i =
  <[x := a]> (<[15%nat := b]> regs) !! i.
Proof.
  intros Hlen Hx Hi.
  destruct (decide (i = x)) as [-> | Hix].
  - rewrite !list_lookup_insert_eq by (rewrite !length_insert; lia). reflexivity.
  - rewrite !(list_lookup_insert_ne _ x i) by congruence.
    destruct (decide (i = 15%nat)) as [-> | Hif].
    + rewrite !list_lookup_insert_eq by (rewrite ?length_insert; lia). reflexivity.
    + rewrite !(list_lookup_insert_ne _ 15%nat i) by congruence.
      apply list_lookup_insert_ne. intros ->. destruct Hi as [Hi | [Hi | Hi]]; congruence.
Qed.

Lemma shift_like_outcome (flag shifted : Z -> Z) (rnd : Z) (emu : emulator) (opcode vx : Z) :
  wf emu ->
  fetch emu = Some opcode ->
  (forall e, execute rnd opcode e = shift_like flag shifted opcode e) ->
  registers emu !! Z.to_nat (VX opcode) = Some vx ->
  exists emu' out,
    emulation_cycle rnd emu = Some (emu', out) /\
    shift_outcome flag shifted rnd emu opcode vx emu' out.
Proof.
  intros Hwf Hf Hex Hvx.
  pose proof (VX_range opcode) as HX.
  pose proof (wf_registers_length emu Hwf) as Hlen.
  pose proof (Hex emu) as He.
  rewrite (shift_like_break flag shifted opcode emu vx Hlen Hvx) in He.
  eexists _, _. split; [exact (cycle_break _ _ _ _ _ Hf He) |].
  set (a := shifted (if VX opcode =? 0xF then flag vx else vx)).
  change (advance 2 (set_registers
            (<[Z.to_nat (VX opcode) := a]> (<[15%nat := flag vx]> (registers emu))) emu))
    with (set_registers
            (<[Z.to_nat (VX opcode) := a]> (<[15%nat := flag vx]> (registers emu)))
            (advance 2 emu)).
  rewrite tick_timers_set_registers. simpl.
  destruct (tick_timers_frame (advance 2 emu)) as (_ & _ & _ & _ & Hp & _).
  unfold shift_outcome. simpl. repeat apply conj.
  - reflexivity.
  - intros HXF. split.
    + rewrite list_lookup_insert_ne by lia.
      apply list_lookup_insert_eq. rewrite Hlen. lia.
    + subst a. destruct (Z.eqb_spec (VX opcode) 0xF); [contradiction |].
      apply list_lookup_insert_eq. rewrite length_insert, Hlen. lia.
  - rewrite Hp. simpl. exact (fetch_advance emu Hwf opcode Hf).
  - intros v emu2 -> Hvx2. simpl in Hvx2.
    pose proof (Hex (set_registers (<[Z.to_nat (VY opcode) := v]> (registers emu)) emu))
      as He2.
    rewrite (shift_like_break flag shifted opcode _ vx) in He2;
      [| simpl; rewrite length_insert; exact Hlen | exact Hvx2].
    simpl in He2. fold a in He2.
    assert (Hf2 : fetch (set_registers (<[Z.to_nat (VY opcode) := v]> (registers emu)) emu)
                  = Some opcode) by exact Hf.
    pose proof (cycle_break _ _ _ _ _ Hf2 He2) as Hc2.
    change (advance 2 (set_registers
              (<[Z.to_nat (VX opcode) := a]>
                 (<[15%nat := flag vx]> (<[Z.to_nat (VY opcode) := v]> (registers emu))))
              (set_registers (<[Z.to_nat (VY opcode) := v]> (registers emu)) emu)))
      with (set_registers
              (<[Z.to_nat (VX opcode) := a]>
                 (<[15%nat := flag vx]> (<[Z.to_nat (VY opcode) := v]> (registers emu))))
              (advance 2 emu)) in Hc2.
    rewrite tick_timers_set_registers in Hc2. simpl in Hc2.
    eexists. split; [exact Hc2 |]. simpl.
    split; [reflexivity |].
    intros i Hi. apply shift_registers_agree; [exact Hlen | lia | exact Hi].
Qed.

Lemma shift_outcome_ext (flag shifted flag' shifted' : Z -> Z) rnd emu opcode vx emu' out :
  flag vx = flag' vx ->
  shifted vx = shifted' vx ->
  shifted (flag vx) = shifted' (flag' vx) ->
  shift_outcome flag shifted rnd emu opcode vx emu' out ->
  shift_outcome flag' shifted' rnd emu opcode vx emu' out.
Proof.
  intros Hfl Hsh Hshfl (Hr & Hxf & Hp & Hy). unfold shift_outcome.
  rewrite <- Hfl, <- Hsh.
  replace (shifted' (if VX opcode =? 0xF then flag vx else vx))
    with (shifted (if VX opcode =? 0xF then flag vx else vx)).
  - repeat apply conj; assumption.
  - destruct (VX opcode =? 0xF); [rewrite Hshfl, Hfl; reflexivity | exact Hsh].
Qed.

Lemma bit0_flag (vx : Z) : 0 <= vx < 256 -> u8 (Z.land vx 0x01) = Z.b2z (Z.testbit vx 0).
Proof.
  intros Hvx. rewrite Z.bit0_mod.
  change 0x01 with (Z.ones 1). rewrite Z.land_ones by lia.
  apply u8_small. change (2 ^ 1) with 2. pose proof (Z.mod_pos_bound vx 2). lia.
Qed.

Lemma bit7_flag (vx : Z) : 0 <= vx < 256 -> u8 (Z.shiftr vx 7) = Z.b2z (Z.testbit vx 7).
Proof.
  intros Hvx. rewrite Z.testbit_spec' by lia. rewrite Z.shiftr_div_pow2 by lia.
  change (2 ^ 7) with 128.
  assert (0 <= vx / 128 < 2) by (split; [apply Z.div_pos | apply Z.div_lt_upper_bound]; lia).
  rewrite Z.mod_small by lia. apply u8_small. lia.
Qed.

Lemma shift_right_small (c : Z) : 0 <= c < 256 -> u8 (Z.shiftr c 1) = Z.shiftr c 1.
Proof.
  intros Hc. apply u8_small. rewrite Z.shiftr_div_pow2 by lia. change (2 ^ 1) with 2.
  split; [apply Z.div_pos | apply Z.div_lt_upper_bound]; lia.
Qed.

Lemma b2z_byte (b : bool) : 0 <= Z.b2z b < 256.
Proof. destruct b; simpl; lia. Qed.



(** ** The loader *)

Lemma inserts_region (mem contents : list Z) :
  (512 + length contents <= length mem)%nat ->
  take (length contents) (drop 512 (list_inserts 512 contents mem)) = contents.
Proof.
  intros Hfit. apply list_eq. intros i.
  destruct (decide (i < length contents)%nat) as [Hi | Hi].
  - rewrite lookup_take_lt by lia. rewrite lookup_drop.
    rewrite list_lookup_inserts by lia.
    replace (512 + i - 512)%nat with i by lia. reflexivity.
  - rewrite lookup_take_ge by lia. symmetry. apply lookup_ge_None_2. lia.
Qed.

(** A complete read. *)
Lemma load_rom_complete (emu : emulator) (contents : list Z) (delivered : nat) :
  Z.of_nat (length contents) <= 3583 ->
  (length contents <= delivered)%nat ->
  exists out,
    load_rom emu (Present contents delivered) =
      (true,
       set_rom_size (u32 (Z.of_nat (length contents)))
         (set_memory (list_inserts 512 contents (memory emu)) emu),
       out).
Proof.
  intros Hfit Hall. unfold load_rom, fread.
  destruct (Z.leb_spec (Z.of_nat (length contents)) (0xFFF - 0x200)) as [_ | Hbig]; [| lia].
  rewrite Nat.min_r by lia. rewrite take_ge by lia.
  rewrite Nat.eqb_refl. eexists. reflexivity.
Qed.

(** A read that stops early. *)
Lemma load_rom_short (emu : emulator) (contents : list Z) (delivered : nat) :
  Z.of_nat (length contents) <= 3583 ->
  (delivered < length contents)%nat ->
  load_rom emu (Present contents delivered) =
    (false,
     set_memory (list_inserts 512 (take delivered contents) (memory emu)) emu,
     [Print_loading_rom false]).
Proof.
  intros Hfit Hshort. unfold load_rom, fread.
  destruct (Z.leb_spec (Z.of_nat (length contents)) (0xFFF - 0x200)) as [_ | Hbig]; [| lia].
  rewrite Nat.min_l by lia.
  destruct (Nat.eqb_spec (length (take delivered contents)) (length contents)) as [Heq | _].
  - rewrite length_take in Heq. lia.
  - reflexivity.
Qed.

Lemma load_rom_too_large (emu : emulator) (contents : list Z) (delivered : nat) :
  3583 < Z.of_nat (length contents) ->
  load_rom emu (Present contents delivered) =
    (false, emu,
     [Print_rom_too_large (Z.of_nat (length contents)); Print_loading_rom false]).
Proof.
  intros Hbig. unfold load_rom.
  destruct (Z.leb_spec (Z.of_nat (length contents)) (0xFFF - 0x200)) as [Hfit | _]; [lia |].
  reflexivity.
Qed.

(** C5.  An image of at most 3583 bytes that the stream delivers in full
    is loaded: the loader returns true, the memory from 0x200 on holds the
    bytes of the image and the recorded length is the length of the
    image.  An image of more than 3583 bytes is refused: the loader
    reports that the rom is too large, returns false and leaves the
    machine as it was. *)
Theorem load_rom_copies_image (emu : emulator) (contents : list Z) (delivered : nat) :
  length (memory emu) = 4096%nat ->
  (Z.of_nat (length contents) <= 3583 ->
   (length contents <= delivered)%nat ->
   exists emu' out,
     load_rom emu (Present contents delivered) = (true, emu', out) /\
     take (length contents) (drop (Z.to_nat 0x200) (memory emu')) = contents /\
     (forall i : nat, (i < length contents)%nat ->
        memory emu' !! (Z.to_nat 0x200 + i)%nat = contents !! i) /\
     rom_size emu' = Z.of_nat (length contents)) /\
  (3583 < Z.of_nat (length contents) ->
   exists out,
     load_rom emu (Present contents delivered) = (false, emu, out) /\
     In (Print_rom_too_large (Z.of_nat (length contents))) out).
Proof.
  intros Hmem. split.
  - intros Hfit Hall.
    destruct (load_rom_complete emu contents delivered Hfit Hall) as [out Hl].
    eexists _, out. split; [exact Hl |].
    cbn [memory rom_size set_rom_size set_memory].
    change (Z.to_nat 0x200) with 512%nat.
    repeat apply conj.
    + apply inserts_region. lia.
    + intros i Hi. rewrite list_lookup_inserts by lia.
      replace (512 + i - 512)%nat with i by lia. reflexivity.
    + unfold u32. apply Z.mod_small. lia.
  - intros Hbig. rewrite (load_rom_too_large emu contents delivered Hbig).
    eexists. split; [reflexivity |]. left. reflexivity.
Qed.

Lemma load_rom_copies_image_witness :
  exists emu' out,
    load_rom (init zero_emulator) (Present [0x12; 0x01] 2) = (true, emu', out) /\
    take 2 (drop (Z.to_nat 0x200) (memory emu')) = [0x12; 0x01] /\
    rom_size emu' = 2.
Proof.
  destruct (load_rom_copies_image (init zero_emulator) [0x12; 0x01] 2) as [Hsmall _].
  - vm_compute; reflexivity.
  - destruct Hsmall as (emu' & out & Hl & Hbytes & _ & Hsize).
    + simpl. lia.
    + simpl. lia.
    + exists emu', out. repeat apply conj; [exact Hl | exact Hbytes | exact Hsize].
Defined.

(** C6, as the code has it.  When the loader fails, every field other
    than the memory is as it was, the recorded image length included.
    The memory too is as it was when the file is absent or larger than
    3583 bytes.  When the read stops early, the bytes that were read are
    in memory from 0x200 on, and the memory outside that range is as it
    was. *)
Theorem load_rom_failure (emu : emulator) (file : rom_file) (emu' : emulator)
    (out : list event) :
  load_rom emu file = (false, emu', out) ->
  set_memory (memory emu') emu = emu' /\
  rom_size emu' = rom_size emu /\
  (file = Absent -> emu' = emu) /\
  (forall contents delivered,
     file = Present contents delivered ->
     3583 < Z.of_nat (length contents) -> emu' = emu) /\
  (forall contents delivered,
     file = Present contents delivered ->
     Z.of_nat (length contents) <= 3583 ->
     (delivered < length contents)%nat /\
     memory emu' =
       list_inserts (Z.to_nat 0x200) (take delivered contents) (memory emu) /\
     forall i : nat,
       (i < Z.to_nat 0x200 \/ Z.to_nat 0x200 + delivered <= i)%nat ->
       memory emu' !! i = memory emu !! i).
Proof.
  intros Hl. destruct file as [| contents delivered].
  - injection Hl as <- _. repeat apply conj.
    + destruct emu; reflexivity.
    + reflexivity.
    + reflexivity.
    + discriminate.
    + discriminate.
  - destruct (Z.le_gt_cases (Z.of_nat (length contents)) 3583) as [Hfit | Hbig].
    + destruct (Nat.le_gt_cases (length contents) delivered) as [Hall | Hshort].
      * destruct (load_rom_complete emu contents delivered Hfit Hall) as [out' Hok].
        rewrite Hok in Hl. discriminate Hl.
      * rewrite (load_rom_short emu contents delivered Hfit Hshort) in Hl.
        injection Hl as <- _. repeat apply conj; try reflexivity; try discriminate.
        -- intros c d [= <- <-] Hbig. lia.
        -- intros c d [= <- <-] _. change (Z.to_nat 0x200) with 512%nat.
           repeat apply conj; [exact Hshort | reflexivity |].
           intros i [Hi | Hi]; cbn [memory set_memory].
           ++ apply list_lookup_inserts_lt. exact Hi.
           ++ apply list_lookup_inserts_ge. rewrite length_take. lia.
    + rewrite (load_rom_too_large emu contents delivered Hbig) in Hl.
      injection Hl as <- _. repeat apply conj; try reflexivity; try discriminate.
      * destruct emu; reflexivity.
      * intros c d [= <- <-] Hfit. lia.
Qed.

Lemma load_rom_failure_witness :
  exists emu' out,
    load_rom (init zero_emulator) short_read = (false, emu', out) /\
    rom_size emu' = 0 /\
    memory emu' = list_inserts (Z.to_nat 0x200) [0x12] (memory (init zero_emulator)).
Proof.
  exists (load_rom (init zero_emulator) short_read).1.2, [Print_loading_rom false].
  assert (Hl : load_rom (init zero_emulator) short_read =
               (false, (load_rom (init zero_emulator) short_read).1.2,
                [Print_loading_rom false])) by (vm_compute; reflexivity).
  destruct (load_rom_failure _ _ _ _ Hl) as (_ & Hsize & _ & _ & Hshort).
  destruct (Hshort [0x12; 0x34] 1%nat eq_refl) as (_ & Hmem & _); [simpl; lia |].
  repeat apply conj; [exact Hl | exact Hsize | exact Hmem].
Defined.

(** C6, counterexample.  A two-byte image whose read stops after the
    first byte: the loader fails, and the byte that was read is visible at
    0x200, where the machine held 0 before. *)
Lemma load_rom_partial_write :
  (load_rom (init zero_emulator) short_read).1.1 = false /\
  memory (init zero_emulator) !! Z.to_nat 0x200 = Some 0 /\
  memory (load_rom (init zero_emulator) short_read).1.2 !! Z.to_nat 0x200 = Some 0x12 /\
  (load_rom (init zero_emulator) short_read).1.2 <> init zero_emulator.
Proof.
  repeat apply conj; try (vm_compute; reflexivity).
  intros Heq.
  assert (H : memory (load_rom (init zero_emulator) short_read).1.2 !! Z.to_nat 0x200
              = memory (init zero_emulator) !! Z.to_nat 0x200) by (rewrite Heq; reflexivity).
  vm_compute in H. discriminate H.
Qed.

(** * The interpreter as a whole *)

(** The head constant of an application. *)
Ltac head_of t :=
  lazymatch t with
  | ?f _ => head_of f
  | _ => t
  end.

(** ** Well-formedness is kept *)

Lemma wf_parts (emu : emulator) :
  wf emu <->
  array_ok 4096 256 (memory emu) /\ array_ok 16 256 (registers emu) /\
  array_ok 2048 4294967296 (gfx emu) /\ array_ok 16 65536 (stack emu) /\
  array_ok 16 256 (keys emu) /\
  in_range 4294967296 (rom_size emu) = true /\
  in_range 65536 (index_register emu) = true /\
  in_range 65536 (program_counter emu) = true /\
  in_range 256 (delay_timer emu) = true /\
  in_range 256 (sound_timer emu) = true /\
  in_range 65536 (stack_ptr emu) = true.
Proof. unfold wf, array_ok. tauto. Qed.

Lemma forallb_insert (f : Z -> bool) (l : list Z) (i : nat) (v : Z) :
  forallb f l = true -> f v = true -> forallb f (<[i := v]> l) = true.
Proof.
  revert i. induction l as [| x l IH]; intros i Hl Hv; [exact Hl |].
  simpl in Hl. apply andb_true_iff in Hl as [Hx Hl].
  destruct i as [| i]; simpl; apply andb_true_iff; split; auto.
Qed.

Lemma store_ok (n : nat) (b : Z) (a : list Z) (i v : Z) (a' : list Z) :
  store a i v = Some a' -> array_ok n b a -> in_range b v = true -> array_ok n b a'.
Proof.
  intros Hs [Hlen Hall] Hv. apply store_Some in Hs as [_ ->]. split.
  - rewrite length_insert. exact Hlen.
  - apply forallb_insert; assumption.
Qed.

Lemma load_ok (n : nat) (b : Z) (a : list Z) (i v : Z) :
  load a i = Some v -> array_ok n b a -> in_range b v = true.
Proof.
  intros Hl [_ Hall]. apply load_Some in Hl as [_ Hl].
  eapply forallb_lookup; eassumption.
Qed.

Lemma u8_ok (z : Z) : in_range 256 (u8 z) = true.
Proof. apply in_range_spec. unfold u8. apply Z.mod_pos_bound. lia. Qed.

Lemma u16_ok (z : Z) : in_range 65536 (u16 z) = true.
Proof. apply in_range_spec. unfold u16. apply Z.mod_pos_bound. lia. Qed.

Lemma u32_ok (z : Z) : in_range 4294967296 (u32 z) = true.
Proof. apply in_range_spec. unfold u32. apply Z.mod_pos_bound. lia. Qed.

Lemma flag_ok (c : bool) : in_range 256 (if c then 1 else 0) = true.
Proof. destruct c; reflexivity. Qed.

Lemma flag_ok' (c : bool) : in_range 256 (if c then 0 else 1) = true.
Proof. destruct c; reflexivity. Qed.

Lemma NNN_range (opcode : Z) : 0 <= Z.land opcode 0x0FFF < 4096.
Proof.
  change 0x0FFF with (Z.ones 12). rewrite Z.land_ones by lia.
  apply Z.mod_pos_bound. lia.
Qed.

Lemma NNN_ok (opcode : Z) : in_range 65536 (Z.land opcode 0x0FFF) = true.
Proof. apply in_range_spec. pose proof (NNN_range opcode). lia. Qed.

Section Setters.
Variable emu : emulator.
Hypothesis Hwf : wf emu.

Lemma wf_memory_ok : array_ok 4096 256 (memory emu).
Proof. apply wf_parts in Hwf. tauto. Qed.

Lemma wf_registers_ok : array_ok 16 256 (registers emu).
Proof. apply wf_parts in Hwf. tauto. Qed.

Lemma wf_gfx_ok : array_ok 2048 4294967296 (gfx emu).
Proof. apply wf_parts in Hwf. tauto. Qed.

Lemma wf_stack_ok : array_ok 16 65536 (stack emu).
Proof. apply wf_parts in Hwf. tauto. Qed.

Lemma wf_keys_ok : array_ok 16 256 (keys emu).
Proof. apply wf_parts in Hwf. tauto. Qed.

Lemma wf_pc_ok : in_range 65536 (program_counter emu) = true.
Proof. apply wf_parts in Hwf. tauto. Qed.

Lemma wf_delay_ok : in_range 256 (delay_timer emu) = true.
Proof. apply wf_parts in Hwf. tauto. Qed.

Lemma wf_sound_ok : in_range 256 (sound_timer emu) = true.
Proof. apply wf_parts in Hwf. tauto. Qed.

Lemma wf_set_memory (m : list Z) : array_ok 4096 256 m -> wf (set_memory m emu).
Proof. intros Hm. apply wf_parts. apply wf_parts in Hwf. simpl. tauto. Qed.

Lemma wf_set_registers (r : list Z) : array_ok 16 256 r -> wf (set_registers r emu).
Proof. intros Hm. apply wf_parts. apply wf_parts in Hwf. simpl. tauto. Qed.

Lemma wf_set_gfx (g : list Z) : array_ok 2048 4294967296 g -> wf (set_gfx g emu).
Proof. intros Hm. apply wf_parts. apply wf_parts in Hwf. simpl. tauto. Qed.

Lemma wf_set_stack (s : list Z) : array_ok 16 65536 s -> wf (set_stack s emu).
Proof. intros Hm. apply wf_parts. apply wf_parts in Hwf. simpl. tauto. Qed.

Lemma wf_set_keys (k : list Z) : array_ok 16 256 k -> wf (set_keys k emu).
Proof. intros Hm. apply wf_parts. apply wf_parts in Hwf. simpl. tauto. Qed.

Lemma wf_set_rom_size (n : Z) : in_range 4294967296 n = true -> wf (set_rom_size n emu).
Proof. intros Hm. apply wf_parts. apply wf_parts in Hwf. simpl. tauto. Qed.

Lemma wf_set_index_register (i : Z) :
  in_range 65536 i = true -> wf (set_index_register i emu).
Proof. intros Hm. apply wf_parts. apply wf_parts in Hwf. simpl. tauto. Qed.

Lemma wf_set_program_counter (p : Z) :
  in_range 65536 p = true -> wf (set_program_counter p emu).
Proof. intros Hm. apply wf_parts. apply wf_parts in Hwf. simpl. tauto. Qed.

Lemma wf_set_stack_ptr (p : Z) : in_range 65536 p = true -> wf (set_stack_ptr p emu).
Proof. intros Hm. apply wf_parts. apply wf_parts in Hwf. simpl. tauto. Qed.

Lemma wf_set_delay_timer (t : Z) : in_range 256 t = true -> wf (set_delay_timer t emu).
Proof. intros Hm. apply wf_parts. apply wf_parts in Hwf. simpl. tauto. Qed.

Lemma wf_set_sound_timer (t : Z) : in_range 256 t = true -> wf (set_sound_timer t emu).
Proof. intros Hm. apply wf_parts. apply wf_parts in Hwf. simpl. tauto. Qed.

Lemma wf_set_draw_flag (b : bool) : wf (set_draw_flag b emu).
Proof. apply wf_parts. apply wf_parts in Hwf. simpl. tauto. Qed.

Lemma wf_advance (n : Z) : wf (advance n emu).
Proof. unfold advance. apply wf_set_program_counter. apply u16_ok. Qed.
End Setters.

Lemma next_wf emu f : next emu = Some f -> wf emu -> wf (flow_emu f).
Proof. intros [= <-] Hwf. simpl. apply wf_advance. exact Hwf. Qed.

Lemma skip_if_wf c emu f : skip_if c emu = Some f -> wf emu -> wf (flow_emu f).
Proof. intros [= <-] Hwf. simpl. apply wf_advance. exact Hwf. Qed.

Lemma unknown_wf class opcode emu f :
  unknown class opcode emu = Some f -> wf emu -> wf (flow_emu f).
Proof. intros [= <-] Hwf. exact Hwf. Qed.

Create HintDb chip8_wf.
Create HintDb chip8_handlers_wf.

#[local] Hint Extern 1 (in_range 256 (u8 _) = true) => apply u8_ok : chip8_wf.
#[local] Hint Extern 1 (in_range 65536 (u16 _) = true) => apply u16_ok : chip8_wf.
#[local] Hint Extern 1 (in_range 4294967296 (u32 _) = true) => apply u32_ok : chip8_wf.
#[local] Hint Extern 1 (in_range 256 (if _ then 1 else 0) = true) => apply flag_ok : chip8_wf.
#[local] Hint Extern 1 (in_range 256 (if _ then 0 else 1) = true) => apply flag_ok' : chip8_wf.
#[local] Hint Extern 1 (in_range 65536 (Z.land _ 0x0FFF) = true) => apply NNN_ok : chip8_wf.
#[local] Hint Extern 1 (in_range _ 0 = true) => reflexivity : chip8_wf.
#[local] Hint Extern 1 (in_range _ 1 = true) => reflexivity : chip8_wf.

#[local] Hint Extern 1 (array_ok _ _ (memory _)) => apply wf_memory_ok : chip8_wf.
#[local] Hint Extern 1 (array_ok _ _ (registers _)) => apply wf_registers_ok : chip8_wf.
#[local] Hint Extern 1 (array_ok _ _ (gfx _)) => apply wf_gfx_ok : chip8_wf.
#[local] Hint Extern 1 (array_ok _ _ (stack _)) => apply wf_stack_ok : chip8_wf.
#[local] Hint Extern 1 (array_ok _ _ (keys _)) => apply wf_keys_ok : chip8_wf.
#[local] Hint Extern 1 (in_range _ (program_counter _) = true) => apply wf_pc_ok : chip8_wf.
#[local] Hint Extern 1 (in_range _ (delay_timer _) = true) => apply wf_delay_ok : chip8_wf.
#[local] Hint Extern 1 (in_range _ (sound_timer _) = true) => apply wf_sound_ok : chip8_wf.

#[local] Hint Resolve store_ok load_ok wf_set_memory wf_set_registers wf_set_gfx wf_set_stack
  wf_set_index_register wf_set_program_counter wf_set_stack_ptr wf_set_delay_timer
  wf_set_sound_timer wf_set_draw_flag wf_advance next_wf skip_if_wf unknown_wf
  : chip8_wf.

Ltac handler_wf :=
  let Hwf := fresh "Hwf" in
  let H := fresh "H" in
  intros Hwf H; simplify_option_eq; eauto 12 with chip8_wf.

Lemma op_skip_eq_imm_wf opcode emu f : wf emu -> op_skip_eq_imm opcode emu = Some f -> wf (flow_emu f).
Proof. unfold op_skip_eq_imm. handler_wf. Qed.

Lemma op_skip_ne_imm_wf opcode emu f : wf emu -> op_skip_ne_imm opcode emu = Some f -> wf (flow_emu f).
Proof. unfold op_skip_ne_imm. handler_wf. Qed.

Lemma op_skip_eq_wf opcode emu f : wf emu -> op_skip_eq opcode emu = Some f -> wf (flow_emu f).
Proof. unfold op_skip_eq. handler_wf. Qed.

Lemma op_load_imm_wf opcode emu f : wf emu -> op_load_imm opcode emu = Some f -> wf (flow_emu f).
Proof. unfold op_load_imm. handler_wf. Qed.

Lemma op_add_imm_wf opcode emu f : wf emu -> op_add_imm opcode emu = Some f -> wf (flow_emu f).
Proof. unfold op_add_imm. handler_wf. Qed.

Lemma op_assign_wf opcode emu f : wf emu -> op_assign opcode emu = Some f -> wf (flow_emu f).
Proof. unfold op_assign. handler_wf. Qed.

Lemma op_add_wf opcode emu f : wf emu -> op_add opcode emu = Some f -> wf (flow_emu f).
Proof. unfold op_add. handler_wf. Qed.

Lemma op_sub_wf opcode emu f : wf emu -> op_sub opcode emu = Some f -> wf (flow_emu f).
Proof. unfold op_sub. handler_wf. Qed.

Lemma op_shift_right_wf opcode emu f : wf emu -> op_shift_right opcode emu = Some f -> wf (flow_emu f).
Proof. unfold op_shift_right. handler_wf. Qed.

Lemma op_sub_reverse_wf opcode emu f : wf emu -> op_sub_reverse opcode emu = Some f -> wf (flow_emu f).
Proof. unfold op_sub_reverse. handler_wf. Qed.

Lemma op_shift_left_wf opcode emu f : wf emu -> op_shift_left opcode emu = Some f -> wf (flow_emu f).
Proof. unfold op_shift_left. handler_wf. Qed.

Lemma op_skip_ne_wf opcode emu f : wf emu -> op_skip_ne opcode emu = Some f -> wf (flow_emu f).
Proof. unfold op_skip_ne. handler_wf. Qed.

Lemma op_set_index_wf opcode emu f : wf emu -> op_set_index opcode emu = Some f -> wf (flow_emu f).
Proof. unfold op_set_index. handler_wf. Qed.

Lemma op_jump_offset_wf opcode emu f : wf emu -> op_jump_offset opcode emu = Some f -> wf (flow_emu f).
Proof. unfold op_jump_offset. handler_wf. Qed.

Lemma op_skip_key_wf opcode emu f : wf emu -> op_skip_key opcode emu = Some f -> wf (flow_emu f).
Proof. unfold op_skip_key. handler_wf. Qed.

Lemma op_skip_not_key_wf opcode emu f : wf emu -> op_skip_not_key opcode emu = Some f -> wf (flow_emu f).
Proof. unfold op_skip_not_key. handler_wf. Qed.

Lemma op_get_delay_wf opcode emu f : wf emu -> op_get_delay opcode emu = Some f -> wf (flow_emu f).
Proof. unfold op_get_delay. handler_wf. Qed.

Lemma op_set_delay_wf opcode emu f : wf emu -> op_set_delay opcode emu = Some f -> wf (flow_emu f).
Proof. unfold op_set_delay. handler_wf. Qed.

Lemma op_set_sound_wf opcode emu f : wf emu -> op_set_sound opcode emu = Some f -> wf (flow_emu f).
Proof. unfold op_set_sound. handler_wf. Qed.

Lemma op_add_index_wf opcode emu f : wf emu -> op_add_index opcode emu = Some f -> wf (flow_emu f).
Proof. unfold op_add_index. handler_wf. Qed.

Lemma op_font_wf opcode emu f : wf emu -> op_font opcode emu = Some f -> wf (flow_emu f).
Proof. unfold op_font. handler_wf. Qed.

Lemma op_bcd_wf opcode emu f : wf emu -> op_bcd opcode emu = Some f -> wf (flow_emu f).
Proof. unfold op_bcd. handler_wf. Qed.

Lemma op_jump_wf opcode emu f : wf emu -> op_jump opcode emu = Some f -> wf (flow_emu f).
Proof. unfold op_jump. handler_wf. Qed.

Lemma op_call_wf opcode emu f : wf emu -> op_call opcode emu = Some f -> wf (flow_emu f).
Proof. unfold op_call. handler_wf. Qed.

Lemma op_return_wf emu f : wf emu -> op_return emu = Some f -> wf (flow_emu f).
Proof. unfold op_return. handler_wf. Qed.

Lemma op_bitwise_wf op opcode emu f :
  wf emu -> op_bitwise op opcode emu = Some f -> wf (flow_emu f).
Proof. unfold op_bitwise. handler_wf. Qed.

Lemma op_random_wf rnd opcode emu f :
  wf emu -> op_random rnd opcode emu = Some f -> wf (flow_emu f).
Proof. unfold op_random. handler_wf. Qed.

Lemma store_loop_ok (n : nat) (b : Z) (v : Z) (k : nat) :
  in_range b v = true ->
  forall (i : Z) (a a' : list Z),
    for_range k i (fun j g => store g j v) a = Some a' ->
    array_ok n b a -> array_ok n b a'.
Proof.
  intros Hv i a a' Hl Ha. revert Hl.
  apply (for_range_preserves (array_ok n b)); [| exact Ha].
  intros j s s' Hs Hst. eapply store_ok; eassumption.
Qed.

Lemma op_clear_screen_wf emu f : wf emu -> op_clear_screen emu = Some f -> wf (flow_emu f).
Proof.
  unfold op_clear_screen. intros Hwf H.
  destruct (for_range _ _ _ _) as [g |] eqn:Hl; [| discriminate].
  cbn [mbind option_bind] in H.
  eapply next_wf; [exact H |].
  apply wf_set_draw_flag. apply wf_set_gfx; [exact Hwf |].
  eapply store_loop_ok; [| exact Hl | apply wf_gfx_ok; exact Hwf]. reflexivity.
Qed.

Lemma draw_bit_wf vx vy row y x emu emu' :
  wf emu -> draw_bit vx vy row y x emu = Some emu' -> wf emu'.
Proof.
  unfold draw_bit. cbv zeta. intros Hwf.
  destruct (u8 (Z.land row (Z.shiftr 0x80 x)) =? 0); [intros [= <-]; exact Hwf |].
  intros H.
  destruct (load (gfx emu) _) as [g |]; [| discriminate].
  cbn [mbind option_bind] in H.
  destruct (g =? 0xFFFFFFFF); simplify_option_eq; eauto 12 with chip8_wf.
Qed.

Lemma draw_row_wf vx vy y emu emu' : wf emu -> draw_row vx vy y emu = Some emu' -> wf emu'.
Proof.
  unfold draw_row. intros Hwf H.
  destruct (load (memory emu) _) as [row |]; [| discriminate].
  cbn [mbind option_bind] in H. revert H.
  apply (for_range_preserves wf); [| exact Hwf].
  intros i s s' Hs Hb. eapply draw_bit_wf; eassumption.
Qed.

Lemma op_draw_wf opcode emu f : wf emu -> op_draw opcode emu = Some f -> wf (flow_emu f).
Proof.
  unfold op_draw. intros Hwf H.
  destruct (load (registers emu) (Z.shiftr (Z.land opcode 0x0F00) 8)) as [vx |];
    [| discriminate].
  cbn [mbind option_bind] in H.
  destruct (load (registers emu) (Z.shiftr (Z.land opcode 0x00F0) 4)) as [vy |];
    [| discriminate].
  cbn [mbind option_bind] in H. cbv zeta in H.
  destruct (store (registers emu) 0xF 0) as [r |] eqn:Hr; [| discriminate].
  cbn [mbind option_bind] in H.
  destruct (for_range _ _ _ _) as [e |] eqn:Hl; [| discriminate].
  cbn [mbind option_bind] in H.
  eapply next_wf; [exact H |]. apply wf_set_draw_flag.
  revert Hl. apply (for_range_preserves wf).
  - intros i s s' Hs Hb. eapply draw_row_wf; eassumption.
  - eauto 8 with chip8_wf.
Qed.

Lemma scan_key_wf opcode i s s' : wf s.1 -> scan_key opcode i s = Some s' -> wf s'.1.
Proof.
  unfold scan_key. intros Hwf H.
  destruct (load (keys s.1) i) as [k |]; [| discriminate].
  cbn [mbind option_bind] in H. revert H.
  destruct (k =? 0); [intros [= <-]; exact Hwf |].
  intros H. simplify_option_eq. eauto 8 with chip8_wf.
Qed.

Lemma op_wait_key_wf opcode emu f : wf emu -> op_wait_key opcode emu = Some f -> wf (flow_emu f).
Proof.
  unfold op_wait_key. intros Hwf H.
  destruct (for_range 16 0 (scan_key opcode) (emu, false)) as [s |] eqn:Hl; [| discriminate].
  cbn [mbind option_bind] in H.
  assert (Hs : wf s.1).
  { revert Hl. apply (for_range_preserves (fun s => wf s.1)); [| exact Hwf].
    intros i s0 s' Hs0 Hb. eapply scan_key_wf; eassumption. }
  revert H. destruct s.2; intros [= <-]; simpl; [apply wf_advance |]; exact Hs.
Qed.

Lemma op_dump_wf opcode emu f : wf emu -> op_dump opcode emu = Some f -> wf (flow_emu f).
Proof.
  unfold op_dump. intros Hwf H.
  destruct (for_range _ _ _ _) as [m |] eqn:Hl; [| discriminate].
  cbn [mbind option_bind] in H.
  eapply next_wf; [exact H |]. apply wf_set_memory; [exact Hwf |].
  revert Hl. apply (for_range_preserves (array_ok 4096 256)).
  - intros i s s' Hs Hb. simplify_option_eq. eauto 8 with chip8_wf.
  - apply wf_memory_ok. exact Hwf.
Qed.

Lemma op_fill_wf opcode emu f : wf emu -> op_fill opcode emu = Some f -> wf (flow_emu f).
Proof.
  unfold op_fill. intros Hwf H.
  destruct (for_range _ _ _ _) as [r |] eqn:Hl; [| discriminate].
  cbn [mbind option_bind] in H.
  eapply next_wf; [exact H |]. apply wf_set_registers; [exact Hwf |].
  revert Hl. apply (for_range_preserves (array_ok 16 256)).
  - intros i s s' Hs Hb. simplify_option_eq. eauto 8 with chip8_wf.
  - apply wf_registers_ok. exact Hwf.
Qed.

(** Chooses the lemma of the handler that the switch selected. *)
Ltac handler_case Hwf He :=
  lazymatch type of He with
  | ?lhs = Some _ =>
      let h := head_of lhs in
      lazymatch h with
      | unknown => exact (unknown_wf _ _ _ _ He Hwf)
      | op_clear_screen => eapply op_clear_screen_wf; [exact Hwf | exact He]
      | op_return => eapply op_return_wf; [exact Hwf | exact He]
      | op_jump => eapply op_jump_wf; [exact Hwf | exact He]
      | op_call => eapply op_call_wf; [exact Hwf | exact He]
      | op_skip_eq_imm => eapply op_skip_eq_imm_wf; [exact Hwf | exact He]
      | op_skip_ne_imm => eapply op_skip_ne_imm_wf; [exact Hwf | exact He]
      | op_skip_eq => eapply op_skip_eq_wf; [exact Hwf | exact He]
      | op_load_imm => eapply op_load_imm_wf; [exact Hwf | exact He]
      | op_add_imm => eapply op_add_imm_wf; [exact Hwf | exact He]
      | op_assign => eapply op_assign_wf; [exact Hwf | exact He]
      | op_bitwise => eapply op_bitwise_wf; [exact Hwf | exact He]
      | op_add => eapply op_add_wf; [exact Hwf | exact He]
      | op_sub => eapply op_sub_wf; [exact Hwf | exact He]
      | op_shift_right => eapply op_shift_right_wf; [exact Hwf | exact He]
      | op_sub_reverse => eapply op_sub_reverse_wf; [exact Hwf | exact He]
      | op_shift_left => eapply op_shift_left_wf; [exact Hwf | exact He]
      | op_skip_ne => eapply op_skip_ne_wf; [exact Hwf | exact He]
      | op_set_index => eapply op_set_index_wf; [exact Hwf | exact He]
      | op_jump_offset => eapply op_jump_offset_wf; [exact Hwf | exact He]
      | op_random => eapply op_random_wf; [exact Hwf | exact He]
      | op_draw => eapply op_draw_wf; [exact Hwf | exact He]
      | op_skip_key => eapply op_skip_key_wf; [exact Hwf | exact He]
      | op_skip_not_key => eapply op_skip_not_key_wf; [exact Hwf | exact He]
      | op_get_delay => eapply op_get_delay_wf; [exact Hwf | exact He]
      | op_wait_key => eapply op_wait_key_wf; [exact Hwf | exact He]
      | op_set_delay => eapply op_set_delay_wf; [exact Hwf | exact He]
      | op_set_sound => eapply op_set_sound_wf; [exact Hwf | exact He]
      | op_add_index => eapply op_add_index_wf; [exact Hwf | exact He]
      | op_font => eapply op_font_wf; [exact Hwf | exact He]
      | op_bcd => eapply op_bcd_wf; [exact Hwf | exact He]
      | op_dump => eapply op_dump_wf; [exact Hwf | exact He]
      | op_fill => eapply op_fill_wf; [exact Hwf | exact He]
      end
  end.

Lemma execute_wf rnd opcode emu f :
  wf emu -> execute rnd opcode emu = Some f -> wf (flow_emu f).
Proof.
  intros Hwf. unfold execute.
  generalize (Z.land opcode 0xF000) (Z.land opcode 0x00FF) (Z.land opcode 0x000F).
  intros c s s8. switch_cases; intros He; handler_case Hwf He.
Qed.

Lemma tick_timers_wf emu : wf emu -> wf (tick_timers emu).1.
Proof.
  intros Hwf. unfold tick_timers.
  set (e1 := if delay_timer emu >? 0
             then set_delay_timer (u8 (delay_timer emu - 1)) emu else emu).
  assert (H1 : wf e1).
  { subst e1. destruct (delay_timer emu >? 0); [| exact Hwf].
    apply wf_set_delay_timer; [exact Hwf | apply u8_ok]. }
  destruct (sound_timer e1 >? 0); simpl; [| exact H1].
  apply wf_set_sound_timer; [exact H1 | apply u8_ok].
Qed.

(** X1.  A cycle that returns leaves a well-formed machine well-formed:
    every array keeps its length and every cell and scalar stays within
    its C type, whatever the instruction and whatever [rand ()] returns. *)
Theorem emulation_cycle_wf (rnd : Z) (emu emu' : emulator) (out : list event) :
  wf emu -> emulation_cycle rnd emu = Some (emu', out) -> wf emu'.
Proof.
  intros Hwf Hc. unfold emulation_cycle in Hc.
  destruct (fetch emu) as [opcode |]; [| discriminate]. simpl in Hc.
  destruct (execute rnd opcode emu) as [f |] eqn:He; [| discriminate]. simpl in Hc.
  pose proof (execute_wf rnd opcode emu f Hwf He) as Hf.
  destruct f as [e o | e]; simpl in Hf.
  - pose proof (tick_timers_wf e Hf) as Ht.
    destruct (tick_timers e) as [e1 beep]. injection Hc as <- _. exact Ht.
  - injection Hc as <- _. exact Hf.
Qed.

Lemma emulation_cycle_wf_witness :
  exists emu' out,
    emulation_cycle 0 add_carry_machine = Some (emu', out) /\ wf emu'.
Proof.
  eexists _, _. split; [vm_compute; reflexivity |].
  eapply (emulation_cycle_wf 0 add_carry_machine).
  - wf_by_evaluation.
  - vm_compute; reflexivity.
Defined.

(** ** Start-up keeps well-formedness *)

Lemma forallb_Forall (f : Z -> bool) (l : list Z) :
  forallb f l = true <-> Forall (fun x => f x = true) l.
Proof.
  induction l as [| x l IH]; simpl.
  - split; [constructor | reflexivity].
  - rewrite andb_true_iff, IH. split.
    + intros [Hx Hl]. constructor; assumption.
    + intros H. inversion H; subst. split; assumption.
Qed.

Lemma inserts_ok (n : nat) (b : Z) (i : nat) (k a : list Z) :
  forallb (in_range b) k = true -> array_ok n b a -> array_ok n b (list_inserts i k a).
Proof.
  intros Hk [Hlen Ha]. split.
  - rewrite length_inserts. exact Hlen.
  - apply forallb_Forall. apply Forall_inserts; apply forallb_Forall; assumption.
Qed.

Lemma init_wf (emu : emulator) : wf emu -> wf (init emu).
Proof.
  intros Hwf. unfold init.
  assert (H1 : wf (set_program_counter 0x200 emu))
    by (apply wf_set_program_counter; [exact Hwf | reflexivity]).
  apply wf_set_memory; [exact H1 |].
  apply inserts_ok; [reflexivity |]. apply wf_memory_ok. exact H1.
Qed.

Lemma load_rom_wf (emu : emulator) (file : rom_file) :
  wf emu -> rom_file_ok file -> wf (load_rom emu file).1.2.
Proof.
  intros Hwf Hfile. destruct file as [| contents delivered]; [exact Hwf |].
  simpl in Hfile. unfold load_rom, fread.
  destruct (Z.leb_spec (Z.of_nat (length contents)) (0xFFF - 0x200)) as [Hfit | _];
    [| exact Hwf].
  assert (Hmem : wf (set_memory
                       (list_inserts (Z.to_nat 0x200)
                          (take (Nat.min delivered (length contents)) contents)
                          (memory emu)) emu)).
  { apply wf_set_memory; [exact Hwf |].
    apply inserts_ok; [| apply wf_memory_ok; exact Hwf].
    apply forallb_Forall. apply Forall_take. apply forallb_Forall. exact Hfile. }
  destruct (length (take (Nat.min delivered (length contents)) contents)
            =? length contents)%nat.
  - cbn [fst snd]. apply wf_set_rom_size; [exact Hmem | apply u32_ok].
  - exact Hmem.
Qed.

Lemma handle_event_wf (st : bool * emulator) (ev : sdl_event) :
  wf st.2 -> wf (handle_event st ev).2.
Proof.
  destruct st as [running emu]. cbn [snd]. intros Hwf.
  assert (Hset : forall (k : nat) (v : Z), in_range 256 v = true ->
                   wf (set_keys (<[k := v]> (keys emu)) emu)).
  { intros k v Hv. apply wf_set_keys; [exact Hwf |].
    destruct (wf_keys_ok emu Hwf) as [Hlen Hall]. split.
    - rewrite length_insert. exact Hlen.
    - apply forallb_insert; assumption. }
  destruct ev as [| code | code |]; cbn [handle_event]; try exact Hwf.
  - destruct code; cbn [keypad snd]; first [exact Hwf | apply Hset; reflexivity].
  - destruct (keypad code); cbn [snd]; [apply Hset; reflexivity | exact Hwf].
Qed.

Lemma handle_input_wf (running : bool) (emu : emulator) (pending : list sdl_event) :
  wf emu -> wf (handle_input running emu pending).2.
Proof.
  unfold handle_input. change emu with ((running, emu).2) at 1.
  generalize (running, emu). induction pending as [| ev pending IH]; intros st Hwf.
  - exact Hwf.
  - simpl. apply IH. apply handle_event_wf. exact Hwf.
Qed.

(** X2.  Start-up gives a well-formed machine: [init] of a well-formed
    machine (the zeroed one in particular) followed by [load_rom] of a
    file of bytes is well-formed, whether the load succeeds, is refused
    or stops early; and [handle_input] keeps a machine well-formed. *)
Theorem startup_wf (emu : emulator) (file : rom_file) :
  wf emu -> rom_file_ok file ->
  wf (load_rom (init emu) file).1.2 /\
  forall running pending,
    wf (handle_input running (load_rom (init emu) file).1.2 pending).2.
Proof.
  intros Hwf Hfile.
  assert (Hl : wf (load_rom (init emu) file).1.2).
  { apply load_rom_wf; [apply init_wf; exact Hwf | exact Hfile]. }
  split; [exact Hl |]. intros running pending. apply handle_input_wf. exact Hl.
Qed.

Lemma startup_wf_witness :
  wf (load_rom (init zero_emulator) short_read).1.2 /\
  wf (handle_input true (load_rom (init zero_emulator) short_read).1.2
        [SDL_KEYDOWN SDLK_q; SDL_KEYUP SDLK_q]).2.
Proof.
  destruct (startup_wf zero_emulator short_read) as [Hl Hi].
  - wf_by_evaluation.
  - reflexivity.
  - split; [exact Hl | apply Hi].
Defined.

(** ** What a cycle leaves alone *)

Ltac frame_fields :=
  unfold frame; cbn [flow_emu]; simpl; repeat apply conj; intros;
  try discriminate; try reflexivity; try assumption;
  try (repeat apply conj; first [reflexivity | assumption]).

Lemma next_frame m s g t i emu e f :
  next e = Some f -> frame m s g t i emu (Break e []) -> frame m s g t i emu f.
Proof. intros [= <-] H. exact H. Qed.

Lemma skip_if_frame c emu f :
  skip_if c emu = Some f -> frame false false false false false emu f.
Proof. intros [= <-]. frame_fields. intros []. Qed.

Lemma unknown_frame m s g t i class opcode emu f :
  unknown class opcode emu = Some f -> frame m s g t i emu f.
Proof.
  intros [= <-]. frame_fields. intros [H | []]. discriminate H.
Qed.

Ltac handler_frame :=
  let H := fresh "H" in
  intros H; simplify_option_eq;
  first [ eapply skip_if_frame; eassumption
        | eapply next_frame; [eassumption |]; frame_fields; intros []
        | frame_fields; intros [] ].

Lemma op_skip_eq_imm_frame opcode emu f :
  op_skip_eq_imm opcode emu = Some f -> frame false false false false false emu f.
Proof. unfold op_skip_eq_imm. handler_frame. Qed.

Lemma op_skip_ne_imm_frame opcode emu f :
  op_skip_ne_imm opcode emu = Some f -> frame false false false false false emu f.
Proof. unfold op_skip_ne_imm. handler_frame. Qed.

Lemma op_skip_eq_frame opcode emu f :
  op_skip_eq opcode emu = Some f -> frame false false false false false emu f.
Proof. unfold op_skip_eq. handler_frame. Qed.

Lemma op_load_imm_frame opcode emu f :
  op_load_imm opcode emu = Some f -> frame false false false false false emu f.
Proof. unfold op_load_imm. handler_frame. Qed.

Lemma op_add_imm_frame opcode emu f :
  op_add_imm opcode emu = Some f -> frame false false false false false emu f.
Proof. unfold op_add_imm. handler_frame. Qed.

Lemma op_assign_frame opcode emu f :
  op_assign opcode emu = Some f -> frame false false false false false emu f.
Proof. unfold op_assign. handler_frame. Qed.

Lemma op_add_frame opcode emu f :
  op_add opcode emu = Some f -> frame false false false false false emu f.
Proof. unfold op_add. handler_frame. Qed.

Lemma op_sub_frame opcode emu f :
  op_sub opcode emu = Some f -> frame false false false false false emu f.
Proof. unfold op_sub. handler_frame. Qed.

Lemma op_shift_right_frame opcode emu f :
  op_shift_right opcode emu = Some f -> frame false false false false false emu f.
Proof. unfold op_shift_right. handler_frame. Qed.

Lemma op_sub_reverse_frame opcode emu f :
  op_sub_reverse opcode emu = Some f -> frame false false false false false emu f.
Proof. unfold op_sub_reverse. handler_frame. Qed.

Lemma op_shift_left_frame opcode emu f :
  op_shift_left opcode emu = Some f -> frame false false false false false emu f.
Proof. unfold op_shift_left. handler_frame. Qed.

Lemma op_skip_ne_frame opcode emu f :
  op_skip_ne opcode emu = Some f -> frame false false false false false emu f.
Proof. unfold op_skip_ne. handler_frame. Qed.

Lemma op_jump_offset_frame opcode emu f :
  op_jump_offset opcode emu = Some f -> frame false false false false false emu f.
Proof. unfold op_jump_offset. handler_frame. Qed.

Lemma op_skip_key_frame opcode emu f :
  op_skip_key opcode emu = Some f -> frame false false false false false emu f.
Proof. unfold op_skip_key. handler_frame. Qed.

Lemma op_skip_not_key_frame opcode emu f :
  op_skip_not_key opcode emu = Some f -> frame false false false false false emu f.
Proof. unfold op_skip_not_key. handler_frame. Qed.

Lemma op_get_delay_frame opcode emu f :
  op_get_delay opcode emu = Some f -> frame false false false false false emu f.
Proof. unfold op_get_delay. handler_frame. Qed.

Lemma op_fill_frame opcode emu f :
  op_fill opcode emu = Some f -> frame false false false false false emu f.
Proof. unfold op_fill. handler_frame. Qed.

Lemma op_jump_frame opcode emu f :
  op_jump opcode emu = Some f -> frame false false false false false emu f.
Proof. unfold op_jump. handler_frame. Qed.

Lemma op_set_index_frame opcode emu f :
  op_set_index opcode emu = Some f -> frame false false false false true emu f.
Proof. unfold op_set_index. handler_frame. Qed.

Lemma op_add_index_frame opcode emu f :
  op_add_index opcode emu = Some f -> frame false false false false true emu f.
Proof. unfold op_add_index. handler_frame. Qed.

Lemma op_font_frame opcode emu f :
  op_font opcode emu = Some f -> frame false false false false true emu f.
Proof. unfold op_font. handler_frame. Qed.

Lemma op_set_delay_frame opcode emu f :
  op_set_delay opcode emu = Some f -> frame false false false true false emu f.
Proof. unfold op_set_delay. handler_frame. Qed.

Lemma op_set_sound_frame opcode emu f :
  op_set_sound opcode emu = Some f -> frame false false false true false emu f.
Proof. unfold op_set_sound. handler_frame. Qed.

Lemma op_bcd_frame opcode emu f :
  op_bcd opcode emu = Some f -> frame true false false false false emu f.
Proof. unfold op_bcd. handler_frame. Qed.

Lemma op_dump_frame opcode emu f :
  op_dump opcode emu = Some f -> frame true false false false false emu f.
Proof. unfold op_dump. handler_frame. Qed.

Lemma op_call_frame opcode emu f :
  op_call opcode emu = Some f -> frame false true false false false emu f.
Proof. unfold op_call. handler_frame. Qed.

Lemma op_return_frame emu f :
  op_return emu = Some f -> frame false true false false false emu f.
Proof. unfold op_return. handler_frame. Qed.

Lemma op_bitwise_frame op opcode emu f :
  op_bitwise op opcode emu = Some f -> frame false false false false false emu f.
Proof. unfold op_bitwise. handler_frame. Qed.

Lemma op_random_frame rnd opcode emu f :
  op_random rnd opcode emu = Some f -> frame false false false false false emu f.
Proof. unfold op_random. handler_frame. Qed.

Lemma op_clear_screen_frame emu f :
  op_clear_screen emu = Some f -> frame false false true false false emu f.
Proof. unfold op_clear_screen. handler_frame. Qed.

Lemma agree_outside_display_refl emu : agree_outside_display emu emu.
Proof. unfold agree_outside_display. repeat apply conj; reflexivity. Qed.

Lemma agree_outside_display_trans emu e1 e2 :
  agree_outside_display emu e1 -> agree_outside_display e1 e2 ->
  agree_outside_display emu e2.
Proof.
  unfold agree_outside_display. intros H1 H2.
  destruct H1 as (? & ? & ? & ? & ? & ? & ? & ? & ? & ?).
  destruct H2 as (? & ? & ? & ? & ? & ? & ? & ? & ? & ?).
  repeat apply conj; congruence.
Qed.

Lemma draw_bit_agree vx vy row y x emu emu' :
  draw_bit vx vy row y x emu = Some emu' -> agree_outside_display emu emu'.
Proof.
  unfold draw_bit. cbv zeta.
  destruct (u8 (Z.land row (Z.shiftr 0x80 x)) =? 0).
  - intros [= <-]. apply agree_outside_display_refl.
  - intros H. simplify_option_eq; unfold agree_outside_display; simpl;
      repeat apply conj; reflexivity.
Qed.

Lemma draw_row_agree vx vy y emu emu' :
  draw_row vx vy y emu = Some emu' -> agree_outside_display emu emu'.
Proof.
  unfold draw_row. intros H.
  destruct (load (memory emu) (index_register emu + y)) as [row |]; [| discriminate].
  cbn [mbind option_bind] in H. revert H.
  apply (for_range_preserves (agree_outside_display emu)).
  - intros i s s' Hs Hb. apply draw_bit_agree in Hb.
    eapply agree_outside_display_trans; eassumption.
  - apply agree_outside_display_refl.
Qed.

Lemma draw_rows_agree vx vy n i emu emu' :
  for_range n i (draw_row vx vy) emu = Some emu' -> agree_outside_display emu emu'.
Proof.
  apply (for_range_preserves (agree_outside_display emu)).
  - intros j s s' Hs Hb. apply draw_row_agree in Hb.
    eapply agree_outside_display_trans; eassumption.
  - apply agree_outside_display_refl.
Qed.

Lemma op_draw_frame opcode emu f :
  op_draw opcode emu = Some f -> frame false false true false false emu f.
Proof.
  unfold op_draw. intros H.
  destruct (load (registers emu) (Z.shiftr (Z.land opcode 0x0F00) 8)) as [vx |];
    [| discriminate].
  cbn [mbind option_bind] in H.
  destruct (load (registers emu) (Z.shiftr (Z.land opcode 0x00F0) 4)) as [vy |];
    [| discriminate].
  cbn [mbind option_bind] in H. cbv zeta in H.
  destruct (store (registers emu) 0xF 0) as [r |]; [| discriminate].
  cbn [mbind option_bind] in H.
  destruct (for_range _ _ _ _) as [e |] eqn:Hl; [| discriminate].
  cbn [mbind option_bind] in H. injection H as <-.
  apply draw_rows_agree in Hl.
  destruct Hl as (Hm & Hrs & Hi & Hp & Hd & Hdt & Hst & Hs & Hsp & Hk).
  simpl in *. unfold frame. cbn [flow_emu]. simpl.
  repeat apply conj; intros; try discriminate; try assumption; try reflexivity;
    try (split; assumption).
  intros [].
Qed.

Lemma scan_key_agree opcode i s s' :
  scan_key opcode i s = Some s' ->
  agree_outside_display s.1 s'.1 /\ gfx s'.1 = gfx s.1.
Proof.
  unfold scan_key. intros H.
  destruct (load (keys s.1) i) as [k |]; [| discriminate].
  cbn [mbind option_bind] in H. revert H.
  destruct (k =? 0).
  - intros [= <-]. split; [apply agree_outside_display_refl | reflexivity].
  - intros H. simplify_option_eq. split; [| reflexivity].
    unfold agree_outside_display. simpl. repeat apply conj; reflexivity.
Qed.

Lemma scan_key_idle opcode i s s' :
  scan_key opcode i s = Some s' -> s'.2 = false -> s' = s.
Proof.
  unfold scan_key. intros H.
  destruct (load (keys s.1) i) as [k |]; [| discriminate].
  cbn [mbind option_bind] in H. revert H.
  destruct (k =? 0).
  - intros [= <-] _. reflexivity.
  - intros H. simplify_option_eq. discriminate.
Qed.

Lemma op_wait_key_frame opcode emu f :
  op_wait_key opcode emu = Some f -> frame false false false false false emu f.
Proof.
  unfold op_wait_key. intros H.
  destruct (for_range 16 0 (scan_key opcode) (emu, false)) as [s |] eqn:Hl; [| discriminate].
  cbn [mbind option_bind] in H.
  assert (Hs : (agree_outside_display emu s.1 /\ gfx s.1 = gfx emu) /\
               (s.2 = false -> s = (emu, false))).
  { revert Hl.
    apply (for_range_preserves
             (fun s => (agree_outside_display emu s.1 /\ gfx s.1 = gfx emu) /\
                       (s.2 = false -> s = (emu, false)))).
    - intros i s0 s' [[Ha Hg] Hidle] Hb. split.
      + apply scan_key_agree in Hb as [Ha' Hg']. split.
        * eapply agree_outside_display_trans; eassumption.
        * congruence.
      + intros Hs'. pose proof (scan_key_idle _ _ _ _ Hb Hs') as ->.
        apply Hidle. exact Hs'.
    - split; [split; [apply agree_outside_display_refl | reflexivity] | reflexivity]. }
  destruct Hs as [[(Hm & Hrs & Hi & Hp & Hd & Hdt & Hst & Hsk & Hsp & Hk) Hg] Hidle].
  revert H. destruct s.2 eqn:Hkp; intros [= <-]; unfold frame; cbn [flow_emu]; simpl;
    repeat apply conj; intros; try assumption; try congruence;
    try (split; assumption).
  rewrite (Hidle eq_refl). reflexivity.
Qed.

(** Chooses the frame lemma of the handler that the switch selected. *)
Ltac handler_frame_case He :=
  lazymatch type of He with
  | ?lhs = Some _ =>
      let h := head_of lhs in
      lazymatch h with
      | unknown => exact (unknown_frame _ _ _ _ _ _ _ _ _ He)
      | op_clear_screen => exact (op_clear_screen_frame _ _ He)
      | op_return => exact (op_return_frame _ _ He)
      | op_jump => exact (op_jump_frame _ _ _ He)
      | op_call => exact (op_call_frame _ _ _ He)
      | op_skip_eq_imm => exact (op_skip_eq_imm_frame _ _ _ He)
      | op_skip_ne_imm => exact (op_skip_ne_imm_frame _ _ _ He)
      | op_skip_eq => exact (op_skip_eq_frame _ _ _ He)
      | op_load_imm => exact (op_load_imm_frame _ _ _ He)
      | op_add_imm => exact (op_add_imm_frame _ _ _ He)
      | op_assign => exact (op_assign_frame _ _ _ He)
      | op_bitwise => exact (op_bitwise_frame _ _ _ _ He)
      | op_add => exact (op_add_frame _ _ _ He)
      | op_sub => exact (op_sub_frame _ _ _ He)
      | op_shift_right => exact (op_shift_right_frame _ _ _ He)
      | op_sub_reverse => exact (op_sub_reverse_frame _ _ _ He)
      | op_shift_left => exact (op_shift_left_frame _ _ _ He)
      | op_skip_ne => exact (op_skip_ne_frame _ _ _ He)
      | op_set_index => exact (op_set_index_frame _ _ _ He)
      | op_jump_offset => exact (op_jump_offset_frame _ _ _ He)
      | op_random => exact (op_random_frame _ _ _ _ He)
      | op_draw => exact (op_draw_frame _ _ _ He)
      | op_skip_key => exact (op_skip_key_frame _ _ _ He)
      | op_skip_not_key => exact (op_skip_not_key_frame _ _ _ He)
      | op_get_delay => exact (op_get_delay_frame _ _ _ He)
      | op_wait_key => exact (op_wait_key_frame _ _ _ He)
      | op_set_delay => exact (op_set_delay_frame _ _ _ He)
      | op_set_sound => exact (op_set_sound_frame _ _ _ He)
      | op_add_index => exact (op_add_index_frame _ _ _ He)
      | op_font => exact (op_font_frame _ _ _ He)
      | op_bcd => exact (op_bcd_frame _ _ _ He)
      | op_dump => exact (op_dump_frame _ _ _ He)
      | op_fill => exact (op_fill_frame _ _ _ He)
      end
  end.

Lemma execute_frame rnd opcode emu f :
  execute rnd opcode emu = Some f ->
  frame (writes_memory opcode) (writes_stack opcode) (writes_gfx opcode)
    (writes_timers opcode) (writes_index opcode) emu f.
Proof.
  unfold execute, writes_memory, writes_stack, writes_gfx, writes_timers, writes_index.
  generalize (Z.land opcode 0xF000) (Z.land opcode 0x00FF) (Z.land opcode 0x000F).
  intros c s s8. switch_cases; intros He; handler_frame_case He.
Qed.

Lemma cycle_inv (rnd : Z) (emu emu' : emulator) (out : list event) :
  emulation_cycle rnd emu = Some (emu', out) ->
  exists opcode f,
    fetch emu = Some opcode /\ execute rnd opcode emu = Some f /\
    match f with
    | Break e o => emu' = (tick_timers e).1 /\ out = o ++ (tick_timers e).2
    | Return e => emu' = e /\ out = []
    end.
Proof.
  intros Hc. unfold emulation_cycle in Hc.
  destruct (fetch emu) as [opcode |] eqn:Hf; [| discriminate]. simpl in Hc.
  destruct (execute rnd opcode emu) as [f |] eqn:He; [| discriminate]. simpl in Hc.
  exists opcode, f. split; [reflexivity |]. split; [exact He |].
  destruct f as [e o | e].
  - destruct (tick_timers e) as [e1 beep]. injection Hc as <- <-. split; reflexivity.
  - injection Hc as <- <-. split; reflexivity.
Qed.

(** X3.  A cycle that stays within the arrays of the machine (every read
    and write in bounds, so that the cycle returns a machine) does not
    write the keys or the recorded image length, and does not clear a
    draw flag that is set. *)
Theorem cycle_keeps_keys (rnd : Z) (emu emu' : emulator) (out : list event) :
  emulation_cycle rnd emu = Some (emu', out) ->
  keys emu' = keys emu /\ rom_size emu' = rom_size emu /\
  (draw_flag emu = true -> draw_flag emu' = true).
Proof.
  intros Hc. apply cycle_inv in Hc as (opcode & f & _ & He & Hf).
  apply execute_frame in He. destruct He as (Hk & Hr & Hd & _).
  destruct f as [e o | e]; cbn [flow_emu] in *.
  - destruct Hf as [-> _].
    destruct (tick_timers_frame e) as (_ & Hr' & _ & _ & _ & _ & Hd' & _ & _ & Hk').
    rewrite Hk', Hr', Hd'. repeat apply conj; assumption.
  - destruct Hf as [-> _]. repeat apply conj; assumption.
Qed.

Lemma cycle_keeps_keys_witness :
  exists emu' out,
    emulation_cycle 0 wait_key_machine = Some (emu', out) /\
    keys emu' = keys wait_key_machine.
Proof.
  eexists _, _. split; [vm_compute; reflexivity |].
  eapply (cycle_keeps_keys 0 wait_key_machine). vm_compute; reflexivity.
Defined.

(** X4.  A cycle that stays within the arrays of the machine (every read
    and write in bounds, so that the cycle returns a machine) writes the
    memory only when it executes FX33 or FX55, the call stack and its
    pointer only for 2NNN or 00EE, the framebuffer and the draw flag only
    for 00E0 or DXYN, and the index register only for ANNN, FX1E or
    FX29. *)
Theorem cycle_writes_by_instruction (rnd : Z) (emu : emulator) (opcode : Z)
    (emu' : emulator) (out : list event) :
  fetch emu = Some opcode ->
  emulation_cycle rnd emu = Some (emu', out) ->
  (writes_memory opcode = false -> memory emu' = memory emu) /\
  (writes_stack opcode = false ->
   stack emu' = stack emu /\ stack_ptr emu' = stack_ptr emu) /\
  (writes_gfx opcode = false ->
   gfx emu' = gfx emu /\ draw_flag emu' = draw_flag emu) /\
  (writes_index opcode = false -> index_register emu' = index_register emu).
Proof.
  intros Hf Hc. apply cycle_inv in Hc as (opcode' & f & Hf' & He & Hfl).
  rewrite Hf in Hf'. injection Hf' as <-.
  apply execute_frame in He. destruct He as (_ & _ & _ & Hm & Hs & Hg & _ & Hi & _).
  assert (Hsame : memory emu' = memory (flow_emu f) /\ stack emu' = stack (flow_emu f) /\
                  stack_ptr emu' = stack_ptr (flow_emu f) /\ gfx emu' = gfx (flow_emu f) /\
                  draw_flag emu' = draw_flag (flow_emu f) /\
                  index_register emu' = index_register (flow_emu f)).
  { destruct f as [e o | e]; cbn [flow_emu]; destruct Hfl as [-> _].
    - destruct (tick_timers_frame e) as (H1 & _ & _ & H2 & _ & H3 & H4 & H5 & H6 & _).
      repeat apply conj; assumption.
    - repeat apply conj; reflexivity. }
  destruct Hsame as (E1 & E2 & E3 & E4 & E5 & E6).
  rewrite E1, E2, E3, E4, E5, E6. repeat apply conj; assumption.
Qed.

Lemma cycle_writes_by_instruction_witness :
  exists emu' out,
    emulation_cycle 0 add_carry_machine = Some (emu', out) /\
    memory emu' = memory add_carry_machine /\
    stack emu' = stack add_carry_machine /\
    gfx emu' = gfx add_carry_machine /\
    index_register emu' = index_register add_carry_machine.
Proof.
  eexists _, _. split; [vm_compute; reflexivity |].
  destruct (cycle_writes_by_instruction 0 add_carry_machine 0x8014 _ _
              ltac:(vm_compute; reflexivity) ltac:(vm_compute; reflexivity))
    as (Hm & Hs & Hg & Hi).
  repeat apply conj.
  - apply Hm. reflexivity.
  - apply Hs. reflexivity.
  - apply Hg. reflexivity.
  - apply Hi. reflexivity.
Defined.

Lemma tick_timers_values (e : emulator) :
  in_range 256 (delay_timer e) = true -> in_range 256 (sound_timer e) = true ->
  delay_timer (tick_timers e).1 = Z.max 0 (delay_timer e - 1) /\
  sound_timer (tick_timers e).1 = Z.max 0 (sound_timer e - 1) /\
  (tick_timers e).2 = (if sound_timer e =? 1 then [Print_beep] else []).
Proof.
  intros Hd Hs. apply in_range_spec in Hd, Hs. unfold tick_timers.
  set (e1 := if delay_timer e >? 0
             then set_delay_timer (u8 (delay_timer e - 1)) e else e).
  assert (H1 : delay_timer e1 = Z.max 0 (delay_timer e - 1) /\
               sound_timer e1 = sound_timer e).
  { subst e1. destruct (Z.gtb_spec (delay_timer e) 0); cbn [delay_timer sound_timer
      set_delay_timer]; [rewrite u8_small by lia |]; split; first [lia | reflexivity]. }
  destruct H1 as [H1 H2].
  destruct (Z.gtb_spec (sound_timer e1) 0) as [Hp | Hn];
    cbn [fst snd delay_timer sound_timer set_sound_timer]; rewrite ?H1, ?H2 in *.
  - rewrite u8_small by lia. repeat apply conj; first [lia | reflexivity].
  - destruct (Z.eqb_spec (sound_timer e) 1); [lia |].
    repeat apply conj; first [lia | reflexivity].
Qed.



(** ** Where a cycle can leave its arrays *)

Lemma load_in_bounds (a : list Z) (i : Z) :
  0 <= i < Z.of_nat (length a) -> exists v, load a i = Some v.
Proof.
  intros Hi. rewrite load_lookup by lia.
  apply lookup_lt_is_Some_2. lia.
Qed.

Lemma load_out_of_bounds (a : list Z) (i : Z) :
  i < 0 \/ Z.of_nat (length a) <= i -> load a i = None.
Proof.
  intros Hi. destruct (load a i) as [v |] eqn:Hl; [| reflexivity].
  apply load_Some in Hl. lia.
Qed.

Lemma store_out_of_bounds (a : list Z) (i v : Z) :
  i < 0 \/ Z.of_nat (length a) <= i -> store a i v = None.
Proof.
  intros Hi. destruct (store a i v) as [a' |] eqn:Hs; [| reflexivity].
  apply store_Some in Hs. lia.
Qed.

Lemma register_index_x (opcode : Z) (n : nat) :
  n = 16%nat -> 0 <= Z.shiftr (Z.land opcode 0x0F00) 8 < Z.of_nat n.
Proof. intros ->. exact (VX_range opcode). Qed.

Lemma register_index_y (opcode : Z) (n : nat) :
  n = 16%nat -> 0 <= Z.shiftr (Z.land opcode 0x00F0) 4 < Z.of_nat n.
Proof. intros ->. exact (VY_range opcode). Qed.

Lemma register_index_u8 (opcode : Z) (n : nat) :
  n = 16%nat -> 0 <= u8 (Z.shiftr (Z.land opcode 0x0F00) 8) < Z.of_nat n.
Proof.
  intros ->. pose proof (VX_range opcode) as H. unfold VX in H.
  rewrite u8_small by lia. exact H.
Qed.

Lemma register_index_const (c : Z) (n : nat) :
  n = 16%nat -> 0 <= c < 16 -> 0 <= c < Z.of_nat n.
Proof. intros -> H. exact H. Qed.

Ltac register_index Hwf :=
  first [ apply register_index_x | apply register_index_y | apply register_index_u8
        | apply register_index_const; [| lia] ];
  rewrite ?length_insert; exact (wf_registers_length _ Hwf).

(** Runs a handler made of register loads and stores. *)
Ltac handler_total Hwf :=
  cbv zeta;
  repeat first
    [ match goal with
      | |- context [load ?a ?i] =>
          let v := fresh "v" in
          let Hv := fresh "Hv" in
          destruct (load_in_bounds a i) as [v Hv];
          [ register_index Hwf | rewrite Hv; cbn [mbind option_bind] ]
      end
    | match goal with
      | |- context [store ?a ?i ?v] =>
          rewrite (store_in a i v) by register_index Hwf; cbn [mbind option_bind]
      end ];
  eexists; reflexivity.

Lemma op_skip_eq_imm_total opcode emu : wf emu -> exists f, op_skip_eq_imm opcode emu = Some f.
Proof. intros Hwf. unfold op_skip_eq_imm. handler_total Hwf. Qed.

Lemma op_skip_ne_imm_total opcode emu : wf emu -> exists f, op_skip_ne_imm opcode emu = Some f.
Proof. intros Hwf. unfold op_skip_ne_imm. handler_total Hwf. Qed.

Lemma op_skip_eq_total opcode emu : wf emu -> exists f, op_skip_eq opcode emu = Some f.
Proof. intros Hwf. unfold op_skip_eq. handler_total Hwf. Qed.

Lemma op_load_imm_total opcode emu : wf emu -> exists f, op_load_imm opcode emu = Some f.
Proof. intros Hwf. unfold op_load_imm. handler_total Hwf. Qed.

Lemma op_add_imm_total opcode emu : wf emu -> exists f, op_add_imm opcode emu = Some f.
Proof. intros Hwf. unfold op_add_imm. handler_total Hwf. Qed.

Lemma op_assign_total opcode emu : wf emu -> exists f, op_assign opcode emu = Some f.
Proof. intros Hwf. unfold op_assign. handler_total Hwf. Qed.

Lemma op_add_total opcode emu : wf emu -> exists f, op_add opcode emu = Some f.
Proof. intros Hwf. unfold op_add. handler_total Hwf. Qed.

Lemma op_sub_total opcode emu : wf emu -> exists f, op_sub opcode emu = Some f.
Proof. intros Hwf. unfold op_sub. handler_total Hwf. Qed.

Lemma op_shift_right_total opcode emu : wf emu -> exists f, op_shift_right opcode emu = Some f.
Proof. intros Hwf. unfold op_shift_right. handler_total Hwf. Qed.

Lemma op_sub_reverse_total opcode emu : wf emu -> exists f, op_sub_reverse opcode emu = Some f.
Proof. intros Hwf. unfold op_sub_reverse. handler_total Hwf. Qed.

Lemma op_shift_left_total opcode emu : wf emu -> exists f, op_shift_left opcode emu = Some f.
Proof. intros Hwf. unfold op_shift_left. handler_total Hwf. Qed.

Lemma op_skip_ne_total opcode emu : wf emu -> exists f, op_skip_ne opcode emu = Some f.
Proof. intros Hwf. unfold op_skip_ne. handler_total Hwf. Qed.

Lemma op_set_index_total opcode emu : wf emu -> exists f, op_set_index opcode emu = Some f.
Proof. intros Hwf. unfold op_set_index. handler_total Hwf. Qed.

Lemma op_jump_offset_total opcode emu : wf emu -> exists f, op_jump_offset opcode emu = Some f.
Proof. intros Hwf. unfold op_jump_offset. handler_total Hwf. Qed.

Lemma op_get_delay_total opcode emu : wf emu -> exists f, op_get_delay opcode emu = Some f.
Proof. intros Hwf. unfold op_get_delay. handler_total Hwf. Qed.

Lemma op_set_delay_total opcode emu : wf emu -> exists f, op_set_delay opcode emu = Some f.
Proof. intros Hwf. unfold op_set_delay. handler_total Hwf. Qed.

Lemma op_set_sound_total opcode emu : wf emu -> exists f, op_set_sound opcode emu = Some f.
Proof. intros Hwf. unfold op_set_sound. handler_total Hwf. Qed.

Lemma op_add_index_total opcode emu : wf emu -> exists f, op_add_index opcode emu = Some f.
Proof. intros Hwf. unfold op_add_index. handler_total Hwf. Qed.

Lemma op_font_total opcode emu : wf emu -> exists f, op_font opcode emu = Some f.
Proof. intros Hwf. unfold op_font. handler_total Hwf. Qed.

Lemma op_jump_total opcode emu : wf emu -> exists f, op_jump opcode emu = Some f.
Proof. intros Hwf. unfold op_jump. handler_total Hwf. Qed.

Lemma op_bitwise_total op opcode emu : wf emu -> exists f, op_bitwise op opcode emu = Some f.
Proof. intros Hwf. unfold op_bitwise. handler_total Hwf. Qed.

Lemma op_random_total rnd opcode emu : wf emu -> exists f, op_random rnd opcode emu = Some f.
Proof. intros Hwf. unfold op_random. handler_total Hwf. Qed.

Lemma store_loop_total (v : Z) (k : nat) :
  forall (i : Z) (a : list Z),
    0 <= i -> i + Z.of_nat k <= Z.of_nat (length a) ->
    exists a', for_range k i (fun j g => store g j v) a = Some a'.
Proof.
  induction k as [| k IH]; intros i a Hi Hk.
  - eexists. reflexivity.
  - rewrite for_range_S. rewrite store_in by lia. cbn [mbind option_bind].
    apply IH; [lia |]. rewrite length_insert. lia.
Qed.

Lemma op_clear_screen_total emu : wf emu -> exists f, op_clear_screen emu = Some f.
Proof.
  intros Hwf. unfold op_clear_screen.
  destruct (store_loop_total 0 (Z.to_nat (64 * 32)) 0 (gfx emu)) as [g Hg].
  - lia.
  - destruct (wf_gfx_ok emu Hwf) as [Hlen _]. rewrite Hlen. reflexivity.
  - rewrite Hg. eexists. reflexivity.
Qed.

Lemma scan_key_total opcode i s :
  wf s.1 -> 0 <= i < 16 -> exists s', scan_key opcode i s = Some s'.
Proof.
  intros Hwf Hi. unfold scan_key.
  destruct (load_in_bounds (keys s.1) i) as [k Hk].
  - rewrite (wf_keys_length _ Hwf). exact Hi.
  - rewrite Hk. cbn [mbind option_bind]. destruct (k =? 0); [eexists; reflexivity |].
    rewrite store_in.
    + eexists. reflexivity.
    + rewrite (wf_registers_length _ Hwf). exact (VX_range opcode).
Qed.

Lemma scan_loop_total opcode (n : nat) :
  forall (i : Z) (s : emulator * bool),
    wf s.1 -> 0 <= i -> i + Z.of_nat n <= 16 ->
    exists s', for_range n i (scan_key opcode) s = Some s'.
Proof.
  induction n as [| n IH]; intros i s Hwf Hi Hn.
  - eexists. reflexivity.
  - rewrite for_range_S.
    destruct (scan_key_total opcode i s Hwf) as [s1 H1]; [lia |].
    rewrite H1. cbn [mbind option_bind].
    apply IH; [eapply scan_key_wf; eassumption | lia | lia].
Qed.

Lemma op_wait_key_total opcode emu : wf emu -> exists f, op_wait_key opcode emu = Some f.
Proof.
  intros Hwf. unfold op_wait_key.
  destruct (scan_loop_total opcode 16 0 (emu, false) Hwf) as [s Hs]; [lia | lia |].
  rewrite Hs. cbn [mbind option_bind]. destruct s.2; eexists; reflexivity.
Qed.

(** Chooses the totality lemma of the handler that the switch selected;
    the handlers that may leave an array are excluded by [Hmf]. *)
Ltac handler_total_case Hwf Hmf :=
  lazymatch goal with
  | |- exists _, ?lhs = Some _ =>
      let h := head_of lhs in
      lazymatch h with
      | unknown => eexists; reflexivity
      | op_clear_screen => exact (op_clear_screen_total _ Hwf)
      | op_jump => exact (op_jump_total _ _ Hwf)
      | op_skip_eq_imm => exact (op_skip_eq_imm_total _ _ Hwf)
      | op_skip_ne_imm => exact (op_skip_ne_imm_total _ _ Hwf)
      | op_skip_eq => exact (op_skip_eq_total _ _ Hwf)
      | op_load_imm => exact (op_load_imm_total _ _ Hwf)
      | op_add_imm => exact (op_add_imm_total _ _ Hwf)
      | op_assign => exact (op_assign_total _ _ Hwf)
      | op_bitwise => exact (op_bitwise_total _ _ _ Hwf)
      | op_add => exact (op_add_total _ _ Hwf)
      | op_sub => exact (op_sub_total _ _ Hwf)
      | op_shift_right => exact (op_shift_right_total _ _ Hwf)
      | op_sub_reverse => exact (op_sub_reverse_total _ _ Hwf)
      | op_shift_left => exact (op_shift_left_total _ _ Hwf)
      | op_skip_ne => exact (op_skip_ne_total _ _ Hwf)
      | op_set_index => exact (op_set_index_total _ _ Hwf)
      | op_jump_offset => exact (op_jump_offset_total _ _ Hwf)
      | op_random => exact (op_random_total _ _ _ Hwf)
      | op_get_delay => exact (op_get_delay_total _ _ Hwf)
      | op_wait_key => exact (op_wait_key_total _ _ Hwf)
      | op_set_delay => exact (op_set_delay_total _ _ Hwf)
      | op_set_sound => exact (op_set_sound_total _ _ Hwf)
      | op_add_index => exact (op_add_index_total _ _ Hwf)
      | op_font => exact (op_font_total _ _ Hwf)
      | _ => simpl in Hmf; discriminate Hmf
      end
  end.

Lemma execute_total rnd opcode emu :
  wf emu -> may_fault opcode = false -> exists f, execute rnd opcode emu = Some f.
Proof.
  intros Hwf. unfold execute, may_fault.
  generalize (Z.land opcode 0xF000) (Z.land opcode 0x00FF) (Z.land opcode 0x000F).
  intros c s s8. switch_cases; intros Hmf; handler_total_case Hwf Hmf.
Qed.

(** X6.  On a well-formed machine whose program counter is within the
    memory, a cycle stays within its arrays (it returns a machine) for
    every instruction word other than 00EE, 2NNN, DXYN, EX9E, EXA1, FX33,
    FX55 and FX65, unknown words included. *)
Theorem cycle_in_bounds (rnd : Z) (emu : emulator) (opcode : Z) :
  wf emu ->
  fetch emu = Some opcode ->
  may_fault opcode = false ->
  exists emu' out, emulation_cycle rnd emu = Some (emu', out).
Proof.
  intros Hwf Hf Hmf.
  destruct (execute_total rnd opcode emu Hwf Hmf) as [f He].
  destruct f as [e o | e].
  - eexists _, _. exact (cycle_break _ _ _ _ _ Hf He).
  - eexists _, _. exact (cycle_return _ _ _ _ Hf He).
Qed.

Lemma cycle_in_bounds_witness :
  exists emu' out, emulation_cycle 0 unknown_machine = Some (emu', out).
Proof.
  apply (cycle_in_bounds 0 unknown_machine 0).
  - wf_by_evaluation.
  - vm_compute; reflexivity.
  - reflexivity.
Defined.

Lemma cycle_None (rnd : Z) (emu : emulator) (opcode : Z) :
  fetch emu = Some opcode ->
  (emulation_cycle rnd emu = None <-> execute rnd opcode emu = None).
Proof.
  intros Hf. unfold emulation_cycle. rewrite Hf. simpl.
  destruct (execute rnd opcode emu) as [f |]; simpl.
  - split; [| discriminate]. destruct f as [e o | e]; [destruct (tick_timers e) |];
      discriminate.
  - split; reflexivity.
Qed.

Lemma load_None_iff (a : list Z) (i : Z) :
  load a i = None <-> i < 0 \/ Z.of_nat (length a) <= i.
Proof.
  split; [| apply load_out_of_bounds].
  intros Hl. destruct (Z.lt_ge_cases i 0) as [| H0]; [left; assumption |].
  destruct (Z.lt_ge_cases i (Z.of_nat (length a))) as [Hlt | ]; [| right; assumption].
  destruct (load_in_bounds a i) as [v Hv]; [lia |]. congruence.
Qed.

Lemma store_None_iff (a : list Z) (i v : Z) :
  store a i v = None <-> i < 0 \/ Z.of_nat (length a) <= i.
Proof.
  split; [| apply store_out_of_bounds].
  intros Hs. destruct (Z.lt_ge_cases i 0) as [| H0]; [left; assumption |].
  destruct (Z.lt_ge_cases i (Z.of_nat (length a))) as [Hlt | ]; [| right; assumption].
  rewrite store_in in Hs by lia. discriminate Hs.
Qed.

(** X7.  The call stack is not guarded.  On a well-formed machine a call
    (2NNN) writes outside the 16 cells of the stack exactly when the
    stack pointer is 16 or more, and a return (00EE) reads outside them
    exactly when the stack pointer is 0 (it wraps to 65535) or more
    than 16. *)
Theorem stack_bounds (rnd : Z) (emu : emulator) (opcode : Z) :
  wf emu ->
  fetch emu = Some opcode ->
  (Z.land opcode 0xF000 = 0x2000 ->
   (emulation_cycle rnd emu = None <-> 16 <= stack_ptr emu)) /\
  (Z.land opcode 0xF000 = 0x0000 -> Z.land opcode 0x00FF = 0xEE ->
   (emulation_cycle rnd emu = None <-> stack_ptr emu = 0 \/ 16 < stack_ptr emu)).
Proof.
  intros Hwf Hf.
  pose proof (wf_stack_ptr emu Hwf) as Hsp.
  pose proof (wf_stack_length emu Hwf) as Hsl.
  split.
  - intros Hc. rewrite (cycle_None rnd emu opcode Hf).
    unfold execute. rewrite Hc. unfold op_call.
    destruct (store (stack emu) (stack_ptr emu) (program_counter emu)) as [s |] eqn:Hs.
    + split; [discriminate |]. apply store_Some in Hs. lia.
    + split; [| reflexivity]. intros _. apply store_None_iff in Hs. lia.
  - intros Hc Hs. rewrite (cycle_None rnd emu opcode Hf).
    unfold execute. rewrite Hc, Hs. unfold op_return.
    destruct (load (stack emu) (u16 (stack_ptr emu - 1))) as [a |] eqn:Hl.
    + split; [discriminate |]. apply load_Some in Hl as [Hl _]. rewrite Hsl in Hl.
      intros [H0 | Hbig].
      * rewrite H0 in Hl. change (u16 (0 - 1)) with 65535 in Hl. lia.
      * rewrite u16_small in Hl by lia. lia.
    + split; [| reflexivity]. intros _. apply load_None_iff in Hl. rewrite Hsl in Hl.
      destruct (Z.eq_dec (stack_ptr emu) 0) as [| Hne]; [left; assumption |].
      right. rewrite u16_small in Hl by lia. lia.
Qed.

Lemma stack_bounds_witness :
  emulation_cycle 0 underflow_machine = None <->
  stack_ptr underflow_machine = 0 \/ 16 < stack_ptr underflow_machine.
Proof.
  destruct (stack_bounds 0 underflow_machine 0x00EE) as [_ Hret].
  - wf_by_evaluation.
  - vm_compute; reflexivity.
  - apply Hret; reflexivity.
Defined.

(** X8.  The key tests are not guarded either.  On a well-formed machine
    EX9E and EXA1 read outside the 16 key flags exactly when register X
    holds 16 or more. *)
Theorem key_test_bounds (rnd : Z) (emu : emulator) (opcode vx : Z) :
  wf emu ->
  fetch emu = Some opcode ->
  Z.land opcode 0xF000 = 0xE000 ->
  Z.land opcode 0x00FF = 0x9E \/ Z.land opcode 0x00FF = 0xA1 ->
  registers emu !! Z.to_nat (VX opcode) = Some vx ->
  (emulation_cycle rnd emu = None <-> 16 <= vx).
Proof.
  intros Hwf Hf Hc Hs Hvx.
  pose proof (VX_range opcode) as HX.
  pose proof (wf_register emu Hwf _ _ Hvx) as Hr.
  pose proof (wf_keys_length emu Hwf) as Hkl.
  rewrite (cycle_None rnd emu opcode Hf). unfold execute. rewrite Hc.
  assert (Hk : load (keys emu) vx = None <-> 16 <= vx).
  { rewrite load_None_iff, Hkl. lia. }
  destruct Hs as [Hs | Hs]; rewrite Hs; [unfold op_skip_key | unfold op_skip_not_key];
    rewrite load_lookup by lia; rewrite Hvx; cbn [mbind option_bind];
    destruct (load (keys emu) vx) as [k |]; cbn [mbind option_bind];
    (split; [intros H; first [discriminate H | apply Hk; reflexivity]
            | intros H; apply Hk in H; first [discriminate H | reflexivity]]).
Qed.

Lemma key_test_bounds_witness :
  emulation_cycle 0 key_index_machine = None <-> 16 <= 16.
Proof.
  apply (key_test_bounds 0 key_index_machine 0xE09E 16).
  - wf_by_evaluation.
  - vm_compute; reflexivity.
  - reflexivity.
  - left. reflexivity.
  - vm_compute; reflexivity.
Defined.

(** ** Instructions that write the memory (FX33, FX55) and read it back
    (FX65) *)

Lemma bcd_decimal (vx : Z) :
  0 <= vx < 256 ->
  u8 (Z.quot vx 100) = vx / 100 /\
  u8 (Z.rem (Z.quot vx 10) 10) = (vx / 10) mod 10 /\
  u8 (Z.rem (Z.rem vx 100) 10) = vx mod 10 /\
  vx = 100 * (vx / 100) + 10 * ((vx / 10) mod 10) + vx mod 10 /\
  0 <= vx / 100 <= 2 /\ 0 <= (vx / 10) mod 10 <= 9 /\ 0 <= vx mod 10 <= 9.
Proof.
  intros Hvx.
  rewrite !Z.quot_div_nonneg by lia.
  rewrite (Z.rem_mod_nonneg (vx / 10) 10) by (try apply Z.div_pos; lia).
  rewrite (Z.rem_mod_nonneg vx 100) by lia.
  rewrite (Z.rem_mod_nonneg (vx mod 100) 10) by (try apply Z.mod_pos_bound; lia).
  assert (Hmm : (vx mod 100) mod 10 = vx mod 10).
  { rewrite Z.mod_mod_divide; [reflexivity |]. exists 10. reflexivity. }
  rewrite Hmm. unfold u8.
  rewrite !Z.mod_small by (Z.div_mod_to_equations; lia).
  repeat apply conj; Z.div_mod_to_equations; lia.
Qed.

(** X9.  FX33 stores the decimal digits of VX at I, I + 1 and I + 2:
    hundreds, tens and ones, each a digit, which together give back VX;
    the registers and the index register are unchanged.  With the index
    register above 4093 the stores leave the memory. *)
Theorem bcd_digits (rnd : Z) (emu : emulator) (opcode vx : Z) :
  wf emu ->
  fetch emu = Some opcode ->
  Z.land opcode 0xF000 = 0xF000 -> Z.land opcode 0x00FF = 0x33 ->
  registers emu !! Z.to_nat (VX opcode) = Some vx ->
  (4093 < index_register emu -> emulation_cycle rnd emu = None) /\
  (index_register emu <= 4093 ->
   exists emu' out h t o,
     emulation_cycle rnd emu = Some (emu', out) /\
     memory emu' =
       <[Z.to_nat (index_register emu + 2) := o]>
         (<[Z.to_nat (index_register emu + 1) := t]>
            (<[Z.to_nat (index_register emu) := h]> (memory emu))) /\
     vx = 100 * h + 10 * t + o /\
     0 <= h <= 2 /\ 0 <= t <= 9 /\ 0 <= o <= 9 /\
     registers emu' = registers emu /\
     index_register emu' = index_register emu /\
     program_counter emu' = program_counter emu + 2).
Proof.
  intros Hwf Hf Hc Hs Hvx.
  pose proof (VX_range opcode) as HX.
  pose proof (wf_register emu Hwf _ _ Hvx) as Hr.
  pose proof (wf_memory_length emu Hwf) as Hml.
  assert (HI : 0 <= index_register emu < 65536).
  { apply in_range_spec. apply wf_parts in Hwf. tauto. }
  destruct (bcd_decimal vx Hr) as (Hh & Ht & Ho & Hsum & Hhr & Htr & Hor).
  assert (He : execute rnd opcode emu = op_bcd opcode emu).
  { unfold execute. rewrite Hc, Hs. reflexivity. }
  unfold op_bcd in He. rewrite load_lookup in He by lia. rewrite Hvx in He.
  cbn [mbind option_bind] in He. rewrite Hh, Ht, Ho in He.
  split.
  - intros Hbig. apply (cycle_None rnd emu opcode Hf). rewrite He.
    destruct (store (memory emu) (index_register emu) (vx / 100)) as [m0 |] eqn:H0;
      [| reflexivity].
    cbn [mbind option_bind].
    destruct (store m0 (index_register emu + 1) ((vx / 10) mod 10)) as [m1 |] eqn:H1;
      [| reflexivity].
    cbn [mbind option_bind].
    apply store_Some in H0 as [_ ->]. apply store_Some in H1 as [_ ->].
    rewrite store_out_of_bounds; [reflexivity |].
    rewrite !length_insert, Hml. lia.
  - intros Hfit.
    rewrite store_in in He by (rewrite Hml; lia). cbn [mbind option_bind] in He.
    rewrite store_in in He by (rewrite length_insert, Hml; lia).
    cbn [mbind option_bind] in He.
    rewrite store_in in He by (rewrite !length_insert, Hml; lia).
    cbn [mbind option_bind] in He. unfold next in He.
    eexists _, _, (vx / 100), ((vx / 10) mod 10), (vx mod 10).
    split; [exact (cycle_break _ _ _ _ _ Hf He) |].
    match goal with
    | |- context [tick_timers ?e] =>
        destruct (tick_timers_frame e) as (Hm & _ & Hrg & Hi & Hp & _)
    end.
    rewrite Hm, Hrg, Hi, Hp. cbn [memory registers index_register program_counter
      advance set_program_counter set_memory].
    rewrite (fetch_advance emu Hwf opcode Hf).
    repeat apply conj; first [reflexivity | assumption | lia].
Qed.

Lemma bcd_digits_witness :
  exists emu' out,
    emulation_cycle 0 bcd_machine = Some (emu', out) /\
    memory emu' !! Z.to_nat 0x300 = Some 2 /\
    memory emu' !! Z.to_nat 0x301 = Some 5 /\
    memory emu' !! Z.to_nat 0x302 = Some 4.
Proof.
  destruct (bcd_digits 0 bcd_machine 0xF033 254) as [_ Hfit].
  - wf_by_evaluation.
  - vm_compute; reflexivity.
  - reflexivity.
  - reflexivity.
  - vm_compute; reflexivity.
  - destruct Hfit as (emu' & out & h & t & o & Hc & _); [vm_compute; discriminate |].
    exists emu', out. split; [exact Hc |].
    vm_compute in Hc. injection Hc as <- _.
    repeat apply conj; vm_compute; reflexivity.
Defined.

(** The loop of FX55 over registers [i .. i + k). *)
Lemma dump_loop (regs : list Z) (I : Z) (k : nat) :
  forall (i : Z) (m : list Z),
    0 <= i -> i + Z.of_nat k <= Z.of_nat (length regs) ->
    0 <= I -> I + i + Z.of_nat k <= Z.of_nat (length m) ->
    for_range k i (fun j g => v ← load regs j; store g (I + j) v) m =
      Some (list_inserts (Z.to_nat (I + i)) (take k (drop (Z.to_nat i) regs)) m).
Proof.
  induction k as [| k IH]; intros i m Hi Hk HI Hfit.
  - reflexivity.
  - rewrite for_range_S.
    destruct (load_in_bounds regs i) as [v Hv]; [lia |].
    rewrite Hv. cbn [mbind option_bind].
    rewrite store_in by lia. cbn [mbind option_bind].
    rewrite IH by (rewrite ?length_insert; lia).
    apply load_Some in Hv as [_ Hv].
    rewrite (drop_S regs v (Z.to_nat i) Hv). cbn [take list_inserts].
    replace (Z.to_nat (I + (i + 1))) with (S (Z.to_nat (I + i))) by lia.
    replace (Z.to_nat (i + 1)) with (S (Z.to_nat i)) by lia.
    rewrite list_insert_inserts_lt by lia. reflexivity.
Qed.

Lemma dump_loop_fails (regs : list Z) (I : Z) (k : nat) :
  forall (i : Z) (m : list Z),
    0 <= i -> 0 <= I -> (0 < k)%nat ->
    Z.of_nat (length m) < I + i + Z.of_nat k ->
    for_range k i (fun j g => v ← load regs j; store g (I + j) v) m = None.
Proof.
  induction k as [| k IH]; intros i m Hi HI Hk Hbig; [lia |].
  rewrite for_range_S.
  destruct (load regs i) as [v |]; [| reflexivity]. cbn [mbind option_bind].
  destruct (store m (I + i) v) as [m1 |] eqn:Hs; [| reflexivity].
  cbn [mbind option_bind]. apply store_Some in Hs as [Hin ->].
  apply IH; [lia | lia | lia |]. rewrite length_insert. lia.
Qed.

(** The loop of FX65 over registers [i .. i + k). *)
Lemma fill_loop (mem : list Z) (I : Z) (k : nat) :
  forall (i : Z) (r : list Z),
    0 <= i -> i + Z.of_nat k <= Z.of_nat (length r) ->
    0 <= I -> I + i + Z.of_nat k <= Z.of_nat (length mem) ->
    for_range k i (fun j g => v ← load mem (I + j); store g j v) r =
      Some (list_inserts (Z.to_nat i) (take k (drop (Z.to_nat (I + i)) mem)) r).
Proof.
  induction k as [| k IH]; intros i r Hi Hk HI Hfit.
  - reflexivity.
  - rewrite for_range_S.
    destruct (load_in_bounds mem (I + i)) as [v Hv]; [lia |].
    rewrite Hv. cbn [mbind option_bind].
    rewrite store_in by lia. cbn [mbind option_bind].
    rewrite IH by (rewrite ?length_insert; lia).
    apply load_Some in Hv as [_ Hv].
    rewrite (drop_S mem v (Z.to_nat (I + i)) Hv). cbn [take list_inserts].
    replace (Z.to_nat (I + (i + 1))) with (S (Z.to_nat (I + i))) by lia.
    replace (Z.to_nat (i + 1)) with (S (Z.to_nat i)) by lia.
    rewrite list_insert_inserts_lt by lia. reflexivity.
Qed.

Lemma fill_loop_fails (mem : list Z) (I : Z) (k : nat) :
  forall (i : Z) (r : list Z),
    0 <= i -> 0 <= I -> (0 < k)%nat ->
    Z.of_nat (length mem) < I + i + Z.of_nat k ->
    for_range k i (fun j g => v ← load mem (I + j); store g j v) r = None.
Proof.
  induction k as [| k IH]; intros i r Hi HI Hk Hbig; [lia |].
  rewrite for_range_S.
  destruct (load mem (I + i)) as [v |] eqn:Hl; [| reflexivity].
  cbn [mbind option_bind]. apply load_Some in Hl as [Hin _].
  destruct (store r i v) as [r1 |]; [| reflexivity]. cbn [mbind option_bind].
  apply IH; lia.
Qed.

Lemma u8_VX (opcode : Z) : u8 (VX opcode) = VX opcode.
Proof. apply u8_small. pose proof (VX_range opcode). lia. Qed.

Lemma lookup_inserts_at (m k : list Z) (i j : nat) :
  (i + length k <= length m)%nat -> (j < length k)%nat ->
  list_inserts i k m !! (i + j)%nat = k !! j.
Proof.
  intros Hfit Hj. rewrite list_lookup_inserts by lia.
  replace (i + j - i)%nat with j by lia. reflexivity.
Qed.

Lemma take_drop_inserts (m k : list Z) (i : nat) :
  (i + length k <= length m)%nat ->
  take (length k) (drop i (list_inserts i k m)) = k.
Proof.
  intros Hfit. apply list_eq. intros j.
  destruct (decide (j < length k)%nat) as [Hj | Hj].
  - rewrite lookup_take_lt by lia. rewrite lookup_drop.
    apply lookup_inserts_at; assumption.
  - rewrite lookup_take_ge by lia. symmetry. apply lookup_ge_None_2. lia.
Qed.

Section DumpFill.
Variables (rnd : Z) (emu : emulator) (opcode : Z).
Hypothesis Hwf : wf emu.
Hypothesis Hf : fetch emu = Some opcode.
Hypothesis Hc : Z.land opcode 0xF000 = 0xF000.

Lemma index_nonneg : 0 <= index_register emu < 65536.
Proof. apply in_range_spec. apply wf_parts in Hwf. tauto. Qed.

Lemma execute_dump :
  Z.land opcode 0x00FF = 0x55 ->
  index_register emu + VX opcode <= 4095 ->
  execute rnd opcode emu =
    Some (Break (advance 2 (set_memory
      (list_inserts (Z.to_nat (index_register emu))
         (take (Z.to_nat (VX opcode + 1)) (registers emu)) (memory emu)) emu)) []).
Proof.
  intros Hs Hfit. pose proof (VX_range opcode) as HX. pose proof index_nonneg as HI.
  unfold execute. rewrite Hc, Hs. unfold op_dump. cbv zeta. rewrite u8_VX.
  rewrite (dump_loop (registers emu) (index_register emu) _ 0 (memory emu));
    rewrite ?(wf_registers_length emu Hwf), ?(wf_memory_length emu Hwf); try lia.
  cbn [mbind option_bind]. rewrite Z.add_0_r. reflexivity.
Qed.

Lemma execute_fill :
  Z.land opcode 0x00FF = 0x65 ->
  index_register emu + VX opcode <= 4095 ->
  execute rnd opcode emu =
    Some (Break (advance 2 (set_registers
      (list_inserts 0
         (take (Z.to_nat (VX opcode + 1)) (drop (Z.to_nat (index_register emu)) (memory emu)))
         (registers emu)) emu)) []).
Proof.
  intros Hs Hfit. pose proof (VX_range opcode) as HX. pose proof index_nonneg as HI.
  unfold execute. rewrite Hc, Hs. unfold op_fill. cbv zeta. rewrite u8_VX.
  rewrite (fill_loop (memory emu) (index_register emu) _ 0 (registers emu));
    rewrite ?(wf_registers_length emu Hwf), ?(wf_memory_length emu Hwf); try lia.
  cbn [mbind option_bind]. rewrite Z.add_0_r. reflexivity.
Qed.

Lemma execute_dump_fill_fails :
  Z.land opcode 0x00FF = 0x55 \/ Z.land opcode 0x00FF = 0x65 ->
  4095 < index_register emu + VX opcode ->
  execute rnd opcode emu = None.
Proof.
  intros Hs Hbig. pose proof (VX_range opcode) as HX. pose proof index_nonneg as HI.
  unfold execute. rewrite Hc. destruct Hs as [Hs | Hs]; rewrite Hs.
  - unfold op_dump. cbv zeta. rewrite u8_VX.
    rewrite dump_loop_fails; [reflexivity | lia | lia | lia |].
    rewrite (wf_memory_length emu Hwf). lia.
  - unfold op_fill. cbv zeta. rewrite u8_VX.
    rewrite fill_loop_fails; [reflexivity | lia | lia | lia |].
    rewrite (wf_memory_length emu Hwf). lia.
Qed.
End DumpFill.

(** X10.  FX55 copies registers 0 .. X to the memory at I .. I + X and
    FX65 copies the memory at I .. I + X to registers 0 .. X; each
    leaves the index register as it was and touches nothing else.  With
    I + X above 4095 either one leaves the memory. *)
Theorem dump_and_fill (rnd : Z) (emu : emulator) (opcode : Z) :
  wf emu ->
  fetch emu = Some opcode ->
  Z.land opcode 0xF000 = 0xF000 ->
  (Z.land opcode 0x00FF = 0x55 \/ Z.land opcode 0x00FF = 0x65 ->
   4095 < index_register emu + VX opcode ->
   emulation_cycle rnd emu = None) /\
  (Z.land opcode 0x00FF = 0x55 ->
   index_register emu + VX opcode <= 4095 ->
   exists emu' out,
     emulation_cycle rnd emu = Some (emu', out) /\
     (forall j : nat, (j <= Z.to_nat (VX opcode))%nat ->
        memory emu' !! (Z.to_nat (index_register emu) + j)%nat = registers emu !! j) /\
     (forall a : nat,
        (a < Z.to_nat (index_register emu) \/
         Z.to_nat (index_register emu) + Z.to_nat (VX opcode) < a)%nat ->
        memory emu' !! a = memory emu !! a) /\
     registers emu' = registers emu /\
     index_register emu' = index_register emu) /\
  (Z.land opcode 0x00FF = 0x65 ->
   index_register emu + VX opcode <= 4095 ->
   exists emu' out,
     emulation_cycle rnd emu = Some (emu', out) /\
     (forall j : nat, (j <= Z.to_nat (VX opcode))%nat ->
        registers emu' !! j = memory emu !! (Z.to_nat (index_register emu) + j)%nat) /\
     (forall j : nat, (Z.to_nat (VX opcode) < j)%nat ->
        registers emu' !! j = registers emu !! j) /\
     memory emu' = memory emu /\
     index_register emu' = index_register emu).
Proof.
  intros Hwf Hf Hc.
  pose proof (VX_range opcode) as HX.
  pose proof (index_nonneg emu Hwf) as HI.
  pose proof (wf_registers_length emu Hwf) as Hrl.
  pose proof (wf_memory_length emu Hwf) as Hml.
  repeat apply conj.
  - intros Hs Hbig. apply (cycle_None rnd emu opcode Hf).
    apply execute_dump_fill_fails; assumption.
  - intros Hs Hfit.
    pose proof (execute_dump rnd emu opcode Hwf Hc Hs Hfit) as He.
    eexists _, _. split; [exact (cycle_break _ _ _ _ _ Hf He) |].
    match goal with
    | |- context [tick_timers ?e] =>
        destruct (tick_timers_frame e) as (Hm & _ & Hrg & Hi & _)
    end.
    rewrite Hm, Hrg, Hi.
    cbn [memory registers index_register advance set_program_counter set_memory].
    assert (Hlen : length (take (Z.to_nat (VX opcode + 1)) (registers emu))
                   = Z.to_nat (VX opcode + 1)) by (rewrite length_take; lia).
    repeat apply conj; try reflexivity.
    + intros j Hj. rewrite lookup_inserts_at by lia.
      apply lookup_take_lt. lia.
    + intros a [Ha | Ha].
      * apply list_lookup_inserts_lt. exact Ha.
      * apply list_lookup_inserts_ge. lia.
  - intros Hs Hfit.
    pose proof (execute_fill rnd emu opcode Hwf Hc Hs Hfit) as He.
    eexists _, _. split; [exact (cycle_break _ _ _ _ _ Hf He) |].
    match goal with
    | |- context [tick_timers ?e] =>
        destruct (tick_timers_frame e) as (Hm & _ & Hrg & Hi & _)
    end.
    rewrite Hm, Hrg, Hi.
    cbn [memory registers index_register advance set_program_counter set_registers].
    assert (Hlen : length (take (Z.to_nat (VX opcode + 1))
                             (drop (Z.to_nat (index_register emu)) (memory emu)))
                   = Z.to_nat (VX opcode + 1)) by (rewrite length_take, length_drop; lia).
    repeat apply conj; try reflexivity.
    + intros j Hj.
      rewrite (lookup_inserts_at (registers emu) _ 0 j) by lia.
      rewrite lookup_take_lt by lia. apply lookup_drop.
    + intros j Hj. apply list_lookup_inserts_ge. lia.
Qed.

Lemma dump_and_fill_witness :
  exists emu' out,
    emulation_cycle 0 dump_machine = Some (emu', out) /\
    memory emu' !! Z.to_nat 0x300 = Some 7 /\
    memory emu' !! Z.to_nat 0x301 = Some 9.
Proof.
  destruct (dump_and_fill 0 dump_machine 0xF155) as (_ & Hdump & _).
  - wf_by_evaluation.
  - vm_compute; reflexivity.
  - reflexivity.
  - destruct Hdump as (emu' & out & Hc & Hcells & _).
    + reflexivity.
    + vm_compute; discriminate.
    + exists emu', out. split; [exact Hc |]. split.
      * exact (Hcells 0%nat ltac:(vm_compute; lia)).
      * exact (Hcells 1%nat ltac:(vm_compute; lia)).
Defined.

(** X11.  Dump and fill are a round trip: after FX55 has run, an FX65 with
    the same X, run by any well-formed machine that has the memory the
    dump left and the same index register, puts the values registers
    0 .. X had at the dump back in registers 0 .. X. *)
Theorem dump_fill_roundtrip (rnd : Z) (emu : emulator) (opcode : Z) :
  wf emu ->
  fetch emu = Some opcode ->
  Z.land opcode 0xF000 = 0xF000 -> Z.land opcode 0x00FF = 0x55 ->
  index_register emu + VX opcode <= 4095 ->
  exists emu1 out1,
    emulation_cycle rnd emu = Some (emu1, out1) /\
    forall (rnd' : Z) (emu2 : emulator) (opcode2 : Z),
      wf emu2 ->
      memory emu2 = memory emu1 -> index_register emu2 = index_register emu ->
      fetch emu2 = Some opcode2 ->
      Z.land opcode2 0xF000 = 0xF000 -> Z.land opcode2 0x00FF = 0x65 ->
      VX opcode2 = VX opcode ->
      exists emu3 out3,
        emulation_cycle rnd' emu2 = Some (emu3, out3) /\
        forall j : nat, (j <= Z.to_nat (VX opcode))%nat ->
          registers emu3 !! j = registers emu !! j.
Proof.
  intros Hwf Hf Hc Hs Hfit.
  pose proof (VX_range opcode) as HX.
  pose proof (index_nonneg emu Hwf) as HI.
  pose proof (wf_registers_length emu Hwf) as Hrl.
  pose proof (wf_memory_length emu Hwf) as Hml.
  pose proof (execute_dump rnd emu opcode Hwf Hc Hs Hfit) as He.
  eexists _, _. split; [exact (cycle_break _ _ _ _ _ Hf He) |].
  intros rnd' emu2 opcode2 Hwf2 Hmem2 Hi2 Hf2 Hc2 Hs2 HX2.
  match type of Hmem2 with
  | context [tick_timers ?e] =>
      destruct (tick_timers_frame e) as (Hm & _)
  end.
  rewrite Hm in Hmem2. cbn [memory advance set_program_counter set_memory] in Hmem2.
  assert (Hfit2 : index_register emu2 + VX opcode2 <= 4095) by (rewrite Hi2, HX2; lia).
  pose proof (execute_fill rnd' emu2 opcode2 Hwf2 Hc2 Hs2 Hfit2) as He2.
  eexists _, _. split; [exact (cycle_break _ _ _ _ _ Hf2 He2) |].
  match goal with
  | |- context [tick_timers ?e] =>
      destruct (tick_timers_frame e) as (_ & _ & Hrg & _)
  end.
  rewrite Hrg. cbn [registers advance set_program_counter set_registers].
  rewrite Hmem2, Hi2, HX2.
  assert (Hlen : length (take (Z.to_nat (VX opcode + 1)) (registers emu))
                 = Z.to_nat (VX opcode + 1)) by (rewrite length_take; lia).
  pose proof (take_drop_inserts (memory emu)
                (take (Z.to_nat (VX opcode + 1)) (registers emu))
                (Z.to_nat (index_register emu))) as Hback.
  rewrite Hlen in Hback. rewrite Hback by lia.
  intros j Hj.
  rewrite (lookup_inserts_at (registers emu2) _ 0 j)
    by (rewrite ?(wf_registers_length emu2 Hwf2); lia).
  apply lookup_take_lt. lia.
Qed.

Lemma dump_fill_roundtrip_witness :
  exists emu1 out1 emu3 out3,
    emulation_cycle 0 dump_machine = Some (emu1, out1) /\
    emulation_cycle 0 emu1 = Some (emu3, out3) /\
    registers emu3 !! 0%nat = Some 7 /\ registers emu3 !! 1%nat = Some 9.
Proof.
  destruct (dump_fill_roundtrip 0 dump_machine 0xF155) as (emu1 & out1 & Hc1 & Hback).
  - wf_by_evaluation.
  - vm_compute; reflexivity.
  - reflexivity.
  - reflexivity.
  - vm_compute; discriminate.
  - set (e1 := advance 2 (set_memory
                   (list_inserts (Z.to_nat 0x300) [7; 9] (memory dump_machine))
                   dump_machine)).
    assert (Hc1' : emulation_cycle 0 dump_machine = Some (e1, []))
      by (vm_compute; reflexivity).
    assert (He1 : emu1 = e1) by congruence.
    assert (Hwf1 : wf e1) by wf_by_evaluation.
    assert (Hf1 : fetch e1 = Some 0xF165) by (vm_compute; reflexivity).
    destruct (Hback 0 e1 0xF165 Hwf1 (f_equal memory (eq_sym He1)) eq_refl Hf1
                eq_refl eq_refl eq_refl)
      as (emu3 & out3 & Hc3 & Hregs).
    exists e1, [], emu3, out3. split; [exact Hc1' |]. split; [exact Hc3 |]. split.
    + exact (Hregs 0%nat ltac:(vm_compute; lia)).
    + exact (Hregs 1%nat ltac:(vm_compute; lia)).
Defined.

(** ** Register arithmetic *)

Section RegisterOps.
Variables (rnd : Z) (emu : emulator) (opcode : Z).
Hypothesis Hwf : wf emu.
Hypothesis Hf : fetch emu = Some opcode.

(** A cycle whose handler only replaces the register file. *)
Lemma cycle_registers (r : list Z) :
  execute rnd opcode emu = Some (Break (advance 2 (set_registers r emu)) []) ->
  exists emu' out,
    emulation_cycle rnd emu = Some (emu', out) /\
    registers emu' = r /\
    program_counter emu' = program_counter emu + 2 /\
    memory emu' = memory emu /\ index_register emu' = index_register emu /\
    gfx emu' = gfx emu /\ stack emu' = stack emu /\ stack_ptr emu' = stack_ptr emu.
Proof.
  intros He. eexists _, _. split; [exact (cycle_break _ _ _ _ _ Hf He) |].
  match goal with
  | |- context [tick_timers ?e] =>
      destruct (tick_timers_frame e) as (Hm & _ & Hr & Hi & Hp & Hg & _ & Hs & Hsp & _)
  end.
  rewrite Hm, Hr, Hi, Hp, Hg, Hs, Hsp. simpl.
  rewrite (fetch_advance emu Hwf opcode Hf). repeat apply conj; reflexivity.
Qed.

Lemma execute_sub (vx vy : Z) :
  Z.land opcode 0xF000 = 0x8000 -> Z.land opcode 0x000F = 0x5 ->
  VX opcode <> 0xF ->
  registers emu !! Z.to_nat (VX opcode) = Some vx ->
  registers emu !! Z.to_nat (VY opcode) = Some vy ->
  execute rnd opcode emu =
    Some (Break (advance 2 (set_registers
      (<[Z.to_nat (VX opcode) := u8 (vx - vy)]>
         (<[15%nat := if vy >? vx then 0 else 1]> (registers emu))) emu)) []).
Proof.
  intros Hc Hs HX Hvx Hvy.
  pose proof (VX_range opcode) as HXr. pose proof (VY_range opcode) as HYr.
  pose proof (wf_registers_length emu Hwf) as Hlen.
  unfold execute. rewrite Hc, Hs. unfold op_sub. fold (VX opcode). fold (VY opcode).
  rewrite !load_lookup by lia. rewrite Hvx, Hvy. simpl.
  rewrite store_in by (rewrite Hlen; lia). simpl.
  rewrite load_lookup by lia.
  rewrite list_lookup_insert_ne by lia. rewrite Hvx. simpl.
  rewrite store_in by (rewrite length_insert, Hlen; lia). reflexivity.
Qed.

Lemma execute_sub_reverse (vx vy : Z) :
  Z.land opcode 0xF000 = 0x8000 -> Z.land opcode 0x000F = 0x7 ->
  registers emu !! Z.to_nat (VX opcode) = Some vx ->
  registers emu !! Z.to_nat (VY opcode) = Some vy ->
  execute rnd opcode emu =
    Some (Break (advance 2 (set_registers
      (<[Z.to_nat (VX opcode) := u8 (vy - vx)]>
         (<[15%nat := if vx >? vy then 0 else 1]> (registers emu))) emu)) []).
Proof.
  intros Hc Hs Hvx Hvy.
  pose proof (VX_range opcode) as HXr. pose proof (VY_range opcode) as HYr.
  pose proof (wf_registers_length emu Hwf) as Hlen.
  unfold execute. rewrite Hc, Hs. unfold op_sub_reverse.
  fold (VX opcode). fold (VY opcode).
  rewrite !load_lookup by lia. rewrite Hvx, Hvy. simpl.
  rewrite store_in by (rewrite Hlen; lia). simpl.
  rewrite store_in by (rewrite length_insert, Hlen; lia). reflexivity.
Qed.

Lemma execute_add_imm (vx : Z) :
  Z.land opcode 0xF000 = 0x7000 ->
  registers emu !! Z.to_nat (VX opcode) = Some vx ->
  execute rnd opcode emu =
    Some (Break (advance 2 (set_registers
      (<[Z.to_nat (VX opcode) := u8 (vx + u8 (Z.land opcode 0x00FF))]> (registers emu))
      emu)) []).
Proof.
  intros Hc Hvx.
  pose proof (VX_range opcode) as HXr.
  pose proof (wf_registers_length emu Hwf) as Hlen.
  unfold execute. rewrite Hc. unfold op_add_imm. cbv zeta. fold (VX opcode).
  rewrite u8_VX. rewrite load_lookup by lia. rewrite Hvx. simpl.
  rewrite store_in by (rewrite Hlen; lia). reflexivity.
Qed.

Lemma execute_random :
  Z.land opcode 0xF000 = 0xC000 ->
  execute rnd opcode emu =
    Some (Break (advance 2 (set_registers
      (<[Z.to_nat (VX opcode) := u8 (Z.land (Z.rem rnd 0xFF) (Z.land opcode 0x00FF))]>
         (registers emu)) emu)) []).
Proof.
  intros Hc.
  pose proof (VX_range opcode) as HXr.
  pose proof (wf_registers_length emu Hwf) as Hlen.
  unfold execute. rewrite Hc. unfold op_random. fold (VX opcode).
  rewrite store_in by (rewrite Hlen; lia). reflexivity.
Qed.
End RegisterOps.

Lemma NN_range (opcode : Z) : 0 <= Z.land opcode 0x00FF < 256.
Proof.
  change 0x00FF with (Z.ones 8). rewrite Z.land_ones by lia.
  apply Z.mod_pos_bound. lia.
Qed.

(** X12.  The two subtractions set the flag to "no borrow".  8XY5 (X other
    than 0xF) leaves VX - VY modulo 256 in register X and 1 in register
    0xF exactly when VX >= VY; 8XY7 leaves VY - VX modulo 256 and 1
    exactly when VY >= VX.  In both, the difference is the result minus
    256 when the flag is 0. *)
Theorem subtract_borrow_flag (rnd : Z) (emu : emulator) (opcode vx vy : Z) :
  wf emu ->
  fetch emu = Some opcode ->
  Z.land opcode 0xF000 = 0x8000 ->
  VX opcode <> 0xF ->
  registers emu !! Z.to_nat (VX opcode) = Some vx ->
  registers emu !! Z.to_nat (VY opcode) = Some vy ->
  (Z.land opcode 0x000F = 0x5 ->
   exists emu' out res flag,
     emulation_cycle rnd emu = Some (emu', out) /\
     registers emu' !! Z.to_nat (VX opcode) = Some res /\
     registers emu' !! 15%nat = Some flag /\
     res = (vx - vy) mod 256 /\
     (flag = 1 /\ vy <= vx \/ flag = 0 /\ vx < vy) /\
     vx - vy = res - 256 * (1 - flag)) /\
  (Z.land opcode 0x000F = 0x7 ->
   exists emu' out res flag,
     emulation_cycle rnd emu = Some (emu', out) /\
     registers emu' !! Z.to_nat (VX opcode) = Some res /\
     registers emu' !! 15%nat = Some flag /\
     res = (vy - vx) mod 256 /\
     (flag = 1 /\ vx <= vy \/ flag = 0 /\ vy < vx) /\
     vy - vx = res - 256 * (1 - flag)).
Proof.
  intros Hwf Hf Hc HX Hvx Hvy.
  pose proof (VX_range opcode) as HXr.
  pose proof (wf_registers_length emu Hwf) as Hlen.
  pose proof (wf_register emu Hwf _ _ Hvx) as Hrx.
  pose proof (wf_register emu Hwf _ _ Hvy) as Hry.
  split; intros Hs.
  - destruct (cycle_registers rnd emu opcode Hwf Hf _
                (execute_sub rnd emu opcode Hwf vx vy Hc Hs HX Hvx Hvy))
      as (emu' & out & Hcy & Hr & _).
    exists emu', out, ((vx - vy) mod 256), (if vy >? vx then 0 else 1).
    split; [exact Hcy |]. rewrite Hr.
    repeat apply conj.
    + apply list_lookup_insert_eq. rewrite length_insert, Hlen. lia.
    + rewrite list_lookup_insert_ne by lia.
      apply list_lookup_insert_eq. rewrite Hlen. lia.
    + reflexivity.
    + destruct (Z.gtb_spec vy vx); [right | left]; split; first [reflexivity | lia].
    + destruct (Z.gtb_spec vy vx); Z.div_mod_to_equations; lia.
  - destruct (cycle_registers rnd emu opcode Hwf Hf _
                (execute_sub_reverse rnd emu opcode Hwf vx vy Hc Hs Hvx Hvy))
      as (emu' & out & Hcy & Hr & _).
    exists emu', out, ((vy - vx) mod 256), (if vx >? vy then 0 else 1).
    split; [exact Hcy |]. rewrite Hr.
    repeat apply conj.
    + apply list_lookup_insert_eq. rewrite length_insert, Hlen. lia.
    + rewrite list_lookup_insert_ne by lia.
      apply list_lookup_insert_eq. rewrite Hlen. lia.
    + reflexivity.
    + destruct (Z.gtb_spec vx vy); [right | left]; split; first [reflexivity | lia].
    + destruct (Z.gtb_spec vx vy); Z.div_mod_to_equations; lia.
Qed.

Lemma subtract_borrow_flag_witness :
  (exists emu' out,
     emulation_cycle 0 borrow_machine = Some (emu', out) /\
     registers emu' !! 0%nat = Some 0xFF /\ registers emu' !! 15%nat = Some 0) /\
  (exists emu' out,
     emulation_cycle 0 reverse_machine = Some (emu', out) /\
     registers emu' !! 0%nat = Some 0x01 /\ registers emu' !! 15%nat = Some 1).
Proof.
  split.
  - destruct (subtract_borrow_flag 0 borrow_machine 0x8015 1 2) as [Hsub _];
      try (vm_compute; first [reflexivity | discriminate]); [wf_by_evaluation |].
    destruct (Hsub eq_refl) as (emu' & out & res & flag & Hc & Hr & Hfl & -> & Hb & _).
    exists emu', out. split; [exact Hc |]. split; [exact Hr |].
    destruct Hb as [[_ Hb] | [-> _]]; [lia | exact Hfl].
  - destruct (subtract_borrow_flag 0 reverse_machine 0x8017 1 2) as [_ Hrev];
      try (vm_compute; first [reflexivity | discriminate]); [wf_by_evaluation |].
    destruct (Hrev eq_refl) as (emu' & out & res & flag & Hc & Hr & Hfl & -> & Hb & _).
    exists emu', out. split; [exact Hc |]. split; [exact Hr |].
    destruct Hb as [[-> _] | [_ Hb]]; [exact Hfl | lia].
Defined.

(** X13.  Add-immediate (7XNN) wraps modulo 256 and writes no flag:
    register X becomes (VX + NN) mod 256 and every other register,
    register 0xF included, keeps its value. *)
Theorem add_immediate_wraps (rnd : Z) (emu : emulator) (opcode vx : Z) :
  wf emu ->
  fetch emu = Some opcode ->
  Z.land opcode 0xF000 = 0x7000 ->
  registers emu !! Z.to_nat (VX opcode) = Some vx ->
  exists emu' out,
    emulation_cycle rnd emu = Some (emu', out) /\
    registers emu' !! Z.to_nat (VX opcode) = Some ((vx + Z.land opcode 0x00FF) mod 256) /\
    (forall j : nat, j <> Z.to_nat (VX opcode) -> registers emu' !! j = registers emu !! j) /\
    program_counter emu' = program_counter emu + 2.
Proof.
  intros Hwf Hf Hc Hvx.
  pose proof (VX_range opcode) as HXr.
  pose proof (wf_registers_length emu Hwf) as Hlen.
  destruct (cycle_registers rnd emu opcode Hwf Hf _
              (execute_add_imm rnd emu opcode Hwf vx Hc Hvx))
    as (emu' & out & Hcy & Hr & Hp & _).
  exists emu', out. split; [exact Hcy |]. rewrite Hr.
  rewrite (u8_small (Z.land opcode 0x00FF)) by apply NN_range.
  repeat apply conj.
  - apply list_lookup_insert_eq. rewrite Hlen. lia.
  - intros j Hj. apply list_lookup_insert_ne. congruence.
  - exact Hp.
Qed.

Lemma add_immediate_wraps_witness :
  exists emu' out,
    emulation_cycle 0 add_imm_machine = Some (emu', out) /\
    registers emu' !! 0%nat = Some 0 /\
    registers emu' !! 15%nat = Some 1.
Proof.
  destruct (add_immediate_wraps 0 add_imm_machine 0x7001 0xFF)
    as (emu' & out & Hc & Hr & Hother & _).
  - wf_by_evaluation.
  - vm_compute; reflexivity.
  - reflexivity.
  - vm_compute; reflexivity.
  - exists emu', out. split; [exact Hc |]. split; [exact Hr |].
    rewrite (Hother 15%nat) by (vm_compute; discriminate). vm_compute; reflexivity.
Defined.

(** X14.  The random byte of CXNN is [rand () % 0xFF], so it is never
    0xFF: register X receives (rnd mod 255) and NN, a value whose bits
    are all bits of NN and which is at most 254, whatever [rand ()]
    returned. *)
Theorem random_never_255 (rnd : Z) (emu : emulator) (opcode : Z) :
  wf emu ->
  fetch emu = Some opcode ->
  Z.land opcode 0xF000 = 0xC000 ->
  0 <= rnd ->
  exists emu' out v,
    emulation_cycle rnd emu = Some (emu', out) /\
    registers emu' !! Z.to_nat (VX opcode) = Some v /\
    v = Z.land (rnd mod 255) (Z.land opcode 0x00FF) /\
    Z.land v (Z.land opcode 0x00FF) = v /\
    0 <= v <= 254 /\
    (forall j : nat, j <> Z.to_nat (VX opcode) -> registers emu' !! j = registers emu !! j).
Proof.
  intros Hwf Hf Hc Hrnd.
  pose proof (VX_range opcode) as HXr.
  pose proof (wf_registers_length emu Hwf) as Hlen.
  destruct (cycle_registers rnd emu opcode Hwf Hf _ (execute_random rnd emu opcode Hwf Hc))
    as (emu' & out & Hcy & Hr & _).
  rewrite Z.rem_mod_nonneg in Hr by lia.
  set (r := rnd mod 255) in *.
  assert (Hrr : 0 <= r < 255) by (apply Z.mod_pos_bound; lia).
  set (v := Z.land r (Z.land opcode 0x00FF)) in *.
  assert (Hv8 : v = Z.land r opcode mod 256).
  { subst v. rewrite Z.land_assoc. change 0x00FF with (Z.ones 8).
    rewrite Z.land_ones by lia. reflexivity. }
  assert (Hvr : 0 <= v < 256) by (rewrite Hv8; apply Z.mod_pos_bound; lia).
  assert (Hsub : Z.land v r = v).
  { subst v. rewrite (Z.land_comm r), <- Z.land_assoc, Z.land_diag. reflexivity. }
  assert (Hne : v <> 255).
  { intros H255. rewrite H255 in Hsub. change 255 with (Z.ones 8) in Hsub at 1.
    rewrite Z.land_comm, Z.land_ones in Hsub by lia.
    rewrite Z.mod_small in Hsub by lia. lia. }
  rewrite (u8_small v) in Hr by lia.
  exists emu', out, v. split; [exact Hcy |]. rewrite Hr.
  split; [apply list_lookup_insert_eq; rewrite Hlen; lia |].
  split; [reflexivity |].
  split; [subst v; rewrite <- Z.land_assoc, Z.land_diag; reflexivity |].
  split; [lia |].
  intros j Hj. apply list_lookup_insert_ne. congruence.
Qed.

Lemma random_never_255_witness :
  exists emu' out v,
    emulation_cycle 254 random_machine = Some (emu', out) /\
    registers emu' !! 0%nat = Some v /\ 0 <= v <= 254.
Proof.
  destruct (random_never_255 254 random_machine 0xC0FF)
    as (emu' & out & v & Hc & Hr & _ & _ & Hv & _).
  - wf_by_evaluation.
  - vm_compute; reflexivity.
  - reflexivity.
  - lia.
  - exists emu', out, v. split; [exact Hc |]. split; [exact Hr | exact Hv].
Defined.

(** ** Clear-screen (00E0) *)

Lemma clear_loop (k : nat) :
  forall (i : Z) (a : list Z),
    0 <= i -> i + Z.of_nat k <= Z.of_nat (length a) ->
    for_range k i (fun j g => store g j 0) a =
      Some (list_inserts (Z.to_nat i) (replicate k 0) a).
Proof.
  induction k as [| k IH]; intros i a Hi Hk.
  - reflexivity.
  - rewrite for_range_S. rewrite store_in by lia. cbn [mbind option_bind].
    rewrite IH by (rewrite ?length_insert; lia).
    cbn [replicate list_inserts].
    replace (Z.to_nat (i + 1)) with (S (Z.to_nat i)) by lia.
    rewrite list_insert_inserts_lt by lia. reflexivity.
Qed.

Lemma inserts_whole (k a : list Z) : length k = length a -> list_inserts 0 k a = k.
Proof.
  intros Hlen. pose proof (list_inserts_0_l k [] a Hlen) as E.
  rewrite app_nil_r in E. exact E.
Qed.

(** X15.  Clear-screen zeroes all 2048 cells of the framebuffer, whatever
    they held, sets the draw flag and advances the program counter by
    2; the registers, the memory and the call stack are unchanged. *)
Theorem clear_screen_zeroes (rnd : Z) (emu : emulator) (opcode : Z) :
  wf emu ->
  fetch emu = Some opcode ->
  Z.land opcode 0xF000 = 0x0000 -> Z.land opcode 0x00FF = 0xE0 ->
  exists emu' out,
    emulation_cycle rnd emu = Some (emu', out) /\
    gfx emu' = replicate 2048 0 /\
    draw_flag emu' = true /\
    program_counter emu' = program_counter emu + 2 /\
    registers emu' = registers emu /\ memory emu' = memory emu /\
    stack emu' = stack emu /\ stack_ptr emu' = stack_ptr emu.
Proof.
  intros Hwf Hf Hc Hs.
  destruct (wf_gfx_ok emu Hwf) as [Hgl _].
  assert (He : execute rnd opcode emu =
               Some (Break (advance 2 (set_draw_flag true
                       (set_gfx (replicate 2048 0) emu))) [])).
  { unfold execute. rewrite Hc, Hs. unfold op_clear_screen.
    rewrite clear_loop by (rewrite ?Hgl; lia). cbn [mbind option_bind].
    change (Z.to_nat (64 * 32)) with 2048%nat. change (Z.to_nat 0) with 0%nat.
    rewrite inserts_whole by (rewrite length_replicate, Hgl; reflexivity).
    reflexivity. }
  eexists _, _. split; [exact (cycle_break _ _ _ _ _ Hf He) |].
  match goal with
  | |- context [tick_timers ?e] =>
      destruct (tick_timers_frame e) as (Hm & _ & Hr & _ & Hp & Hg & Hd & Hst & Hsp & _)
  end.
  rewrite Hm, Hr, Hp, Hg, Hd, Hst, Hsp.
  cbn [gfx draw_flag program_counter registers memory stack stack_ptr advance
       set_program_counter set_draw_flag set_gfx].
  rewrite (fetch_advance emu Hwf opcode Hf). repeat apply conj; reflexivity.
Qed.

Lemma clear_screen_zeroes_witness :
  gfx clear_machine !! 100%nat = Some 0xFFFFFFFF /\
  exists emu' out,
    emulation_cycle 0 clear_machine = Some (emu', out) /\
    gfx emu' = replicate 2048 0 /\ draw_flag emu' = true.
Proof.
  split; [vm_compute; reflexivity |].
  destruct (clear_screen_zeroes 0 clear_machine 0x00E0)
    as (emu' & out & Hc & Hg & Hd & _).
  - wf_by_evaluation.
  - vm_compute; reflexivity.
  - reflexivity.
  - reflexivity.
  - exists emu', out. split; [exact Hc |]. split; [exact Hg | exact Hd].
Defined.

(** ** The instruction word and its fields *)

Lemma lor_bytes (hi lo : Z) :
  0 <= lo < 256 -> Z.lor (Z.shiftl hi 8) lo = 256 * hi + lo.
Proof.
  intros Hlo.
  assert (Hdisj : Z.land (Z.shiftl hi 8) lo = 0).
  { rewrite <- (Z.mod_small lo 256) at 1 by lia.
    change 256 with (2 ^ 8). rewrite <- Z.land_ones by lia.
    rewrite (Z.land_comm lo), Z.land_assoc.
    rewrite (Z.land_ones (Z.shiftl hi 8)) by lia.
    rewrite Z.shiftl_mul_pow2 by lia. change (2 ^ 8) with 256.
    rewrite Z.mod_mul by lia.
    apply Z.land_0_l. }
  pose proof (Z.add_lor_land (Z.shiftl hi 8) lo) as H.
  rewrite Hdisj, Z.add_0_r in H. rewrite H.
  rewrite Z.shiftl_mul_pow2 by lia. change (2 ^ 8) with 256. lia.
Qed.

Lemma land_split (o a b : Z) :
  Z.land a b = 0 -> Z.land o a + Z.land o b = Z.land o (Z.lor a b).
Proof.
  intros Hab. rewrite Z.land_lor_distr_r.
  rewrite <- Z.add_lor_land.
  replace (Z.land (Z.land o a) (Z.land o b)) with 0; [lia |].
  symmetry. apply Z.bits_inj'. intros n Hn.
  rewrite !Z.land_spec, Z.bits_0.
  assert (Hn0 : Z.testbit a n && Z.testbit b n = false).
  { rewrite <- Z.land_spec, Hab. apply Z.bits_0. }
  destruct (Z.testbit o n), (Z.testbit a n), (Z.testbit b n);
    simpl in *; congruence.
Qed.

Lemma class_value (o : Z) : 0 <= o < 65536 -> Z.land o 0xF000 = o - o mod 4096.
Proof.
  intros Ho. pose proof (land_split o 0xF000 0x0FFF eq_refl) as H.
  change (Z.lor 0xF000 0x0FFF) with (Z.ones 16) in H.
  change 0x0FFF with (Z.ones 12) in H.
  rewrite !Z.land_ones in H by lia.
  change (2 ^ 16) with 65536 in H. change (2 ^ 12) with 4096 in H.
  rewrite (Z.mod_small o 65536) in H by lia. lia.
Qed.

(** X16.  The instruction word is the two bytes at the program counter,
    most significant first, and the fields the handlers use are its
    nibbles: the class is the high nibble of the first byte, X its low
    nibble, Y the high nibble of the second byte, N its low nibble, NN
    the second byte and NNN the low twelve bits. *)
Theorem fetch_big_endian (emu : emulator) (opcode : Z) :
  wf emu ->
  fetch emu = Some opcode ->
  exists hi lo,
    memory emu !! Z.to_nat (program_counter emu) = Some hi /\
    memory emu !! Z.to_nat (program_counter emu + 1) = Some lo /\
    opcode = 256 * hi + lo /\
    Z.land opcode 0xF000 = 4096 * (hi / 16) /\
    VX opcode = hi mod 16 /\
    VY opcode = lo / 16 /\
    Z.land opcode 0x000F = lo mod 16 /\
    Z.land opcode 0x00FF = lo /\
    Z.land opcode 0x0FFF = 256 * (hi mod 16) + lo.
Proof.
  intros Hwf Hf. unfold fetch in Hf.
  destruct (load (memory emu) (program_counter emu)) as [hi |] eqn:Hhi; [| discriminate].
  destruct (load (memory emu) (program_counter emu + 1)) as [lo |] eqn:Hlo; [| discriminate].
  cbn [mbind option_bind] in Hf. injection Hf as <-.
  pose proof (load_ok _ _ _ _ _ Hhi (wf_memory_ok emu Hwf)) as Hhr.
  pose proof (load_ok _ _ _ _ _ Hlo (wf_memory_ok emu Hwf)) as Hlr.
  apply in_range_spec in Hhr, Hlr.
  apply load_Some in Hhi as [_ Hhi]. apply load_Some in Hlo as [_ Hlo].
  exists hi, lo. split; [exact Hhi |]. split; [exact Hlo |].
  rewrite lor_bytes by lia. rewrite u16_small by lia.
  split; [reflexivity |].
  split; [rewrite class_value by lia; Z.div_mod_to_equations; lia |].
  split.
  { unfold VX. rewrite Z.shiftr_land. change (Z.shiftr 0x0F00 8) with (Z.ones 4).
    rewrite Z.land_ones, Z.shiftr_div_pow2 by lia.
    change (2 ^ 8) with 256. change (2 ^ 4) with 16. Z.div_mod_to_equations. lia. }
  split.
  { unfold VY. rewrite Z.shiftr_land. change (Z.shiftr 0x00F0 4) with (Z.ones 4).
    rewrite Z.land_ones, Z.shiftr_div_pow2 by lia.
    change (2 ^ 4) with 16. Z.div_mod_to_equations. lia. }
  split.
  { change 0x000F with (Z.ones 4). rewrite Z.land_ones by lia.
    change (2 ^ 4) with 16. Z.div_mod_to_equations. lia. }
  split.
  { change 0x00FF with (Z.ones 8). rewrite Z.land_ones by lia.
    change (2 ^ 8) with 256. Z.div_mod_to_equations. lia. }
  change 0x0FFF with (Z.ones 12). rewrite Z.land_ones by lia.
  change (2 ^ 12) with 4096. Z.div_mod_to_equations. lia.
Qed.

Lemma fetch_big_endian_witness :
  exists hi lo,
    memory add_carry_machine !! Z.to_nat 0x200 = Some hi /\
    memory add_carry_machine !! Z.to_nat 0x201 = Some lo /\
    0x8014 = 256 * hi + lo /\ VX 0x8014 = hi mod 16 /\ VY 0x8014 = lo / 16.
Proof.
  destruct (fetch_big_endian add_carry_machine 0x8014)
    as (hi & lo & Hhi & Hlo & Hop & _ & HX & HY & _).
  - wf_by_evaluation.
  - vm_compute; reflexivity.
  - exists hi, lo. repeat apply conj; assumption.
Defined.

(** ** The font *)

Lemma load_rom_memory (emu : emulator) (file : rom_file) :
  exists got,
    memory (load_rom emu file).1.2 = list_inserts (Z.to_nat 0x200) got (memory emu).
Proof.
  destruct file as [| contents delivered]; [exists []; reflexivity |].
  unfold load_rom.
  destruct (Z.of_nat (length contents) <=? 0xFFF - 0x200); [| exists []; reflexivity].
  exists (fread contents delivered (length contents)).
  destruct (length (fread contents delivered (length contents)) =? length contents)%nat;
    reflexivity.
Qed.

(** X17.  After [init] and [load_rom], whatever the file and whether the
    load succeeds, the 80 bytes at 0x50 are the font table: the loader
    writes from 0x200 on only. *)
Theorem startup_font (emu : emulator) (file : rom_file) :
  length (memory emu) = 4096%nat ->
  take 80 (drop (Z.to_nat 0x50) (memory (load_rom (init emu) file).1.2)) = font_set.
Proof.
  intros Hlen. destruct (load_rom_memory (init emu) file) as [got ->].
  unfold init. cbn [memory set_memory set_program_counter].
  change (Z.to_nat 0x200) with 512%nat. change (Z.to_nat 0x50) with 80%nat.
  apply list_eq. intros i.
  destruct (decide (i < 80)%nat) as [Hi | Hi].
  - rewrite lookup_take_lt by lia. rewrite lookup_drop.
    rewrite list_lookup_inserts_lt by lia.
    apply lookup_inserts_at; [rewrite Hlen; simpl; lia | exact Hi].
  - rewrite lookup_take_ge by lia. symmetry. apply lookup_ge_None_2. simpl. lia.
Qed.

Lemma startup_font_witness :
  take 80 (drop (Z.to_nat 0x50) (memory (load_rom (init zero_emulator) short_read).1.2))
  = font_set.
Proof. apply startup_font. vm_compute; reflexivity. Defined.

(** X18.  FX29 points the index register at the glyph of the digit in
    register X: I becomes 0x50 + 5 * VX, and in a machine whose font
    table is in place the five bytes at I are the five bytes of glyph VX
    for every digit VX from 0 to 15. *)
Theorem font_glyph (rnd : Z) (emu : emulator) (opcode vx : Z) :
  wf emu ->
  take 80 (drop (Z.to_nat 0x50) (memory emu)) = font_set ->
  fetch emu = Some opcode ->
  Z.land opcode 0xF000 = 0xF000 -> Z.land opcode 0x00FF = 0x29 ->
  registers emu !! Z.to_nat (VX opcode) = Some vx ->
  exists emu' out,
    emulation_cycle rnd emu = Some (emu', out) /\
    index_register emu' = 0x50 + 5 * vx /\
    memory emu' = memory emu /\ registers emu' = registers emu /\
    (vx <= 15 ->
     take 5 (drop (Z.to_nat (index_register emu')) (memory emu')) =
     take 5 (drop (Z.to_nat (5 * vx)) font_set)).
Proof.
  intros Hwf Hfont Hf Hc Hs Hvx.
  pose proof (VX_range opcode) as HX.
  pose proof (wf_register emu Hwf _ _ Hvx) as Hr.
  assert (He : execute rnd opcode emu =
               Some (Break (advance 2 (set_index_register (0x50 + 5 * vx) emu)) [])).
  { unfold execute. rewrite Hc, Hs. unfold op_font.
    rewrite load_lookup by lia. rewrite Hvx. cbn [mbind option_bind].
    rewrite u16_small by lia. unfold next. do 4 f_equal. lia. }
  eexists _, _. split; [exact (cycle_break _ _ _ _ _ Hf He) |].
  match goal with
  | |- context [tick_timers ?e] =>
      destruct (tick_timers_frame e) as (Hm & _ & Hrg & Hi & _)
  end.
  rewrite Hm, Hrg, Hi.
  cbn [memory registers index_register advance set_program_counter set_index_register].
  repeat apply conj; try reflexivity.
  intros Hdigit. rewrite <- Hfont.
  change (Z.to_nat 0x50) with 80%nat.
  apply list_eq. intros i.
  destruct (decide (i < 5)%nat) as [Hi5 | Hi5].
  - rewrite !lookup_take_lt by lia. rewrite !lookup_drop.
    rewrite lookup_take_lt by lia. rewrite lookup_drop. f_equal. lia.
  - rewrite !lookup_take_ge by lia. reflexivity.
Qed.

Lemma font_glyph_witness :
  exists emu' out,
    emulation_cycle 0 font_machine = Some (emu', out) /\
    index_register emu' = 0x50 + 5 * 0xA /\
    take 5 (drop (Z.to_nat (index_register emu')) (memory emu')) =
    [0xF0; 0x90; 0xF0; 0x90; 0x90].
Proof.
  destruct (font_glyph 0 font_machine 0xF029 0xA)
    as (emu' & out & Hc & Hi & _ & _ & Hg).
  - wf_by_evaluation.
  - vm_compute; reflexivity.
  - vm_compute; reflexivity.
  - reflexivity.
  - reflexivity.
  - vm_compute; reflexivity.
  - exists emu', out. split; [exact Hc |]. split; [exact Hi |].
    rewrite Hg by lia. reflexivity.
Defined.

(** ** The keys *)

Lemma keypad_range (code : keycode) (k : nat) : keypad code = Some k -> (k < 16)%nat.
Proof. destruct code; intros [= <-]; lia. Qed.

Lemma handle_key_down (running : bool) (emu : emulator) (code : keycode) (k : nat) :
  keypad code = Some k ->
  handle_input running emu [SDL_KEYDOWN code] =
    (running, set_keys (<[k := 1]> (keys emu)) emu).
Proof. destruct code; intros [= <-]; reflexivity. Qed.

Lemma handle_key_up (running : bool) (emu : emulator) (code : keycode) (k : nat) :
  keypad code = Some k ->
  handle_input running emu [SDL_KEYUP code] =
    (running, set_keys (<[k := 0]> (keys emu)) emu).
Proof. destruct code; intros [= <-]; reflexivity. Qed.

(** The key test on a machine whose key flags were just replaced. *)
Lemma cycle_key_test (rnd : Z) (emu : emulator) (opcode : Z) (k : nat) (v : Z) :
  wf emu ->
  fetch emu = Some opcode ->
  Z.land opcode 0xF000 = 0xE000 ->
  registers emu !! Z.to_nat (VX opcode) = Some (Z.of_nat k) ->
  (k < 16)%nat ->
  forall (taken : bool),
    (Z.land opcode 0x00FF = 0x9E /\ taken = negb (v =? 0) \/
     Z.land opcode 0x00FF = 0xA1 /\ taken = (v =? 0)) ->
    exists emu' out,
      emulation_cycle rnd (set_keys (<[k := v]> (keys emu)) emu) = Some (emu', out) /\
      program_counter emu' = program_counter emu + (if taken then 4 else 2).
Proof.
  intros Hwf Hf Hc Hvx Hk taken Hs.
  pose proof (VX_range opcode) as HX.
  pose proof (wf_keys_length emu Hwf) as Hkl.
  pose proof (fetch_bounds emu Hwf opcode Hf) as Hpc.
  assert (Hf' : fetch (set_keys (<[k := v]> (keys emu)) emu) = Some opcode) by exact Hf.
  assert (Hkey : load (<[k := v]> (keys emu)) (Z.of_nat k) = Some v).
  { rewrite load_lookup by lia. rewrite Nat2Z.id.
    apply list_lookup_insert_eq. lia. }
  assert (He : execute rnd opcode (set_keys (<[k := v]> (keys emu)) emu) =
               Some (Break (advance (if taken then 4 else 2)
                              (set_keys (<[k := v]> (keys emu)) emu)) [])).
  { unfold execute. rewrite Hc.
    destruct Hs as [[Hs ->] | [Hs ->]]; rewrite Hs;
      [unfold op_skip_key | unfold op_skip_not_key];
      cbn [registers keys set_keys];
      rewrite load_lookup by lia; rewrite Hvx; cbn [mbind option_bind];
      rewrite Hkey; reflexivity. }
  eexists _, _. split; [exact (cycle_break _ _ _ _ _ Hf' He) |].
  match goal with
  | |- context [tick_timers ?e] =>
      destruct (tick_timers_frame e) as (_ & _ & _ & _ & Hp & _)
  end.
  rewrite Hp. cbn [program_counter advance set_program_counter set_keys].
  apply u16_small. destruct taken; lia.
Qed.

(** X19.  A key press reaches the key tests.  When register X holds the
    key that [code] is mapped to, then after [handle_input] has seen the
    key go down EX9E skips the next instruction and EXA1 does not, and
    after it has seen the key go up EX9E does not skip and EXA1 does. *)
Theorem key_press_reaches_test (rnd : Z) (running : bool) (emu : emulator)
    (opcode : Z) (code : keycode) (k : nat) :
  wf emu ->
  fetch emu = Some opcode ->
  Z.land opcode 0xF000 = 0xE000 ->
  keypad code = Some k ->
  registers emu !! Z.to_nat (VX opcode) = Some (Z.of_nat k) ->
  (Z.land opcode 0x00FF = 0x9E ->
   (exists emu' out,
      emulation_cycle rnd (handle_input running emu [SDL_KEYDOWN code]).2
        = Some (emu', out) /\
      program_counter emu' = program_counter emu + 4) /\
   (exists emu' out,
      emulation_cycle rnd (handle_input running emu [SDL_KEYUP code]).2
        = Some (emu', out) /\
      program_counter emu' = program_counter emu + 2)) /\
  (Z.land opcode 0x00FF = 0xA1 ->
   (exists emu' out,
      emulation_cycle rnd (handle_input running emu [SDL_KEYDOWN code]).2
        = Some (emu', out) /\
      program_counter emu' = program_counter emu + 2) /\
   (exists emu' out,
      emulation_cycle rnd (handle_input running emu [SDL_KEYUP code]).2
        = Some (emu', out) /\
      program_counter emu' = program_counter emu + 4)).
Proof.
  intros Hwf Hf Hc Hcode Hvx.
  pose proof (keypad_range code k Hcode) as Hk.
  rewrite (handle_key_down running emu code k Hcode).
  rewrite (handle_key_up running emu code k Hcode). cbn [snd].
  split; intros Hs; split.
  - apply (cycle_key_test rnd emu opcode k 1 Hwf Hf Hc Hvx Hk true).
    left. split; [exact Hs | reflexivity].
  - apply (cycle_key_test rnd emu opcode k 0 Hwf Hf Hc Hvx Hk false).
    left. split; [exact Hs | reflexivity].
  - apply (cycle_key_test rnd emu opcode k 1 Hwf Hf Hc Hvx Hk false).
    right. split; [exact Hs | reflexivity].
  - apply (cycle_key_test rnd emu opcode k 0 Hwf Hf Hc Hvx Hk true).
    right. split; [exact Hs | reflexivity].
Qed.

Lemma key_press_reaches_test_witness :
  exists emu' out,
    emulation_cycle 0 (handle_input true key_skip_machine [SDL_KEYDOWN SDLK_q]).2
      = Some (emu', out) /\
    program_counter emu' = 0x204.
Proof.
  destruct (key_press_reaches_test 0 true key_skip_machine 0xE09E SDLK_q 4)
    as [Hskip _].
  - wf_by_evaluation.
  - vm_compute; reflexivity.
  - reflexivity.
  - reflexivity.
  - vm_compute; reflexivity.
  - destruct (Hskip eq_refl) as [(emu' & out & Hc & Hp) _].
    exists emu', out. split; [exact Hc | exact Hp].
Defined.

(** ** Drawing a sprite twice *)

Lemma toggle_length (g : list Z) (p : Z) : length (toggle g p) = length g.
Proof. unfold toggle. destruct (load g p); [apply length_insert | reflexivity]. Qed.

Lemma toggles_length (cs : list Z) (g : list Z) :
  length (fold_left toggle cs g) = length g.
Proof.
  revert g. induction cs as [| c cs IH]; intros g; [reflexivity |].
  simpl. rewrite IH. apply toggle_length.
Qed.

Lemma flip_value (v : Z) :
  0 <= v < 4294967296 -> Z.lxor v 0xFFFFFFFF = 4294967295 - v.
Proof.
  intros Hv. rewrite <- Z.sub_lor_land.
  change 0xFFFFFFFF with (Z.ones 32).
  rewrite Z.land_ones by lia. change (2 ^ 32) with 4294967296.
  rewrite Z.mod_small by lia.
  rewrite Z.lor_ones_low; [reflexivity | lia |].
  destruct (Z.eq_dec v 0) as [-> | Hne]; [reflexivity |].
  apply Z.log2_lt_pow2; lia.
Qed.

Lemma flip_flip (v : Z) :
  0 <= v < 4294967296 ->
  u32 (Z.lxor (u32 (Z.lxor v 0xFFFFFFFF)) 0xFFFFFFFF) = v.
Proof.
  intros Hv. rewrite (flip_value v Hv). unfold u32.
  rewrite (Z.mod_small (4294967295 - v)) by lia.
  rewrite flip_value by lia. rewrite Z.mod_small by lia. lia.
Qed.

Lemma toggle_ok (n : nat) (g : list Z) (p : Z) :
  array_ok n 4294967296 g -> array_ok n 4294967296 (toggle g p).
Proof.
  intros [Hlen Hall]. unfold toggle. destruct (load g p) as [v |]; [| split; assumption].
  split; [rewrite length_insert; exact Hlen |].
  apply forallb_insert; [exact Hall | apply u32_ok].
Qed.

Lemma toggle_toggle (n : nat) (g : list Z) (p : Z) :
  array_ok n 4294967296 g -> toggle (toggle g p) p = g.
Proof.
  intros [Hlen Hall]. unfold toggle at 2.
  destruct (load g p) as [v |] eqn:Hl.
  - pose proof Hl as Hin. apply load_Some in Hin as [Hin Hlk].
    assert (Hv : 0 <= v < 4294967296).
    { apply in_range_spec. eapply forallb_lookup; eassumption. }
    unfold toggle. rewrite load_lookup by lia.
    rewrite list_lookup_insert_eq by lia.
    rewrite list_insert_insert_eq, flip_flip by exact Hv.
    apply list_insert_id. exact Hlk.
  - unfold toggle. rewrite Hl. reflexivity.
Qed.

Lemma load_toggle_ne (g : list Z) (p q : Z) : p <> q -> load (toggle g p) q = load g q.
Proof.
  intros Hne. unfold toggle. destruct (load g p) as [v |] eqn:Hl; [| reflexivity].
  apply load_Some in Hl as [Hp _]. unfold load.
  destruct (Z.ltb_spec q 0); [reflexivity |].
  apply list_lookup_insert_ne. lia.
Qed.

Lemma toggle_unfold (g : list Z) (p : Z) :
  toggle g p = match load g p with
               | Some v => <[Z.to_nat p := u32 (Z.lxor v 0xFFFFFFFF)]> g
               | None => g
               end.
Proof. reflexivity. Qed.

Lemma toggle_comm (g : list Z) (p q : Z) :
  toggle (toggle g p) q = toggle (toggle g q) p.
Proof.
  destruct (Z.eq_dec p q) as [-> | Hne]; [reflexivity |].
  rewrite (toggle_unfold (toggle g p) q), (toggle_unfold (toggle g q) p).
  rewrite load_toggle_ne by exact Hne. rewrite load_toggle_ne by congruence.
  rewrite !toggle_unfold.
  destruct (load g p) as [a |] eqn:Hp; destruct (load g q) as [b |] eqn:Hq;
    try reflexivity.
  apply load_Some in Hp as [Hp _]. apply load_Some in Hq as [Hq _].
  apply list_insert_insert_ne. lia.
Qed.

Lemma toggles_toggle (cs : list Z) (g : list Z) (c : Z) :
  toggle (fold_left toggle cs g) c = fold_left toggle cs (toggle g c).
Proof.
  revert g. induction cs as [| a cs IH]; intros g; [reflexivity |].
  simpl. rewrite IH, toggle_comm. reflexivity.
Qed.

(** Toggling the same cells twice, in any order and with repetitions,
    gives the framebuffer back. *)
Lemma toggles_twice (n : nat) (cs : list Z) :
  forall g, array_ok n 4294967296 g -> fold_left toggle cs (fold_left toggle cs g) = g.
Proof.
  induction cs as [| c cs IH]; intros g Hg; [reflexivity |].
  simpl. rewrite toggles_toggle. rewrite (toggle_toggle n g c Hg).
  apply IH. exact Hg.
Qed.

Lemma cells_within_app (n : nat) (a b : list Z) :
  cells_within n (a ++ b) <-> cells_within n a /\ cells_within n b.
Proof. unfold cells_within. apply Forall_app. Qed.

(** *** The inner loop *)

Lemma draw_bit_cells vx vy row y x e e' :
  length (registers e) = 16%nat ->
  draw_bit vx vy row y x e = Some e' ->
  gfx e' = fold_left toggle (bit_cells vx vy row y x) (gfx e) /\
  cells_within (length (gfx e)) (bit_cells vx vy row y x) /\
  length (registers e') = 16%nat.
Proof.
  intros Hlen. unfold draw_bit, bit_cells. cbv zeta.
  destruct (u8 (Z.land row (Z.shiftr 0x80 x)) =? 0).
  - intros [= <-]. repeat apply conj; [reflexivity | constructor | exact Hlen].
  - intros H.
    destruct (load (gfx e) (dest_pixel vx vy x y)) as [g |] eqn:Hg; [| discriminate].
    cbn [mbind option_bind] in H.
    destruct (if g =? 0xFFFFFFFF then store (registers e) 0xF 1 else Some (registers e))
      as [r |] eqn:Hr; [| discriminate].
    cbn [mbind option_bind] in H.
    destruct (store (gfx e) (dest_pixel vx vy x y) (u32 (Z.lxor g 0xFFFFFFFF)))
      as [g' |] eqn:Hg'; [| discriminate].
    cbn [mbind option_bind] in H. injection H as <-.
    apply store_Some in Hg' as [Hin ->].
    cbn [gfx registers set_gfx set_registers fold_left].
    unfold toggle. rewrite Hg.
    repeat apply conj; [reflexivity | constructor; [exact Hin | constructor] |].
    destruct (g =? 0xFFFFFFFF).
    + apply store_Some in Hr as [_ ->]. rewrite length_insert. exact Hlen.
    + injection Hr as <-. exact Hlen.
Qed.

Lemma draw_bit_runs vx vy row y x e :
  length (registers e) = 16%nat ->
  cells_within (length (gfx e)) (bit_cells vx vy row y x) ->
  exists e', draw_bit vx vy row y x e = Some e'.
Proof.
  intros Hlen. unfold draw_bit, bit_cells. cbv zeta.
  destruct (u8 (Z.land row (Z.shiftr 0x80 x)) =? 0); [eexists; reflexivity |].
  intros Hin. apply Forall_cons in Hin as [Hin _].
  destruct (load_in_bounds (gfx e) (dest_pixel vx vy x y) Hin) as [g Hg].
  rewrite Hg. cbn [mbind option_bind].
  rewrite (store_in (gfx e)) by exact Hin.
  destruct (g =? 0xFFFFFFFF).
  - rewrite store_in by (rewrite Hlen; lia). eexists. reflexivity.
  - eexists. reflexivity.
Qed.

Lemma draw_bits_cells vx vy row y (n : nat) :
  forall i e e',
    length (registers e) = 16%nat ->
    for_range n i (draw_bit vx vy row y) e = Some e' ->
    gfx e' = fold_left toggle (range_cells n i (bit_cells vx vy row y)) (gfx e) /\
    cells_within (length (gfx e)) (range_cells n i (bit_cells vx vy row y)) /\
    length (registers e') = 16%nat /\
    agree_outside_display e e'.
Proof.
  induction n as [| n IH]; intros i e e' Hlen Hl.
  - rewrite for_range_O in Hl. injection Hl as <-.
    split; [reflexivity | split; [exact (Forall_nil_2 _) | split; [exact Hlen |]]].
    apply agree_outside_display_refl.
  - rewrite for_range_S in Hl.
    destruct (draw_bit vx vy row y i e) as [e1 |] eqn:Hb; [| discriminate].
    cbn [mbind option_bind] in Hl.
    destruct (draw_bit_cells _ _ _ _ _ _ _ Hlen Hb) as (Hg1 & Hc1 & Hr1).
    destruct (IH _ _ _ Hr1 Hl) as (Hg & Hc & Hr & Ha).
    cbn [range_cells]. rewrite fold_left_app, <- Hg1.
    split; [| split; [| split]].
    + exact Hg.
    + apply cells_within_app. split; [exact Hc1 |].
      rewrite Hg1, toggles_length in Hc. exact Hc.
    + exact Hr.
    + eapply agree_outside_display_trans; [eapply draw_bit_agree; exact Hb | exact Ha].
Qed.

Lemma draw_bits_run vx vy row y (n : nat) :
  forall i e,
    length (registers e) = 16%nat ->
    cells_within (length (gfx e)) (range_cells n i (bit_cells vx vy row y)) ->
    exists e', for_range n i (draw_bit vx vy row y) e = Some e'.
Proof.
  induction n as [| n IH]; intros i e Hlen Hin.
  - eexists. reflexivity.
  - cbn [range_cells] in Hin. apply cells_within_app in Hin as [Hin1 Hin2].
    destruct (draw_bit_runs vx vy row y i e Hlen Hin1) as [e1 Hb].
    rewrite for_range_S, Hb. cbn [mbind option_bind].
    destruct (draw_bit_cells _ _ _ _ _ _ _ Hlen Hb) as (Hg1 & _ & Hr1).
    apply IH; [exact Hr1 |]. rewrite Hg1, toggles_length. exact Hin2.
Qed.

(** *** The outer loop *)

Lemma draw_row_cells vx vy y e e' :
  length (registers e) = 16%nat ->
  draw_row vx vy y e = Some e' ->
  gfx e' = fold_left toggle (row_cells (memory e) (index_register e) vx vy y) (gfx e) /\
  cells_within (length (gfx e)) (row_cells (memory e) (index_register e) vx vy y) /\
  length (registers e') = 16%nat /\
  agree_outside_display e e' /\
  is_Some (load (memory e) (index_register e + y)).
Proof.
  intros Hlen. unfold draw_row, row_cells. cbv zeta.
  destruct (load (memory e) (index_register e + y)) as [row |]; [| discriminate].
  cbn [mbind option_bind]. intros Hl.
  destruct (draw_bits_cells _ _ _ _ _ _ _ _ Hlen Hl) as (Hg & Hc & Hr & Ha).
  split; [exact Hg | split; [exact Hc | split; [exact Hr | split; [exact Ha |]]]].
  eexists. reflexivity.
Qed.

Lemma draw_row_runs vx vy y e :
  length (registers e) = 16%nat ->
  is_Some (load (memory e) (index_register e + y)) ->
  cells_within (length (gfx e)) (row_cells (memory e) (index_register e) vx vy y) ->
  exists e', draw_row vx vy y e = Some e'.
Proof.
  intros Hlen [row Hrow]. unfold draw_row, row_cells. cbv zeta. rewrite Hrow.
  cbn [mbind option_bind]. apply draw_bits_run. exact Hlen.
Qed.

Lemma draw_rows_cells vx vy (n : nat) :
  forall i e e',
    length (registers e) = 16%nat ->
    for_range n i (draw_row vx vy) e = Some e' ->
    gfx e' = fold_left toggle
               (range_cells n i (row_cells (memory e) (index_register e) vx vy)) (gfx e) /\
    cells_within (length (gfx e))
      (range_cells n i (row_cells (memory e) (index_register e) vx vy)) /\
    (forall j, i <= j < i + Z.of_nat n ->
       is_Some (load (memory e) (index_register e + j))).
Proof.
  induction n as [| n IH]; intros i e e' Hlen Hl.
  - rewrite for_range_O in Hl. injection Hl as <-.
    repeat apply conj; [reflexivity | exact (Forall_nil_2 _) | intros j Hj; lia].
  - rewrite for_range_S in Hl.
    destruct (draw_row vx vy i e) as [e1 |] eqn:Hb; [| discriminate].
    cbn [mbind option_bind] in Hl.
    destruct (draw_row_cells _ _ _ _ _ Hlen Hb) as (Hg1 & Hc1 & Hr1 & Ha1 & Hrow).
    destruct (IH _ _ _ Hr1 Hl) as (Hg & Hc & Hrows).
    destruct Ha1 as (Hm & _ & Hi & _).
    rewrite Hm, Hi in Hg, Hc, Hrows.
    cbn [range_cells]. rewrite fold_left_app, <- Hg1.
    repeat apply conj.
    + exact Hg.
    + apply cells_within_app. split; [exact Hc1 |].
      rewrite Hg1, toggles_length in Hc. exact Hc.
    + intros j Hj. destruct (Z.eq_dec j i) as [-> | Hne]; [exact Hrow |].
      apply Hrows. lia.
Qed.

Lemma draw_rows_run vx vy (n : nat) :
  forall i e,
    length (registers e) = 16%nat ->
    (forall j, i <= j < i + Z.of_nat n ->
       is_Some (load (memory e) (index_register e + j))) ->
    cells_within (length (gfx e))
      (range_cells n i (row_cells (memory e) (index_register e) vx vy)) ->
    exists e', for_range n i (draw_row vx vy) e = Some e'.
Proof.
  induction n as [| n IH]; intros i e Hlen Hrows Hin.
  - eexists. reflexivity.
  - cbn [range_cells] in Hin. apply cells_within_app in Hin as [Hin1 Hin2].
    destruct (draw_row_runs vx vy i e Hlen (Hrows i ltac:(lia)) Hin1) as [e1 Hb].
    rewrite for_range_S, Hb. cbn [mbind option_bind].
    destruct (draw_row_cells _ _ _ _ _ Hlen Hb) as (Hg1 & _ & Hr1 & Ha1 & _).
    destruct Ha1 as (Hm & _ & Hi & _).
    apply IH; [exact Hr1 | |].
    + intros j Hj. rewrite Hm, Hi. apply Hrows. lia.
    + rewrite Hm, Hi, Hg1, toggles_length. exact Hin2.
Qed.

(** *** The instruction *)

Section Draw.
Variables (rnd : Z) (emu : emulator) (opcode vx vy : Z).
Hypothesis Hlen : length (registers emu) = 16%nat.
Hypothesis Hc : Z.land opcode 0xF000 = 0xD000.
Hypothesis Hvx : registers emu !! Z.to_nat (VX opcode) = Some vx.
Hypothesis Hvy : registers emu !! Z.to_nat (VY opcode) = Some vy.

Lemma execute_draw_unfold :
  execute rnd opcode emu =
    (e ← for_range (Z.to_nat (Z.land opcode 0x000F)) 0 (draw_row vx vy)
           (set_registers (<[15%nat := 0]> (registers emu)) emu);
     next (set_draw_flag true e)).
Proof.
  pose proof (VX_range opcode) as HX. pose proof (VY_range opcode) as HY.
  unfold execute. rewrite Hc. unfold op_draw. fold (VX opcode). fold (VY opcode).
  rewrite !load_lookup by lia. rewrite Hvx, Hvy. cbn [mbind option_bind]. cbv zeta.
  rewrite store_in by (rewrite Hlen; lia). reflexivity.
Qed.

Lemma execute_draw_cells (f : flow) :
  execute rnd opcode emu = Some f ->
  gfx (flow_emu f) =
    fold_left toggle
      (sprite_cells (memory emu) (index_register emu) vx vy (Z.land opcode 0x000F))
      (gfx emu) /\
  cells_within (length (gfx emu))
    (sprite_cells (memory emu) (index_register emu) vx vy (Z.land opcode 0x000F)) /\
  (forall j, 0 <= j < Z.land opcode 0x000F ->
     is_Some (load (memory emu) (index_register emu + j))).
Proof.
  rewrite execute_draw_unfold. intros He.
  destruct (for_range _ _ _ _) as [e |] eqn:Hl; [| discriminate].
  cbn [mbind option_bind] in He. injection He as <-.
  apply draw_rows_cells in Hl; [| cbn [registers set_registers]; rewrite length_insert;
                                  exact Hlen].
  cbn [memory index_register gfx set_registers] in Hl.
  destruct Hl as (Hg & Hcw & Hrows).
  cbn [flow_emu gfx advance set_program_counter set_draw_flag].
  unfold sprite_cells. repeat apply conj; [exact Hg | exact Hcw |].
  intros j Hj. apply Hrows. lia.
Qed.

Lemma execute_draw_runs :
  cells_within (length (gfx emu))
    (sprite_cells (memory emu) (index_register emu) vx vy (Z.land opcode 0x000F)) ->
  (forall j, 0 <= j < Z.land opcode 0x000F ->
     is_Some (load (memory emu) (index_register emu + j))) ->
  exists e, execute rnd opcode emu = Some (Break (advance 2 (set_draw_flag true e)) []) /\
            gfx e = fold_left toggle
                      (sprite_cells (memory emu) (index_register emu) vx vy
                         (Z.land opcode 0x000F)) (gfx emu).
Proof.
  intros Hcw Hrows. rewrite execute_draw_unfold.
  destruct (draw_rows_run vx vy (Z.to_nat (Z.land opcode 0x000F)) 0
              (set_registers (<[15%nat := 0]> (registers emu)) emu)) as [e Hl].
  - cbn [registers set_registers]. rewrite length_insert. exact Hlen.
  - intros j Hj. cbn [memory index_register set_registers]. apply Hrows. lia.
  - exact Hcw.
  - rewrite Hl. cbn [mbind option_bind]. exists e. split; [reflexivity |].
    apply draw_rows_cells in Hl; [| cbn [registers set_registers];
                                    rewrite length_insert; exact Hlen].
    destruct Hl as (Hg & _). exact Hg.
Qed.
End Draw.

(** X20.  Drawing is its own inverse.  When a DXYN cycle has run within
    the framebuffer, a second DXYN with the same N, run by any later
    well-formed machine that has the framebuffer the first one left, the
    same memory and index register and the same values in its registers
    X and Y, runs within the framebuffer too and gives back the
    framebuffer as it was before the first. *)
Theorem draw_twice_restores (rnd : Z) (emu : emulator) (opcode vx vy : Z)
    (emu1 : emulator) (out1 : list event) :
  wf emu ->
  fetch emu = Some opcode ->
  Z.land opcode 0xF000 = 0xD000 ->
  registers emu !! Z.to_nat (VX opcode) = Some vx ->
  registers emu !! Z.to_nat (VY opcode) = Some vy ->
  emulation_cycle rnd emu = Some (emu1, out1) ->
  forall (rnd' : Z) (emu2 : emulator) (opcode2 : Z),
    wf emu2 ->
    gfx emu2 = gfx emu1 -> memory emu2 = memory emu ->
    index_register emu2 = index_register emu ->
    fetch emu2 = Some opcode2 ->
    Z.land opcode2 0xF000 = 0xD000 ->
    Z.land opcode2 0x000F = Z.land opcode 0x000F ->
    registers emu2 !! Z.to_nat (VX opcode2) = Some vx ->
    registers emu2 !! Z.to_nat (VY opcode2) = Some vy ->
    exists emu3 out3,
      emulation_cycle rnd' emu2 = Some (emu3, out3) /\
      gfx emu3 = gfx emu.
Proof.
  intros Hwf Hf Hc Hvx Hvy Hcy rnd' emu2 opcode2 Hwf2 Hg2 Hm2 Hi2 Hf2 Hc2 HN Hvx2 Hvy2.
  pose proof (wf_registers_length emu Hwf) as Hlen.
  pose proof (wf_registers_length emu2 Hwf2) as Hlen2.
  apply cycle_inv in Hcy as (opcode' & f & Hf' & He & Hfl).
  rewrite Hf in Hf'. injection Hf' as <-.
  destruct (execute_draw_cells rnd emu opcode vx vy Hlen Hc Hvx Hvy f He)
    as (Hg & Hcw & Hrows).
  assert (Hg1 : gfx emu1 = gfx (flow_emu f)).
  { destruct f as [e o | e]; cbn [flow_emu]; destruct Hfl as [-> _]; [| reflexivity].
    destruct (tick_timers_frame e) as (_ & _ & _ & _ & _ & H & _). exact H. }
  destruct (execute_draw_runs rnd' emu2 opcode2 vx vy Hlen2 Hc2 Hvx2 Hvy2) as (e & He2 & Hge).
  - rewrite Hm2, Hi2, HN, Hg2, Hg1, Hg, toggles_length. exact Hcw.
  - intros j Hj. rewrite Hm2, Hi2. apply Hrows. lia.
  - eexists _, _. split; [exact (cycle_break _ _ _ _ _ Hf2 He2) |].
    match goal with
    | |- context [tick_timers ?e0] =>
        destruct (tick_timers_frame e0) as (_ & _ & _ & _ & _ & H & _)
    end.
    rewrite H. cbn [gfx advance set_program_counter set_draw_flag].
    rewrite Hge, Hm2, Hi2, HN, Hg2, Hg1, Hg.
    apply (toggles_twice 2048). apply wf_gfx_ok. exact Hwf.
Qed.

Lemma draw_twice_restores_witness :
  exists emu1 out1 emu3 out3,
    emulation_cycle 0 draw_twice_machine = Some (emu1, out1) /\
    gfx emu1 <> gfx draw_twice_machine /\
    emulation_cycle 0 emu1 = Some (emu3, out3) /\
    gfx emu3 = gfx draw_twice_machine.
Proof.
  set (e1 := (default (draw_twice_machine, []) (emulation_cycle 0 draw_twice_machine)).1).
  assert (Hc1 : emulation_cycle 0 draw_twice_machine = Some (e1, []))
    by (vm_compute; reflexivity).
  assert (Hwf : wf draw_twice_machine) by wf_by_evaluation.
  assert (Hwf1 : wf e1) by wf_by_evaluation.
  assert (Hf : fetch draw_twice_machine = Some 0xD015) by (vm_compute; reflexivity).
  assert (Hf1 : fetch e1 = Some 0xD015) by (vm_compute; reflexivity).
  assert (Hx : registers draw_twice_machine !! Z.to_nat (VX 0xD015) = Some 2)
    by (vm_compute; reflexivity).
  assert (Hy : registers draw_twice_machine !! Z.to_nat (VY 0xD015) = Some 3)
    by (vm_compute; reflexivity).
  assert (Hx1 : registers e1 !! Z.to_nat (VX 0xD015) = Some 2)
    by (vm_compute; reflexivity).
  assert (Hy1 : registers e1 !! Z.to_nat (VY 0xD015) = Some 3)
    by (vm_compute; reflexivity).
  assert (Hm : memory e1 = memory draw_twice_machine) by (vm_compute; reflexivity).
  assert (Hi : index_register e1 = index_register draw_twice_machine)
    by (vm_compute; reflexivity).
  assert (Hne : gfx e1 <> gfx draw_twice_machine).
  { intros Heq. apply (f_equal (fun g => g !! 194%nat)) in Heq.
    vm_compute in Heq. discriminate Heq. }
  pose proof (draw_twice_restores 0 draw_twice_machine 0xD015 2 3 e1 []
                Hwf Hf eq_refl Hx Hy Hc1 0 e1 0xD015 Hwf1 eq_refl Hm Hi Hf1
                eq_refl eq_refl Hx1 Hy1) as (emu3 & out3 & Hc3 & Hg3).
  exists e1, [], emu3, out3.
  repeat apply conj; [exact Hc1 | exact Hne | exact Hc3 | exact Hg3].
Defined.

(** ** The host loop *)

Lemma monochrome_insert (g : list Z) (i : nat) (v : Z) :
  monochrome g = true -> v = 0 \/ v = 0xFFFFFFFF -> monochrome (<[i := v]> g) = true.
Proof.
  intros Hg Hv. apply forallb_insert; [exact Hg |].
  destruct Hv as [-> | ->]; reflexivity.
Qed.

Lemma monochrome_toggle (g : list Z) (p : Z) :
  monochrome g = true -> monochrome (toggle g p) = true.
Proof.
  intros Hg. unfold toggle. destruct (load g p) as [v |] eqn:Hl; [| exact Hg].
  apply load_Some in Hl as [_ Hl].
  pose proof (forallb_lookup _ _ _ _ Hg Hl) as Hv. cbn beta in Hv.
  apply monochrome_insert; [exact Hg |].
  apply orb_true_iff in Hv as [Hv | Hv]; apply Z.eqb_eq in Hv; subst v;
    [right | left]; reflexivity.
Qed.

Lemma monochrome_toggles (cs : list Z) :
  forall g, monochrome g = true -> monochrome (fold_left toggle cs g) = true.
Proof.
  induction cs as [| c cs IH]; intros g Hg; [exact Hg |].
  simpl. apply IH, monochrome_toggle, Hg.
Qed.

Lemma execute_clear (rnd : Z) (emu : emulator) (opcode : Z) :
  wf emu ->
  Z.land opcode 0xF000 = 0x0000 -> Z.land opcode 0x00FF = 0xE0 ->
  execute rnd opcode emu =
    Some (Break (advance 2 (set_draw_flag true (set_gfx (replicate 2048 0) emu))) []).
Proof.
  intros Hwf Hc Hs. destruct (wf_gfx_ok emu Hwf) as [Hgl _].
  unfold execute. rewrite Hc, Hs. unfold op_clear_screen.
  rewrite clear_loop by (rewrite ?Hgl; lia). cbn [mbind option_bind].
  change (Z.to_nat (64 * 32)) with 2048%nat. change (Z.to_nat 0) with 0%nat.
  rewrite inserts_whole by (rewrite length_replicate, Hgl; reflexivity).
  reflexivity.
Qed.

Lemma execute_monochrome (rnd : Z) (emu : emulator) (opcode : Z) (f : flow) :
  wf emu -> monochrome (gfx emu) = true ->
  execute rnd opcode emu = Some f -> monochrome (gfx (flow_emu f)) = true.
Proof.
  intros Hwf Hg He.
  destruct (writes_gfx opcode) eqn:Hw.
  - unfold writes_gfx in Hw. apply orb_true_iff in Hw as [Hd | Hz].
    + apply Z.eqb_eq in Hd.
      destruct (wf_register_some emu Hwf (VX opcode) (VX_range opcode)) as [vx Hvx].
      destruct (wf_register_some emu Hwf (VY opcode) (VY_range opcode)) as [vy Hvy].
      destruct (execute_draw_cells rnd emu opcode vx vy
                  (wf_registers_length emu Hwf) Hd Hvx Hvy f He) as (-> & _).
      apply monochrome_toggles, Hg.
    + apply andb_true_iff in Hz as [Hc Hs].
      apply Z.eqb_eq in Hc. apply Z.eqb_eq in Hs.
      rewrite (execute_clear rnd emu opcode Hwf Hc Hs) in He. injection He as <-.
      reflexivity.
  - pose proof (execute_frame rnd opcode emu f He) as Hfr. rewrite Hw in Hfr.
    destruct Hfr as (_ & _ & _ & _ & _ & Hgf & _).
    destruct (Hgf eq_refl) as [-> _]. exact Hg.
Qed.

(** A cycle keeps a well-formed machine with a black and white
    framebuffer such a machine. *)
Lemma cycle_monochrome (rnd : Z) (emu emu' : emulator) (out : list event) :
  wf emu -> monochrome (gfx emu) = true ->
  emulation_cycle rnd emu = Some (emu', out) ->
  wf emu' /\ monochrome (gfx emu') = true.
Proof.
  intros Hwf Hg Hc.
  apply cycle_inv in Hc as (opcode & f & _ & He & Hfl).
  pose proof (execute_wf rnd opcode emu f Hwf He) as Hwf'.
  pose proof (execute_monochrome rnd emu opcode f Hwf Hg He) as Hg'.
  destruct f as [e o | e]; cbn [flow_emu] in *; destruct Hfl as [-> _].
  - split; [apply tick_timers_wf, Hwf' |].
    destruct (tick_timers_frame e) as (_ & _ & _ & _ & _ & -> & _). exact Hg'.
  - split; assumption.
Qed.

Lemma handle_event_gfx (st : bool * emulator) (ev : sdl_event) :
  gfx (handle_event st ev).2 = gfx st.2.
Proof.
  destruct st as [running emu]. destruct ev as [| code | code |]; try reflexivity;
    destruct code; reflexivity.
Qed.

Lemma handle_input_gfx (running : bool) (emu : emulator) (pending : list sdl_event) :
  gfx (handle_input running emu pending).2 = gfx emu.
Proof.
  unfold handle_input. change emu with (running, emu).2 at 2.
  generalize (running, emu). induction pending as [| ev pending IH]; intros st;
    [reflexivity |].
  simpl. rewrite IH. apply handle_event_gfx.
Qed.

Lemma load_rom_gfx (emu : emulator) (file : rom_file) :
  gfx (load_rom emu file).1.2 = gfx emu.
Proof.
  unfold load_rom. destruct file as [| contents delivered]; [reflexivity |].
  cbv zeta. destruct (Z.of_nat (length contents) <=? 0xFFF - 0x200); [| reflexivity].
  destruct (_ =? _)%nat; reflexivity.
Qed.

Lemma main_loop_monochrome (frames : script) :
  forall running emu r e trace,
    wf emu -> monochrome (gfx emu) = true ->
    main_loop frames running emu = Some (r, e, trace) ->
    wf e /\ monochrome (gfx e) = true /\
    forall pixels, In (Render pixels) trace ->
      length pixels = 2048%nat /\ monochrome pixels = true.
Proof.
  induction frames as [| [pending rnd] rest IH]; intros running emu r e trace Hwf Hg Hl.
  - injection Hl as <- <- <-. split; [exact Hwf | split; [exact Hg |]].
    intros pixels [].
  - cbn [main_loop] in Hl. destruct running.
    + cbv zeta in Hl.
      destruct (emulation_cycle rnd (handle_input true emu pending).2)
        as [[e1 out] |] eqn:Hc; [| discriminate].
      cbn [mbind option_bind] in Hl.
      destruct (main_loop rest (handle_input true emu pending).1 e1)
        as [[[r2 e2] t2] |] eqn:Hrest; [| discriminate].
      cbn [mbind option_bind] in Hl. injection Hl as <- <- <-.
      destruct (cycle_monochrome rnd _ e1 out
                  (handle_input_wf true emu pending Hwf)
                  ltac:(rewrite handle_input_gfx; exact Hg) Hc) as [Hwf1 Hg1].
      destruct (IH _ _ _ _ _ Hwf1 Hg1 Hrest) as (Hwf2 & Hg2 & Hshown).
      split; [exact Hwf2 | split; [exact Hg2 |]].
      intros pixels Hin. apply in_app_or in Hin as [Hin | [Hin | Hin]].
      * apply in_map_iff in Hin as (x & Hx & _). discriminate Hx.
      * injection Hin as <-. split; [apply wf_gfx_ok, Hwf1 | exact Hg1].
      * apply Hshown, Hin.
    + injection Hl as <- <- <-. split; [exact Hwf | split; [exact Hg |]].
      intros pixels [].
Qed.

(** X21.  As long as every cycle stays within the arrays of the machine,
    what [main] shows is a black and white picture of 2048 pixels.  For
    an image file of bytes and a run of [main] all of whose cycles stay
    in bounds (so that [main] returns), whatever the key events and the
    random values, the machine the run ends with is well-formed, and
    every framebuffer handed to the renderer has 2048 cells, each 0 or
    0xFFFFFFFF. *)
Theorem main_shows_monochrome (file : rom_file) (frames : script)
    (status : option Z) (emu : emulator) (trace : list host_event) :
  rom_file_ok file ->
  main file frames = Some (status, emu, trace) ->
  wf emu /\
  forall pixels, In (Render pixels) trace ->
    length pixels = 2048%nat /\ monochrome pixels = true.
Proof.
  intros Hfile Hm. unfold main in Hm. cbv zeta in Hm.
  assert (Hz : wf zero_emulator) by wf_by_evaluation.
  pose proof (load_rom_wf _ file (init_wf _ Hz) Hfile) as Hwf.
  destruct (load_rom (init zero_emulator) file).1.1.
  - destruct (main_loop frames true (load_rom (init zero_emulator) file).1.2)
      as [[[r e] t] |] eqn:Hl; [| discriminate].
    cbn [mbind option_bind] in Hm. injection Hm as <- <- <-.
    destruct (main_loop_monochrome frames _ _ _ _ _ Hwf
                ltac:(rewrite load_rom_gfx; reflexivity) Hl) as (Hwfe & _ & Hshown).
    split; [exact Hwfe |].
    intros pixels [Hin | Hin]; [discriminate Hin |].
    apply in_app_or in Hin as [Hin | Hin]; [| apply Hshown, Hin].
    apply in_map_iff in Hin as (x & Hx & _). discriminate Hx.
  - injection Hm as <- <- <-. split; [exact Hwf |].
    intros pixels [Hin | Hin]; [discriminate Hin |].
    apply in_map_iff in Hin as (x & Hx & _). discriminate Hx.
Qed.

Lemma main_shows_monochrome_witness :
  exists status emu trace,
    main glyph_rom glyph_script = Some (status, emu, trace) /\
    In (Render (gfx emu)) trace /\ gfx emu <> gfx zero_emulator /\
    wf emu /\
    forall pixels, In (Render pixels) trace ->
      length pixels = 2048%nat /\ monochrome pixels = true.
Proof.
  set (res := default (None, zero_emulator, []) (main glyph_rom glyph_script)).
  assert (Hm : main glyph_rom glyph_script = Some (Some 0, res.1.2, res.2))
    by (vm_compute; reflexivity).
  exists (Some 0), res.1.2, res.2.
  split; [exact Hm |]. split; [| split].
  - vm_compute. right. right. right. right. right. left. reflexivity.
  - intros Heq. apply (f_equal (fun g => g !! 0%nat)) in Heq.
    vm_compute in Heq. discriminate Heq.
  - apply (main_shows_monochrome glyph_rom glyph_script (Some 0) res.1.2 res.2);
      [vm_compute; reflexivity | exact Hm].
Defined.

Lemma handle_input_stopped (emu : emulator) (pending : list sdl_event) :
  (handle_input false emu pending).1 = false.
Proof.
  unfold handle_input. revert emu.
  induction pending as [| ev pending IH]; intros emu; [reflexivity |].
  simpl. destruct ev as [| code | code |]; try apply IH;
    destruct code; simpl; try apply IH.
Qed.

(** [handle_input] clears [g__running] exactly when one of the pending
    events closes the window or is the Escape key going down. *)
Lemma handle_input_running (emu : emulator) (pending : list sdl_event) :
  (handle_input true emu pending).1 = negb (existsb quits pending).
Proof.
  unfold handle_input. revert emu.
  induction pending as [| ev pending IH]; intros emu; [reflexivity |].
  simpl. destruct ev as [| code | code |]; simpl.
  - apply handle_input_stopped.
  - destruct code; simpl; try apply IH. apply handle_input_stopped.
  - destruct code; simpl; apply IH.
  - apply IH.
Qed.



(** ** Timers, index arithmetic and jumps *)

Section TimerOps.
Variables (rnd : Z) (emu : emulator) (opcode vx : Z).
Hypothesis Hwf : wf emu.
Hypothesis Hc : Z.land opcode 0xF000 = 0xF000.
Hypothesis Hvx : registers emu !! Z.to_nat (VX opcode) = Some vx.

Lemma execute_set_delay :
  Z.land opcode 0x00FF = 0x15 ->
  execute rnd opcode emu = Some (Break (advance 2 (set_delay_timer vx emu)) []).
Proof.
  intros Hs. pose proof (VX_range opcode) as HX.
  unfold execute. rewrite Hc, Hs. unfold op_set_delay.
  rewrite load_lookup by lia. rewrite Hvx. reflexivity.
Qed.

Lemma execute_set_sound :
  Z.land opcode 0x00FF = 0x18 ->
  execute rnd opcode emu = Some (Break (advance 2 (set_sound_timer vx emu)) []).
Proof.
  intros Hs. pose proof (VX_range opcode) as HX.
  unfold execute. rewrite Hc, Hs. unfold op_set_sound.
  rewrite load_lookup by lia. rewrite Hvx. reflexivity.
Qed.

Lemma execute_get_delay :
  Z.land opcode 0x00FF = 0x07 ->
  execute rnd opcode emu =
    Some (Break (advance 2 (set_registers
                   (<[Z.to_nat (VX opcode) := delay_timer emu]> (registers emu)) emu)) []).
Proof.
  intros Hs. pose proof (VX_range opcode) as HX.
  unfold execute. rewrite Hc, Hs. unfold op_get_delay.
  rewrite store_in by (rewrite (wf_registers_length emu Hwf); lia). reflexivity.
Qed.

Lemma execute_add_index :
  Z.land opcode 0x00FF = 0x1E ->
  execute rnd opcode emu =
    Some (Break (advance 2
            (set_index_register (u16 (index_register emu + vx))
               (set_registers
                  (<[15%nat := if index_register emu + vx >? 0xFFF then 1 else 0]>
                     (registers emu)) emu))) []).
Proof.
  intros Hs. pose proof (VX_range opcode) as HX.
  unfold execute. rewrite Hc, Hs. unfold op_add_index.
  rewrite load_lookup by lia. rewrite Hvx. cbn [mbind option_bind].
  rewrite store_in by (rewrite (wf_registers_length emu Hwf); lia). reflexivity.
Qed.
End TimerOps.

(** X23.  A timer that is set is counted down in the same cycle.  After
    FX15 the delay timer holds VX - 1 (0 when VX is 0), after FX18 the
    sound timer holds VX - 1 and the beep is printed at once when VX is
    1; the other timer counts down as usual.  FX07 reads the delay timer
    before the count-down of its own cycle. *)
Theorem timer_set_counts_down (rnd : Z) (emu : emulator) (opcode vx : Z) :
  wf emu ->
  fetch emu = Some opcode ->
  Z.land opcode 0xF000 = 0xF000 ->
  registers emu !! Z.to_nat (VX opcode) = Some vx ->
  (Z.land opcode 0x00FF = 0x15 ->
   exists emu' out,
     emulation_cycle rnd emu = Some (emu', out) /\
     delay_timer emu' = Z.max 0 (vx - 1) /\
     sound_timer emu' = Z.max 0 (sound_timer emu - 1) /\
     registers emu' = registers emu) /\
  (Z.land opcode 0x00FF = 0x18 ->
   exists emu' out,
     emulation_cycle rnd emu = Some (emu', out) /\
     sound_timer emu' = Z.max 0 (vx - 1) /\
     delay_timer emu' = Z.max 0 (delay_timer emu - 1) /\
     (In Print_beep out <-> vx = 1) /\
     registers emu' = registers emu) /\
  (Z.land opcode 0x00FF = 0x07 ->
   exists emu' out,
     emulation_cycle rnd emu = Some (emu', out) /\
     registers emu' = <[Z.to_nat (VX opcode) := delay_timer emu]> (registers emu) /\
     delay_timer emu' = Z.max 0 (delay_timer emu - 1)).
Proof.
  intros Hwf Hf Hc Hvx.
  assert (Hv : in_range 256 vx = true).
  { apply in_range_spec. eapply wf_register; eassumption. }
  pose proof (wf_delay_ok emu Hwf) as Hd. pose proof (wf_sound_ok emu Hwf) as Hs.
  split; [| split]; intros Hlow.
  - pose proof (execute_set_delay rnd emu opcode vx Hc Hvx Hlow) as He.
    eexists _, _. split; [exact (cycle_break _ _ _ _ _ Hf He) |].
    destruct (tick_timers_values (advance 2 (set_delay_timer vx emu)) Hv Hs)
      as (Hdt & Hst & _).
    destruct (tick_timers_frame (advance 2 (set_delay_timer vx emu)))
      as (_ & _ & Hr & _).
    split; [exact Hdt | split; [exact Hst | exact Hr]].
  - pose proof (execute_set_sound rnd emu opcode vx Hc Hvx Hlow) as He.
    eexists _, _. split; [exact (cycle_break _ _ _ _ _ Hf He) |].
    destruct (tick_timers_values (advance 2 (set_sound_timer vx emu)) Hd Hv)
      as (Hdt & Hst & Hout).
    destruct (tick_timers_frame (advance 2 (set_sound_timer vx emu)))
      as (_ & _ & Hr & _).
    split; [exact Hst | split; [exact Hdt | split; [| exact Hr]]].
    rewrite Hout. cbn [sound_timer advance set_program_counter set_sound_timer app].
    destruct (Z.eqb_spec vx 1) as [-> | Hne]; cbn [In].
    + split; [reflexivity | left; reflexivity].
    + split; [intros [] | intros ->; contradiction].
  - pose proof (execute_get_delay rnd emu opcode Hwf Hc Hlow) as He.
    eexists _, _. split; [exact (cycle_break _ _ _ _ _ Hf He) |].
    match goal with
    | |- context [tick_timers ?e] =>
        destruct (tick_timers_values e Hd Hs) as (Hdt & _);
        destruct (tick_timers_frame e) as (_ & _ & Hr & _)
    end.
    split; [exact Hr | exact Hdt].
Qed.

Lemma timer_set_counts_down_witness :
  exists emu' out,
    emulation_cycle 0 sound_machine = Some (emu', out) /\
    sound_timer emu' = 0 /\ In Print_beep out.
Proof.
  destruct (timer_set_counts_down 0 sound_machine 0xF018 1) as (_ & Hsound & _);
    [wf_by_evaluation | vm_compute; reflexivity | reflexivity
    | vm_compute; reflexivity |].
  destruct (Hsound eq_refl) as (emu' & out & Hcy & Hst & _ & Hbeep & _).
  exists emu', out. split; [exact Hcy | split; [exact Hst |]].
  apply Hbeep. reflexivity.
Defined.

(** X24.  FX1E writes register 0xF, although its comment says the flag is
    not affected: 1 when I + VX is above 0xFFF and 0 otherwise, and no
    other register.  The index register becomes I + VX modulo 2^16; it
    is not reduced to twelve bits, so that when the flag is 1 and the
    sum is below 2^16 it points outside the memory. *)
Theorem add_index_sets_flag (rnd : Z) (emu : emulator) (opcode vx : Z) :
  wf emu ->
  fetch emu = Some opcode ->
  Z.land opcode 0xF000 = 0xF000 -> Z.land opcode 0x00FF = 0x1E ->
  registers emu !! Z.to_nat (VX opcode) = Some vx ->
  exists emu' out flag,
    emulation_cycle rnd emu = Some (emu', out) /\
    registers emu' = <[15%nat := flag]> (registers emu) /\
    (flag = 1 /\ 0xFFF < index_register emu + vx \/
     flag = 0 /\ index_register emu + vx <= 0xFFF) /\
    index_register emu' = (index_register emu + vx) mod 65536 /\
    memory emu' = memory emu /\
    (0xFFF < index_register emu + vx < 65536 ->
     load (memory emu') (index_register emu') = None).
Proof.
  intros Hwf Hf Hc Hlow Hvx.
  pose proof (execute_add_index rnd emu opcode vx Hwf Hc Hvx Hlow) as He.
  eexists _, _, _. split; [exact (cycle_break _ _ _ _ _ Hf He) |].
  match goal with
  | |- context [tick_timers ?e] =>
      destruct (tick_timers_frame e) as (Hm & _ & Hr & Hi & _)
  end.
  rewrite Hm, Hr, Hi.
  cbn [memory registers index_register advance set_program_counter
       set_index_register set_registers].
  split; [reflexivity |]. split; [| split; [reflexivity | split; [reflexivity |]]].
  - destruct (Z.gtb_spec (index_register emu + vx) 0xFFF); [left | right]; split;
      try reflexivity; lia.
  - intros Hsum. unfold u16. change (2 ^ 16) with 65536.
    rewrite Z.mod_small by lia.
    apply load_None_iff. right. rewrite (wf_memory_length emu Hwf). lia.
Qed.

Lemma add_index_sets_flag_witness :
  exists emu' out,
    emulation_cycle 0 add_index_machine = Some (emu', out) /\
    registers emu' !! 15%nat = Some 1 /\
    index_register emu' = 0x1008 /\
    load (memory emu') (index_register emu') = None.
Proof.
  destruct (add_index_sets_flag 0 add_index_machine 0xF01E 0x10)
    as (emu' & out & flag & Hcy & Hr & Hflag & Hi & _ & Hout);
    [wf_by_evaluation | vm_compute; reflexivity | reflexivity | reflexivity
    | vm_compute; reflexivity |].
  exists emu', out. split; [exact Hcy |].
  assert (Hsum : index_register add_index_machine + 0x10 = 0x1008)
    by (vm_compute; reflexivity).
  rewrite Hsum in Hflag, Hi, Hout.
  split; [| split; [exact Hi | apply Hout; lia]].
  rewrite Hr. destruct Hflag as [[-> _] | [_ Hle]]; [reflexivity | lia].
Defined.

Lemma fetch_outside (rnd : Z) (emu : emulator) :
  length (memory emu) = 4096%nat ->
  4095 <= program_counter emu ->
  emulation_cycle rnd emu = None.
Proof.
  intros Hlen Hpc. unfold emulation_cycle, fetch.
  destruct (load (memory emu) (program_counter emu)) as [hi |]; [| reflexivity].
  cbn [mbind option_bind].
  rewrite (proj2 (load_None_iff (memory emu) (program_counter emu + 1)))
    by (right; rewrite Hlen; lia).
  reflexivity.
Qed.

(** X25.  The target of a jump is not checked.  1NNN sets the program
    counter to NNN and BNNN to NNN + V0, which is not reduced to twelve
    bits and may be as large as 0x10FE; nothing else but the timers
    changes.  When the target is 4095 or more the next cycle reads its
    instruction outside the memory. *)
Theorem jump_target_unchecked (rnd : Z) (emu : emulator) (opcode v0 : Z) :
  wf emu ->
  fetch emu = Some opcode ->
  registers emu !! 0%nat = Some v0 ->
  Z.land opcode 0xF000 = 0x1000 \/ Z.land opcode 0xF000 = 0xB000 ->
  exists emu' out,
    emulation_cycle rnd emu = Some (emu', out) /\
    program_counter emu' =
      (if Z.land opcode 0xF000 =? 0x1000 then Z.land opcode 0x0FFF
       else Z.land opcode 0x0FFF + v0) /\
    registers emu' = registers emu /\ memory emu' = memory emu /\
    stack emu' = stack emu /\ stack_ptr emu' = stack_ptr emu /\
    (4095 <= program_counter emu' -> forall rnd', emulation_cycle rnd' emu' = None).
Proof.
  intros Hwf Hf Hv0 Hc.
  pose proof (NNN_range opcode) as HN.
  pose proof (wf_register emu Hwf _ _ Hv0) as Hv.
  assert (He : execute rnd opcode emu =
               Some (Break (set_program_counter
                              (if Z.land opcode 0xF000 =? 0x1000 then Z.land opcode 0x0FFF
                               else Z.land opcode 0x0FFF + v0) emu) [])).
  { unfold execute. destruct Hc as [-> | ->]; cbn [Z.eqb Pos.eqb]; [reflexivity |].
    unfold op_jump_offset. rewrite load_lookup by lia.
    change (Z.to_nat 0) with 0%nat. rewrite Hv0. cbn [mbind option_bind].
    unfold u16. change (2 ^ 16) with 65536. rewrite Z.mod_small by lia.
    reflexivity. }
  eexists _, _. split; [exact (cycle_break _ _ _ _ _ Hf He) |].
  match goal with
  | |- context [tick_timers ?e] =>
      destruct (tick_timers_frame e) as (Hm & _ & Hr & _ & Hp & _ & _ & Hst & Hsp & _)
  end.
  repeat apply conj; try assumption.
  intros Hout rnd'. apply fetch_outside; [| exact Hout].
  rewrite Hm. exact (wf_memory_length emu Hwf).
Qed.

Lemma jump_target_unchecked_witness :
  exists emu' out,
    emulation_cycle 0 jump_out_machine = Some (emu', out) /\
    program_counter emu' = 0xFFF /\
    emulation_cycle 0 emu' = None.
Proof.
  destruct (jump_target_unchecked 0 jump_out_machine 0x1FFF 0)
    as (emu' & out & Hcy & Hpc & _ & _ & _ & _ & Hout);
    [wf_by_evaluation | vm_compute; reflexivity | vm_compute; reflexivity
    | left; reflexivity |].
  change (Z.land 0x1FFF 0xF000 =? 0x1000) with true in Hpc. cbv iota in Hpc.
  change (Z.land 0x1FFF 0x0FFF) with 0xFFF in Hpc.
  exists emu', out. split; [exact Hcy | split; [exact Hpc |]].
  apply Hout. rewrite Hpc. lia.
Defined.
